(** * worldgen: the in-browser simulation of [src/app/main.js]

    A shallow embedding of the game logic (status effects, skill checks,
    dialogue traversal, the quest state machine, item spawning, collision
    push-out, the shop) together with the properties its specification
    states about it.

    Conventions of the embedding.
    - A JavaScript number is a rational ([Q]). Where a statement depends
      on how doubles round (the threshold of the skill check, the push out
      of a rectangle), each arithmetic operation is followed by
      [roundDouble], the rounding of IEEE binary64; elsewhere the
      arithmetic is exact and the statements keep to what the code itself
      compares or clamps. Infinities and [NaN] are doubles that [Q] does
      not have; the [illusion] module, where they arise, is embedded on
      the machine's doubles.
    - The global object [G] is the record [Game]; a function that mutates
      [G] is a function [Game -> Game], and one that can raise a
      [TypeError] runs in the monad [M], whose [Throw] outcome keeps the
      state reached when the exception left the handler.
    - [Math.random()] reads the stream [random] at the cursor [rngIx].
    - The loaded JSON ([dialoguesData], [inventoryData]) is reference data
      and is a parameter of the functions that read it. *)

From Stdlib Require Import QArith Qround Qminmax Qabs Qpower Lqa Lia.
From Stdlib Require PrimFloat FloatOps.
From stdpp Require Import base option list strings pretty gmap.

Local Open Scope string_scope.
Local Open Scope Q_scope.

(** ** Data model *)

(** The three quest states, the strings ['not-started'], ['in-progress']
    and ['completed'] of the source. *)
Inductive QuestStatus := NotStarted | InProgress | Completed.

#[global] Instance QuestStatus_eq_dec : EqDecision QuestStatus.
Proof. solve_decision. Defined.

Record Screen := { w : Q; h : Q; safeBottom : Q }.

Record Zone := { zone_id : string; zone_name : string; zone_x : Q; zone_width : Q }.

Record Npc := {
  npc_id : string; dialogueIndex : nat;
  npc_x : Q; npc_y : Q; zoneIndex : nat;
  skill : string; difficulty : Q;
  dx : Q; dy : Q }.

Record Obstacle := { ob_zoneIndex : nat; ob_x : Q; ob_y : Q; ob_width : Q; ob_height : Q }.

Record Building := {
  b_npcId : string; b_x : Q; b_y : Q; b_width : Q; b_height : Q;
  doorX : Q; doorY : Q }.

(** An interior holds its own copy of the occupant ([interior.npc]). *)
Record Interior := { int_npcId : string; int_width : Q; int_height : Q; int_npc : Npc }.

Record StatusEffect := { eff_name : string; eff_type : string; eff_value : Q; eff_time : Q }.

Record Message := { msg_text : string; msg_time : Q }.

Record WorldObject := { itemId : string; obj_x : Q; obj_y : Q }.

Record Item := { item_id : string; item_name : string; category : string }.

Record Ability := { ab_id : string; ab_name : string; ab_description : string }.

(** Optional JSON fields are [option]s: the source tests them with
    [if (x.grants_item_ids)] or defaults them with [|| []]. *)
Record DOption := {
  choice_text : string;
  to_id : option string;
  opt_grants_item_ids : option (list string) }.

Record Node := {
  node_id : string;
  speaker : option string;
  text : string;
  grants_item_ids : option (list string);
  options : option (list DOption) }.

Record Dialogue := { dlg_id : string; nodes : list Node }.

Record Step := { goal : string; location_hint : string; requires_item_ids : option (list string) }.

(** An entry of [questsData.quests]. *)
Record Quest := { q_id : string; q_title : string; q_is_main : bool; q_steps : list Step }.

(** An entry of [G.questsState]. *)
Record QuestState := {
  qs_id : string; title : string; is_main : bool;
  steps : list Step;
  status : QuestStatus;
  currentStep : nat;
  stepAssignments : list string }.

(** [G.talk] when it is not [null]; [currentNode] is [undefined] when the
    dialogue has no node. *)
Record Talk := { talk_npcId : string; talk_dialogueIndex : nat; currentNode : option Node }.

Record Player := {
  x : Q; y : Q;
  baseSpeed : Q; speed : Q;
  vx : Q; vy : Q;
  hp : Q; maxHp : Q; gold : Q;
  skills : gmap string Q;
  equipped_weapon : option string; equipped_armour : option string;
  inventory : list string;
  abilities : list Ability;
  abilityCooldown : gmap string Q }.

(** The global [G]. [currentInterior] is a reference into [G.interiors],
    kept as an index so that a write through it is seen in [interiors]. *)
Record Game := {
  screen : Screen;
  player : Player;
  zones : list Zone;
  npcs : list Npc;
  objects : list WorldObject;
  statusEffects : list StatusEffect;
  messages : list Message;
  questsState : list QuestState;
  talk : option Talk;
  shopStock : option (list Item);
  buildings : list Building;
  interiors : list Interior;
  obstacles : list Obstacle;
  inInterior : bool;
  currentInterior : option nat;
  rngIx : nat }.

(** *** Field updates *)

Definition set_xy (nx ny : Q) (p : Player) : Player :=
  {| x := nx; y := ny; baseSpeed := baseSpeed p; speed := speed p; vx := vx p; vy := vy p;
     hp := hp p; maxHp := maxHp p; gold := gold p; skills := skills p;
     equipped_weapon := equipped_weapon p; equipped_armour := equipped_armour p;
     inventory := inventory p; abilities := abilities p;
     abilityCooldown := abilityCooldown p |}.

Definition set_speed (v : Q) (p : Player) : Player :=
  {| x := x p; y := y p; baseSpeed := baseSpeed p; speed := v; vx := vx p; vy := vy p;
     hp := hp p; maxHp := maxHp p; gold := gold p; skills := skills p;
     equipped_weapon := equipped_weapon p; equipped_armour := equipped_armour p;
     inventory := inventory p; abilities := abilities p;
     abilityCooldown := abilityCooldown p |}.

Definition set_hp (v : Q) (p : Player) : Player :=
  {| x := x p; y := y p; baseSpeed := baseSpeed p; speed := speed p; vx := vx p; vy := vy p;
     hp := v; maxHp := maxHp p; gold := gold p; skills := skills p;
     equipped_weapon := equipped_weapon p; equipped_armour := equipped_armour p;
     inventory := inventory p; abilities := abilities p;
     abilityCooldown := abilityCooldown p |}.

Definition set_gold (v : Q) (p : Player) : Player :=
  {| x := x p; y := y p; baseSpeed := baseSpeed p; speed := speed p; vx := vx p; vy := vy p;
     hp := hp p; maxHp := maxHp p; gold := v; skills := skills p;
     equipped_weapon := equipped_weapon p; equipped_armour := equipped_armour p;
     inventory := inventory p; abilities := abilities p;
     abilityCooldown := abilityCooldown p |}.

Definition set_inventory (v : list string) (p : Player) : Player :=
  {| x := x p; y := y p; baseSpeed := baseSpeed p; speed := speed p; vx := vx p; vy := vy p;
     hp := hp p; maxHp := maxHp p; gold := gold p; skills := skills p;
     equipped_weapon := equipped_weapon p; equipped_armour := equipped_armour p;
     inventory := v; abilities := abilities p;
     abilityCooldown := abilityCooldown p |}.

Definition set_equipped (wp ar : option string) (p : Player) : Player :=
  {| x := x p; y := y p; baseSpeed := baseSpeed p; speed := speed p; vx := vx p; vy := vy p;
     hp := hp p; maxHp := maxHp p; gold := gold p; skills := skills p;
     equipped_weapon := wp; equipped_armour := ar;
     inventory := inventory p; abilities := abilities p;
     abilityCooldown := abilityCooldown p |}.

Definition set_abilityCooldown (v : gmap string Q) (p : Player) : Player :=
  {| x := x p; y := y p; baseSpeed := baseSpeed p; speed := speed p; vx := vx p; vy := vy p;
     hp := hp p; maxHp := maxHp p; gold := gold p; skills := skills p;
     equipped_weapon := equipped_weapon p; equipped_armour := equipped_armour p;
     inventory := inventory p; abilities := abilities p;
     abilityCooldown := v |}.

Definition set_player (v : Player) (g : Game) : Game :=
  {| screen := screen g; player := v; zones := zones g; npcs := npcs g; objects := objects g;
     statusEffects := statusEffects g; messages := messages g; questsState := questsState g;
     talk := talk g; shopStock := shopStock g; buildings := buildings g;
     interiors := interiors g; obstacles := obstacles g; inInterior := inInterior g;
     currentInterior := currentInterior g; rngIx := rngIx g |}.

Definition set_npcs (v : list Npc) (g : Game) : Game :=
  {| screen := screen g; player := player g; zones := zones g; npcs := v; objects := objects g;
     statusEffects := statusEffects g; messages := messages g; questsState := questsState g;
     talk := talk g; shopStock := shopStock g; buildings := buildings g;
     interiors := interiors g; obstacles := obstacles g; inInterior := inInterior g;
     currentInterior := currentInterior g; rngIx := rngIx g |}.

Definition set_objects (v : list WorldObject) (g : Game) : Game :=
  {| screen := screen g; player := player g; zones := zones g; npcs := npcs g; objects := v;
     statusEffects := statusEffects g; messages := messages g; questsState := questsState g;
     talk := talk g; shopStock := shopStock g; buildings := buildings g;
     interiors := interiors g; obstacles := obstacles g; inInterior := inInterior g;
     currentInterior := currentInterior g; rngIx := rngIx g |}.

Definition set_statusEffects (v : list StatusEffect) (g : Game) : Game :=
  {| screen := screen g; player := player g; zones := zones g; npcs := npcs g; objects := objects g;
     statusEffects := v; messages := messages g; questsState := questsState g;
     talk := talk g; shopStock := shopStock g; buildings := buildings g;
     interiors := interiors g; obstacles := obstacles g; inInterior := inInterior g;
     currentInterior := currentInterior g; rngIx := rngIx g |}.

Definition set_messages (v : list Message) (g : Game) : Game :=
  {| screen := screen g; player := player g; zones := zones g; npcs := npcs g; objects := objects g;
     statusEffects := statusEffects g; messages := v; questsState := questsState g;
     talk := talk g; shopStock := shopStock g; buildings := buildings g;
     interiors := interiors g; obstacles := obstacles g; inInterior := inInterior g;
     currentInterior := currentInterior g; rngIx := rngIx g |}.

Definition set_questsState (v : list QuestState) (g : Game) : Game :=
  {| screen := screen g; player := player g; zones := zones g; npcs := npcs g; objects := objects g;
     statusEffects := statusEffects g; messages := messages g; questsState := v;
     talk := talk g; shopStock := shopStock g; buildings := buildings g;
     interiors := interiors g; obstacles := obstacles g; inInterior := inInterior g;
     currentInterior := currentInterior g; rngIx := rngIx g |}.

Definition set_talk (v : option Talk) (g : Game) : Game :=
  {| screen := screen g; player := player g; zones := zones g; npcs := npcs g; objects := objects g;
     statusEffects := statusEffects g; messages := messages g; questsState := questsState g;
     talk := v; shopStock := shopStock g; buildings := buildings g;
     interiors := interiors g; obstacles := obstacles g; inInterior := inInterior g;
     currentInterior := currentInterior g; rngIx := rngIx g |}.

Definition set_shopStock (v : option (list Item)) (g : Game) : Game :=
  {| screen := screen g; player := player g; zones := zones g; npcs := npcs g; objects := objects g;
     statusEffects := statusEffects g; messages := messages g; questsState := questsState g;
     talk := talk g; shopStock := v; buildings := buildings g;
     interiors := interiors g; obstacles := obstacles g; inInterior := inInterior g;
     currentInterior := currentInterior g; rngIx := rngIx g |}.

Definition set_interiors (v : list Interior) (g : Game) : Game :=
  {| screen := screen g; player := player g; zones := zones g; npcs := npcs g; objects := objects g;
     statusEffects := statusEffects g; messages := messages g; questsState := questsState g;
     talk := talk g; shopStock := shopStock g; buildings := buildings g;
     interiors := v; obstacles := obstacles g; inInterior := inInterior g;
     currentInterior := currentInterior g; rngIx := rngIx g |}.

Definition set_rngIx (v : nat) (g : Game) : Game :=
  {| screen := screen g; player := player g; zones := zones g; npcs := npcs g; objects := objects g;
     statusEffects := statusEffects g; messages := messages g; questsState := questsState g;
     talk := talk g; shopStock := shopStock g; buildings := buildings g;
     interiors := interiors g; obstacles := obstacles g; inInterior := inInterior g;
     currentInterior := currentInterior g; rngIx := v |}.

Definition set_status_step (s : QuestStatus) (c : nat) (qs : QuestState) : QuestState :=
  {| qs_id := qs_id qs; title := title qs; is_main := is_main qs; steps := steps qs;
     status := s; currentStep := c; stepAssignments := stepAssignments qs |}.

Definition set_npc_motion (nx ny ndx ndy : Q) (n : Npc) : Npc :=
  {| npc_id := npc_id n; dialogueIndex := dialogueIndex n; npc_x := nx; npc_y := ny;
     zoneIndex := zoneIndex n; skill := skill n; difficulty := difficulty n;
     dx := ndx; dy := ndy |}.

Definition set_int_npc (n : Npc) (i : Interior) : Interior :=
  {| int_npcId := int_npcId i; int_width := int_width i; int_height := int_height i;
     int_npc := n |}.

(** *** Comparisons on numbers, as booleans *)

Definition Qltb (a b : Q) : bool := negb (Qle_bool b a).
Definition Qleb (a b : Q) : bool := Qle_bool a b.

Infix "<?" := Qltb : Q_scope.
Infix "<=?" := Qleb : Q_scope.

(** *** Double precision *)

(** The exponent of the leading bit of a positive rational: the floor of
    its binary logarithm. *)
Definition flog2 (q : Q) : Z :=
  let k := (Z.log2 (Qnum q) - Z.log2 (Zpos (Qden q)))%Z in
  if Qle_bool (2 ^ k) q then k else (k - 1)%Z.

(** The nearest integer, the even one of two that are equally near. *)
Definition roundHalfEven (s : Q) : Z :=
  let f := Qfloor s in
  let r := s - inject_Z f in
  if r <? 1 # 2 then f
  else if (1 # 2) <? r then (f + 1)%Z
  else if Z.even f then f else (f + 1)%Z.

(** The double nearest to a rational: 53 significant bits, ties to even.
    The range of the exponent is not bounded, so a result beyond the
    largest double is not turned into an infinity and one below [2^-1022]
    keeps its 53 bits. *)
Definition roundDouble (x : Q) : Q :=
  if Qeq_bool x 0 then 0
  else
    let e := (flog2 (Qabs x) - 52)%Z in
    Qred (inject_Z (roundHalfEven (x * 2 ^ (- e))) * 2 ^ e).

(** The four operations on doubles. *)
Definition fadd (a b : Q) : Q := roundDouble (a + b).
Definition fsub (a b : Q) : Q := roundDouble (a - b).
Definition fmul (a b : Q) : Q := roundDouble (a * b).
Definition fdiv (a b : Q) : Q := roundDouble (a / b).

Arguments roundDouble : simpl never.
Arguments fadd : simpl never.
Arguments fsub : simpl never.
Arguments fmul : simpl never.
Arguments fdiv : simpl never.

Infix "+!" := fadd (at level 50, left associativity) : Q_scope.
Infix "-!" := fsub (at level 50, left associativity) : Q_scope.
Infix "*!" := fmul (at level 40, left associativity) : Q_scope.
Infix "/!" := fdiv (at level 40, left associativity) : Q_scope.

(** Half a unit in the last place of 1: the largest relative error of one
    rounding. *)
Definition halfUlp : Q := 1 # 9007199254740992.

(** ** Exceptions and state *)

(** What a handler leaves behind: it returns, or a [TypeError] escapes it;
    either way the mutations done so far stay in [G]. *)
Inductive Outcome (A : Type) : Type :=
| Return (a : A) (g : Game)
| Throw (g : Game).
Arguments Return {A} a g.
Arguments Throw {A} g.

Definition M (A : Type) : Type := Game -> Outcome A.

Definition ret {A} (a : A) : M A := fun g => Return a g.
Definition bind {A B} (m : M A) (k : A -> M B) : M B :=
  fun g => match m g with Return a g' => k a g' | Throw g' => Throw g' end.
Definition throw {A} : M A := fun g => Throw g.
Definition get : M Game := fun g => Return g g.
Definition modify (f : Game -> Game) : M unit := fun g => Return tt (f g).

(** [x.field] on a value that may be [undefined]. *)
Definition deref {A} (o : option A) : M A :=
  match o with Some a => ret a | None => throw end.

Declare Scope m_scope.
Delimit Scope m_scope with m.
Notation "x <- c1 ;; c2" := (bind c1 (fun x => c2))
  (at level 100, c1 at next level, right associativity) : m_scope.
Notation "c1 ;;; c2" := (bind c1 (fun _ => c2))
  (at level 100, right associativity) : m_scope.

(** [arr.forEach(f)]. *)
Fixpoint forEach {A} (f : A -> M unit) (l : list A) : M unit :=
  match l with
  | [] => ret tt
  | a :: l' => bind (f a) (fun _ => forEach f l')
  end.

(** The state an outcome ends in. *)
Definition final {A} (o : Outcome A) : Game :=
  match o with Return _ g => g | Throw g => g end.

Definition returns {A} (o : Outcome A) : bool :=
  match o with Return _ _ => true | Throw _ => false end.

(** ** Array helpers *)

(** [arr.includes(id)] on an array of strings. *)
Definition includes (arr : list string) (id : string) : bool :=
  existsb (String.eqb id) arr.

(** [const i = arr.indexOf(id); if (i >= 0) arr.splice(i, 1)]: the first
    occurrence of [id] goes, later ones stay. *)
Fixpoint removeFirst (id : string) (arr : list string) : list string :=
  match arr with
  | [] => []
  | a :: rest => if String.eqb a id then rest else a :: removeFirst id rest
  end.

(** [arr.find(p)] together with the position of the element found. *)
Fixpoint findIndex {A} (p : A -> bool) (arr : list A) : option (nat * A) :=
  match arr with
  | [] => None
  | a :: rest =>
      if p a then Some (0%nat, a)
      else match findIndex p rest with
           | Some (i, b) => Some (S i, b)
           | None => None
           end
  end.

Definition find {A} (p : A -> bool) (arr : list A) : option A :=
  snd <$> findIndex p arr.

(** [arr[i]] for a number [i] that need not be a valid index. *)
Definition at_Z {A} (arr : list A) (i : Z) : option A :=
  if (i <? 0)%Z then None else arr !! Z.to_nat i.

(** ** The simulation *)

Section Simulation.

(** Reference data loaded once ([dialoguesData.dialogues],
    [inventoryData.items]). *)
Variable dialoguesData : list Dialogue.
Variable inventoryData : list Item.

(** The environment: the values [Math.random()] returns, in call order;
    [Math.cos], [Math.sin], [Math.PI]; and the conversion of a number to a
    string in a template literal. *)
Variable random : nat -> Q.
Variable Math_cos Math_sin : Q -> Q.
Variable Math_PI : Q.
Variable Number_toString : Q -> string.

Definition Math_random : M Q :=
  fun g => Return (random (rngIx g)) (set_rngIx (S (rngIx g)) g).

(** *** Messages and names *)

Definition addMessage (text : string) (duration : Q) (g : Game) : Game :=
  set_messages (messages g ++ [ {| msg_text := text; msg_time := duration |} ]) g.

(** The default of [addMessage]'s second parameter. *)
Definition defaultDuration : Q := 3.

Definition getItemName (itemId : string) : string :=
  match find (fun it => String.eqb (item_id it) itemId) inventoryData with
  | Some item => item_name item
  | None => itemId
  end.

(** *** Inventory grants, healing, damage *)

Definition grantItem (id : string) (g : Game) : Game :=
  if negb (includes (inventory (player g)) id) then
    let g1 := set_player (set_inventory (inventory (player g) ++ [id]) (player g)) g in
    let g2 := addMessage ("Received " +:+ getItemName id) defaultDuration g1 in
    set_player (set_gold (gold (player g2) + 5) (player g2)) g2
  else g.

Definition grantItems (itemIds : list string) (g : Game) : Game :=
  foldl (fun acc id => grantItem id acc) g itemIds.

Definition healPlayer (amount : Q) (g : Game) : Game :=
  let g1 := set_player (set_hp (Qmin (maxHp (player g)) (hp (player g) + amount)) (player g)) g in
  addMessage ("Healed " +:+ Number_toString amount +:+ " HP") defaultDuration g1.

Definition damagePlayer (amount : Q) (g : Game) : Game :=
  let g1 := set_player (set_hp (hp (player g) - amount) (player g)) g in
  if hp (player g1) <=? 0 then
    let p1 := set_hp (maxHp (player g1)) (player g1) in
    let p2 := set_xy (w (screen g1) / 2) (h (screen g1) / 2) p1 in
    let p3 := set_gold (Qmax 0 (gold p2 - 10)) p2 in
    addMessage "You fainted! Lost some gold." defaultDuration (set_player p3 g1)
  else g1.

(** *** Skill check *)

(** The additions and the subtraction are those of doubles. *)
Definition performSkillCheck (skill : string) (difficulty : Q) : M bool :=
  (g <- get ;;
   let playerSkill := default 0 (skills (player g) !! skill) in
   let bonus :=
     foldl (fun b eff => if String.eqb (eff_type eff) skill then b +! eff_value eff else b)
           0 (statusEffects g) in
   roll <- Math_random ;;
   ret (roll <? (playerSkill +! bonus) -! difficulty +! (1 # 2)))%m.

(** *** Item spawning *)

Definition grantedByDialogue (id : string) : bool :=
  existsb (fun dlg =>
    existsb (fun n => includes (default [] (grants_item_ids n)) id) (nodes dlg))
    dialoguesData.

Definition spawnOne (itemId : string) : M unit :=
  (g <- get ;;
   let zoneCount := if (length (zones g) =? 0)%nat then 1%nat else length (zones g) in
   r <- Math_random ;;
   zone <- deref (at_Z (zones g) (Qfloor (r * inject_Z (Z.of_nat zoneCount)))) ;;
   rx <- Math_random ;;
   let ox := zone_x zone + rx * zone_width zone in
   ry <- Math_random ;;
   let oy := 80 + ry * (h (screen g) - safeBottom (screen g) - 120) in
   modify (fun g' =>
     set_objects (objects g' ++ [ {| itemId := itemId; obj_x := ox; obj_y := oy |} ]) g'))%m.

Definition needsSpawn (g : Game) (id : string) : bool :=
  negb (grantedByDialogue id)
  && (negb (includes (inventory (player g)) id)
      && negb (existsb (fun o => String.eqb (itemId o) id) (objects g))).

Definition spawnItemsForStep (qs : QuestState) (stepIndex : nat) : M unit :=
  match steps qs !! stepIndex with
  | None => ret tt
  | Some step =>
      (g <- get ;;
       let toSpawn := List.filter (needsSpawn g) (default [] (requires_item_ids step)) in
       forEach spawnOne toSpawn)%m
  end.

(** *** Quests *)

Definition startQuest (id : string) : M unit :=
  (g <- get ;;
   match findIndex (fun q => String.eqb (qs_id q) id) (questsState g) with
   | None => ret tt
   | Some (i, qs) =>
       if negb (bool_decide (status qs = NotStarted)) then ret tt
       else
         let qs' := set_status_step InProgress 0 qs in
         modify (set_questsState (<[i := qs']> (questsState g))) ;;;
         modify (addMessage ("Started quest: " +:+ title qs') defaultDuration) ;;;
         spawnItemsForStep qs' 0
   end)%m.

(** The loop of [getDeliverInfoForNPC] over [G.questsState] from position
    [i] on; the quest found is returned as its position. *)
Fixpoint deliverInfoFrom (inv : list string) (npcId : string)
    (qss : list QuestState) (i : nat) : M (option (nat * nat)) :=
  match qss with
  | [] => ret None
  | qs :: rest =>
      if bool_decide (status qs = InProgress) then
        let stepIdx := currentStep qs in
        if bool_decide (stepAssignments qs !! stepIdx = Some npcId) then
          (step <- deref (steps qs !! stepIdx) ;;
           let hasAll := forallb (includes inv) (default [] (requires_item_ids step)) in
           if hasAll then ret (Some (i, stepIdx))
           else deliverInfoFrom inv npcId rest (S i))%m
        else deliverInfoFrom inv npcId rest (S i)
      else deliverInfoFrom inv npcId rest (S i)
  end.

Definition getDeliverInfoForNPC (npcId : string) : M (option (nat * nat)) :=
  (g <- get ;; deliverInfoFrom (inventory (player g)) npcId (questsState g) 0)%m.

Definition removeRequired (ids : list string) (g : Game) : Game :=
  set_player
    (set_inventory (foldl (fun inv id => removeFirst id inv) (inventory (player g)) ids)
                   (player g)) g.

Definition finishQuestStepsOnTalk (npcId : string) : M unit :=
  (info <- getDeliverInfoForNPC npcId ;;
   match info with
   | None => modify (addMessage "You do not have the required items" defaultDuration)
   | Some (qi, stepIdx) =>
       g <- get ;;
       qs <- deref (questsState g !! qi) ;;
       let npc := find (fun n => String.eqb (npc_id n) npcId) (npcs g) in
       let step := steps qs !! stepIdx in
       npc <- deref npc ;;
       let skill := skill npc in
       let difficulty := difficulty npc in
       success <- performSkillCheck skill difficulty ;;
       (if success : bool then
          modify (addMessage ("Skill check passed (" +:+ skill +:+ ")") defaultDuration)
        else
          modify (addMessage ("Skill check failed (" +:+ skill +:+ ")") defaultDuration) ;;;
          modify (damagePlayer 10)) ;;;
       step <- deref step ;;
       modify (removeRequired (default [] (requires_item_ids step))) ;;;
       let qs1 := set_status_step (status qs) (S (currentStep qs)) qs in
       modify (fun g' => set_questsState (<[qi := qs1]> (questsState g')) g') ;;;
       if (length (steps qs1) <=? currentStep qs1)%nat then
         let qs2 := set_status_step Completed (currentStep qs1) qs1 in
         modify (fun g' => set_questsState (<[qi := qs2]> (questsState g')) g') ;;;
         modify (addMessage ("Quest completed: " +:+ title qs2) defaultDuration) ;;;
         modify (fun g' => set_player (set_gold (gold (player g') + 50) (player g')) g')
       else
         modify (addMessage ("Step completed: " +:+ goal step) defaultDuration) ;;;
         modify (fun g' => set_player (set_gold (gold (player g') + 20) (player g')) g') ;;;
         spawnItemsForStep qs1 (currentStep qs1)
   end)%m.

(** Quest-state initialisation: one [G.questsState] entry per quest, each
    step assigned to [G.npcs[(qIndex + i) % npcCount]]. With [npcCount = 0]
    the index is [NaN] and the element read is [undefined]. *)
Definition npcForStep (g : Game) (k : nat) : option Npc :=
  let npcCount := length (npcs g) in
  if (npcCount =? 0)%nat then None else npcs g !! (k mod npcCount)%nat.

Fixpoint assignSteps (qIndex i : nat) (sts : list Step) (acc : list string) : M (list string) :=
  match sts with
  | [] => ret acc
  | _ :: rest =>
      (g <- get ;;
       npc <- deref (npcForStep g (qIndex + i)) ;;
       assignSteps qIndex (S i) rest (acc ++ [npc_id npc]))%m
  end.

Fixpoint initQuestsFrom (qIndex : nat) (quests : list Quest) : M unit :=
  match quests with
  | [] => ret tt
  | q :: rest =>
      (asg <- assignSteps qIndex 0 (q_steps q) [] ;;
       let qs := {| qs_id := q_id q; title := q_title q; is_main := q_is_main q;
                    steps := q_steps q; status := NotStarted; currentStep := 0;
                    stepAssignments := asg |} in
       modify (fun g => set_questsState (questsState g ++ [qs]) g) ;;;
       initQuestsFrom (S qIndex) rest)%m
  end.

Definition initQuestsState (quests : list Quest) : M unit :=
  (modify (set_questsState []) ;;; initQuestsFrom 0 quests)%m.

(** *** Dialogue *)

Definition startTalk (npc : Npc) : M unit :=
  match dialoguesData !! dialogueIndex npc with
  | None => ret tt
  | Some dialogue =>
      (modify (set_talk (Some {| talk_npcId := npc_id npc;
                                 talk_dialogueIndex := dialogueIndex npc;
                                 currentNode := nodes dialogue !! 0%nat |})) ;;;
       node <- deref (nodes dialogue !! 0%nat) ;;
       match grants_item_ids node with
       | Some ids => modify (grantItems ids)
       | None => ret tt
       end)%m
  end.

(** A string in a condition: [undefined] and the empty string are falsy. *)
Definition truthy (s : option string) : option string :=
  match s with
  | Some EmptyString => None
  | other => other
  end.

(** The click handler [drawTalkOverlay] registers for [option] of the
    current node, [dialogue] being the dialogue of the session. *)
Definition selectOption (dialogue : Dialogue) (option : DOption) : M unit :=
  ((match opt_grants_item_ids option with
    | Some ids => modify (grantItems ids)
    | None => ret tt
    end) ;;;
   match truthy (to_id option) with
   | Some target =>
       match find (fun n => String.eqb (node_id n) target) (nodes dialogue) with
       | Some next =>
           g <- get ;;
           t <- deref (talk g) ;;
           modify (set_talk (Some {| talk_npcId := talk_npcId t;
                                     talk_dialogueIndex := talk_dialogueIndex t;
                                     currentNode := Some next |})) ;;;
           match grants_item_ids next with
           | Some ids => modify (grantItems ids)
           | None => ret tt
           end
       | None => ret tt
       end
   | None => modify (set_talk None)
   end)%m.

(** *** Shop *)

Definition getItemPrice (item : Item) : Q :=
  let cat := category item in
  if String.eqb cat "weapon" || String.eqb cat "armor" then 30
  else if String.eqb cat "quest" then 10
  else 20.

Definition purchaseItem (item : Item) : M unit :=
  (g <- get ;;
   let price := getItemPrice item in
   if price <=? gold (player g) then
     modify (fun g' => set_player (set_gold (gold (player g') - price) (player g')) g') ;;;
     modify (fun g' =>
       set_player (set_inventory (inventory (player g') ++ [item_id item]) (player g')) g') ;;;
     modify (addMessage ("Bought " +:+ item_name item) defaultDuration) ;;;
     stock <- deref (shopStock g) ;;
     modify (set_shopStock
       (Some (List.filter (fun i => negb (String.eqb (item_id i) (item_id item))) stock)))
   else
     modify (addMessage "Not enough gold" defaultDuration))%m.

(** *** Collision *)

(** The overlap test of the player's box (half-extent 16) against the
    rectangle at [(rx, ry)] of size [rw] by [rh], on doubles. *)
Definition overlaps (p : Player) (rx ry rw rh : Q) : bool :=
  (rx <? x p +! 16) && (x p -! 16 <? rx +! rw)
  && (ry <? y p +! 16) && (y p -! 16 <? ry +! rh).

(** The push-out applied to an overlapped rectangle, on doubles. *)
Definition pushOut (p : Player) (rx ry rw rh : Q) : Player :=
  let dxLeft := rx -! (x p +! 16) in
  let dxRight := (rx +! rw) -! (x p -! 16) in
  let dyTop := ry -! (y p +! 16) in
  let dyBottom := (ry +! rh) -! (y p -! 16) in
  let absX := Qmin (Qabs dxLeft) (Qabs dxRight) in
  let absY := Qmin (Qabs dyTop) (Qabs dyBottom) in
  if absX <? absY then
    if Qabs dxLeft <? Qabs dxRight then set_xy (rx -! 16) (y p) p
    else set_xy (rx +! rw +! 16) (y p) p
  else
    if Qabs dyTop <? Qabs dyBottom then set_xy (x p) (ry -! 16) p
    else set_xy (x p) (ry +! rh +! 16) p.

(** The body of [G.obstacles.forEach] in [updateWorld]. *)
Definition collideObstacle (p : Player) (o : Obstacle) : Player :=
  if overlaps p (ob_x o) (ob_y o) (ob_width o) (ob_height o)
  then pushOut p (ob_x o) (ob_y o) (ob_width o) (ob_height o)
  else p.

Definition collideObstacles (obs : list Obstacle) (p : Player) : Player :=
  foldl collideObstacle p obs.

(** The body of [G.buildings.forEach]: as for an obstacle, except in the
    door band. [0.2] is the double nearest to a fifth. *)
Definition collideBuilding (p : Player) (b : Building) : Player :=
  if overlaps p (b_x b) (b_y b) (b_width b) (b_height b) then
    let doorW := b_width b *! roundDouble (1 # 5) in
    let doorX0 := doorX b -! doorW /! 2 in
    let doorX1 := doorX b +! doorW /! 2 in
    let withinDoor :=
      (doorX0 <? x p) && (x p <? doorX1) && (b_y b +! b_height b <? y p +! 16) in
    if negb withinDoor then pushOut p (b_x b) (b_y b) (b_width b) (b_height b) else p
  else p.

(** *** The frame update *)

Definition clampWorld (g : Game) : Game :=
  let p := player g in
  let nx := Qmax 16 (Qmin (w (screen g) - 16) (x p)) in
  let ny := Qmax 80 (Qmin (h (screen g) - safeBottom (screen g) - 16) (y p)) in
  set_player (set_xy nx ny p) g.

(** Wandering of the world NPC at position [i] of [G.npcs]. *)
Definition wanderNpc (dt : Q) (i : nat) : M unit :=
  (g <- get ;;
   npc <- deref (npcs g !! i) ;;
   r <- Math_random ;;
   npc1 <- (if r <? (1 # 100) then
              a <- Math_random ;;
              let angle := a * Math_PI * 2 in
              ret (set_npc_motion (npc_x npc) (npc_y npc)
                     (Math_cos angle * 40) (Math_sin angle * 40) npc)
            else ret npc) ;;
   let npc2 := set_npc_motion (npc_x npc1 + dx npc1 * dt) (npc_y npc1 + dy npc1 * dt)
                 (dx npc1) (dy npc1) npc1 in
   modify (fun g' => set_npcs (<[i := npc2]> (npcs g')) g') ;;;
   z <- deref (zones g !! zoneIndex npc2) ;;
   let npc3 := if npc_x npc2 <? zone_x z + 20
               then set_npc_motion (zone_x z + 20) (npc_y npc2) (Qabs (dx npc2)) (dy npc2) npc2
               else npc2 in
   let npc4 := if zone_x z + zone_width z - 20 <? npc_x npc3
               then set_npc_motion (zone_x z + zone_width z - 20) (npc_y npc3)
                      (- Qabs (dx npc3)) (dy npc3) npc3
               else npc3 in
   let npc5 := if npc_y npc4 <? 80
               then set_npc_motion (npc_x npc4) 80 (dx npc4) (Qabs (dy npc4)) npc4
               else npc4 in
   let floorY := h (screen g) - safeBottom (screen g) - 20 in
   let npc6 := if floorY <? npc_y npc5
               then set_npc_motion (npc_x npc5) floorY (dx npc5) (- Qabs (dy npc5)) npc5
               else npc5 in
   modify (fun g' => set_npcs (<[i := npc6]> (npcs g')) g'))%m.

(** The pickup loop, from the last object down to the first. *)
Fixpoint pickups (objs : list WorldObject) (g : Game) : list WorldObject * Game :=
  match objs with
  | [] => ([], g)
  | obj :: rest =>
      let '(rest', g1) := pickups rest g in
      let ddx := obj_x obj - x (player g1) in
      let ddy := obj_y obj - y (player g1) in
      if ddx * ddx + ddy * ddy <? 20 * 20 then
        if negb (includes (inventory (player g1)) (itemId obj)) then
          let g2 := set_player (set_inventory (inventory (player g1) ++ [itemId obj])
                                              (player g1)) g1 in
          (rest', addMessage ("Collected " +:+ getItemName (itemId obj)) defaultDuration g2)
        else (rest', g1)
      else (obj :: rest', g1)
  end.

Definition updateWorld (dt : Q) : M unit :=
  (modify clampWorld ;;;
   g <- get ;;
   forEach (wanderNpc dt) (seq 0 (length (npcs g))) ;;;
   modify (fun g' => set_player (collideObstacles (obstacles g') (player g')) g') ;;;
   modify (fun g' => set_player (foldl collideBuilding (player g') (buildings g')) g') ;;;
   modify (fun g' => let '(objs, g1) := pickups (objects g') g' in set_objects objs g1))%m.

Definition updateInterior (dt : Q) : M unit :=
  (g <- get ;;
   match currentInterior g with
   | None => ret tt
   | Some ci =>
       match interiors g !! ci with
       | None => ret tt
       | Some interior =>
           let intX := (w (screen g) - int_width interior) / 2 in
           let intY := (h (screen g) - safeBottom (screen g) - int_height interior) / 2 in
           let pad := 16 in
           let minX := intX + pad in
           let maxX := intX + int_width interior - pad in
           let minY := intY + pad in
           let maxY := intY + int_height interior - pad in
           let p := player g in
           modify (set_player (set_xy (Qmax minX (Qmin maxX (x p)))
                                      (Qmax minY (Qmin maxY (y p))) p)) ;;;
           let npc := int_npc interior in
           r <- Math_random ;;
           npc1 <- (if r <? (2 # 100) then
                      a <- Math_random ;;
                      let angle := a * Math_PI * 2 in
                      ret (set_npc_motion (npc_x npc) (npc_y npc)
                             (Math_cos angle * 20) (Math_sin angle * 20) npc)
                    else ret npc) ;;
           let npc2 := set_npc_motion (npc_x npc1 + dx npc1 * dt) (npc_y npc1 + dy npc1 * dt)
                         (dx npc1) (dy npc1) npc1 in
           let halfW := int_width interior / 2 - 20 in
           let halfH := int_height interior / 2 - 40 in
           let npc3 := if npc_x npc2 <? - halfW
                       then set_npc_motion (- halfW) (npc_y npc2) (Qabs (dx npc2)) (dy npc2) npc2
                       else npc2 in
           let npc4 := if halfW <? npc_x npc3
                       then set_npc_motion halfW (npc_y npc3) (- Qabs (dx npc3)) (dy npc3) npc3
                       else npc3 in
           let npc5 := if npc_y npc4 <? - halfH
                       then set_npc_motion (npc_x npc4) (- halfH) (dx npc4) (Qabs (dy npc4)) npc4
                       else npc4 in
           let npc6 := if halfH <? npc_y npc5
                       then set_npc_motion (npc_x npc5) halfH (dx npc5) (- Qabs (dy npc5)) npc5
                       else npc5 in
           modify (fun g' => set_interiors (<[ci := set_int_npc npc6 interior]> (interiors g')) g')
       end
   end)%m.

(** Messages: every timer goes down by [dt]; those still positive stay. *)
Definition tickMessages (dt : Q) (ms : list Message) : list Message :=
  List.filter (fun m => 0 <? msg_time m)
    (map (fun m => {| msg_text := msg_text m; msg_time := msg_time m - dt |}) ms).

Definition speedMult (effs : list StatusEffect) : Q :=
  foldl (fun acc eff => if String.eqb (eff_type eff) "speed" then acc + eff_value eff else acc)
        1 effs.

Definition update (dt : Q) : M unit :=
  (modify (fun g =>
     let p := player g in
     set_player (set_xy (x p + vx p * dt) (y p + vy p * dt) p) g) ;;;
   g <- get ;;
   (if inInterior g then updateInterior dt else updateWorld dt) ;;;
   modify (fun g' => set_messages (tickMessages dt (messages g')) g') ;;;
   modify (fun g' =>
     set_player (set_abilityCooldown
                   ((fun c => Qmax 0 (c - dt)) <$> abilityCooldown (player g'))
                   (player g')) g') ;;;
   modify (fun g' =>
     set_player (set_speed (baseSpeed (player g') * speedMult (statusEffects g'))
                           (player g')) g'))%m.

End Simulation.

(** *** The frame loop *)

(** [n] animation frames of [dt] seconds each ([loop] in [initGame]); a
    frame whose [update] throws is the last one, since the loop is then
    not rescheduled. *)
Fixpoint frames (inventoryData : list Item) (random : nat -> Q)
    (Math_cos Math_sin : Q -> Q) (Math_PI : Q) (n : nat) (dt : Q) : M unit :=
  match n with
  | O => ret tt
  | S n' => bind (update inventoryData random Math_cos Math_sin Math_PI dt)
                 (fun _ => frames inventoryData random Math_cos Math_sin Math_PI n' dt)
  end.

(** ** The state at start-up *)

(** [G] as the source declares it (lines 73-120); [G.shopStock] is not
    declared there and is [undefined] until the shop is first opened. *)
Definition initialPlayer : Player :=
  {| x := 0; y := 0; baseSpeed := 120; speed := 120; vx := 0; vy := 0;
     hp := 100; maxHp := 100; gold := 50;
     skills := <["charisma" := 1 # 2]> (<["strength" := 1 # 2]> (<["agility" := 1 # 2]> ∅));
     equipped_weapon := None; equipped_armour := None;
     inventory := []; abilities := []; abilityCooldown := ∅ |}.

Definition initialGame : Game :=
  {| screen := {| w := 0; h := 0; safeBottom := 0 |};
     player := initialPlayer;
     zones := []; npcs := []; objects := []; statusEffects := []; messages := [];
     questsState := []; talk := None; shopStock := None;
     buildings := []; interiors := []; obstacles := [];
     inInterior := false; currentInterior := None; rngIx := 0 |}.

(** ** Notions used by the statements, and the scenarios *)

(** The statement's own reading of the check: a function of
    [(base, bonus, difficulty, roll)], in exact arithmetic. *)
Definition skillCheck (base bonus difficulty roll : Q) : bool :=
  roll <? base + bonus - difficulty + (1 # 2).

(** The player's level in the named skill, 0 when there is none. *)
Definition skillBase (g : Game) (skillName : string) : Q :=
  default 0 (skills (player g) !! skillName).

(** The sum of [value] over the active effects whose [type] is the skill. *)
Fixpoint skillBonus (skillName : string) (effs : list StatusEffect) : Q :=
  match effs with
  | [] => 0
  | eff :: rest =>
      if String.eqb (eff_type eff) skillName
      then eff_value eff + skillBonus skillName rest
      else skillBonus skillName rest
  end.

(** The same sum as the loop builds it on doubles: from [acc], in array
    order, one rounded addition for each effect of that type. *)
Fixpoint bonusLoop (skillName : string) (acc : Q) (effs : list StatusEffect) : Q :=
  match effs with
  | [] => acc
  | eff :: rest =>
      bonusLoop skillName
        (if String.eqb (eff_type eff) skillName then acc +! eff_value eff else acc) rest
  end.

(** The value that the roll is compared with, as doubles give it: two
    additions and a subtraction, each rounded. *)
Definition threshold (base bonus difficulty : Q) : Q :=
  (base +! bonus) -! difficulty +! (1 # 2).

(** The scenario of the specification: charisma 0.5, no effect, an NPC
    of difficulty 0.4, and 0.05 as the value drawn, each literal being the
    double nearest to it. *)
Definition scenarioRoll : nat -> Q := fun _ => roundDouble (1 # 20).
Definition scenarioDifficulty : Q := roundDouble (2 # 5).

(** A difficulty one unit in the last place below 0.5, and the draw of
    [initNPCs] that gives it. *)
Definition edgeDifficulty : Q := (1 # 2) - (1 # 18014398509481984).
Definition edgeDraw : Q := (1 # 4) - (1 # 4503599627370496).

(** The machine's doubles, against which [roundDouble] is checked, and the
    comparison of [performSkillCheck] on them. *)
Module Doubles.
Import PrimFloat.
Local Open Scope float_scope.

(** The rational that a finite double is. *)
Definition toQ (f : float) : option Q :=
  match FloatOps.Prim2SF f with
  | SpecFloat.S754_zero _ => Some 0%Q
  | SpecFloat.S754_finite s m e =>
      Some (Qred ((if s then - (1) else 1) * inject_Z (Zpos m) * 2 ^ e))%Q
  | _ => None
  end.

Definition skillCheckDouble (playerSkill bonus difficulty roll : float) : bool :=
  ltb roll ((playerSkill + bonus) - difficulty + 0.5).

Definition charisma : float := 0.5.
Definition noBonus : float := 0.
Definition half : float := 0.5.
Definition third : float := 1 / 3.
#[warnings="-inexact-float"] Definition smithDifficulty : float := 0.4.
#[warnings="-inexact-float"] Definition rollDrawn : float := 0.05.
#[warnings="-inexact-float"] Definition tenth : float := 0.1.
#[warnings="-inexact-float"] Definition fifth : float := 0.2.

(** A rectangle whose far edge is at [60.7 + 60], the position to which
    the player is pushed from it, and the overlap test on that side
    afterwards. *)
#[warnings="-inexact-float"] Definition rockX : float := 60.7.
Definition pushedX : float := rockX + 60 + 16.
Definition stillOverlaps : bool := ltb (pushedX - 16) (rockX + 60).

(** A building whose far edge is at [300.3 + 200], and the position to
    which the player is pushed from it. *)
#[warnings="-inexact-float"] Definition houseX : float := 300.3.
Definition pushedFromHouse : float := houseX + 200 + 16.

(** The expressions of [initZones], [initNPCs] and [initObstacles], and
    the two largest values that [Math.random()] can return. *)
Definition zoneWidth (w count : float) : float := w / count.
Definition zoneX (w count i : float) : float := (w / count) * i.
#[warnings="-inexact-float"] Definition npcY (h r : float) : float := h * 0.4 + r * h * 0.1.
#[warnings="-inexact-float"] Definition npcDifficulty (r : float) : float := 0.4 + r * 0.4.
Definition obstacleSize (r : float) : float := 40 + r * 80.
Definition obstacleX (zx zw w r : float) : float := zx + 30 + r * (zw - w - 60).
Definition lastDraw : float := 1 - 0x1p-53.
Definition nearLastDraw : float := 1 - 0x1p-52.

(** A window 800 wide cut in six: the last zone ends beyond 800, and
    starts before it. *)
Definition sixthEndsBeyond : bool := 800 <? zoneX 800 6 5 + zoneWidth 800 6.
Definition sixthStartsInside : bool :=
  (zoneX 800 6 0 =? 0) && (zoneX 800 6 4 <=? zoneX 800 6 5) && (zoneX 800 6 5 <=? 800).

(** An NPC at the largest draw, in a window 768 high. *)
#[warnings="-inexact-float"] Definition difficultyReachesTop : bool :=
  (npcDifficulty lastDraw =? 0.8) && (npcDifficulty lastDraw <=? 0.4 + 0.4)
  && (0.4 <=? npcDifficulty 0).
#[warnings="-inexact-float"] Definition heightPassesHalf : bool :=
  (768 * 0.5 <? npcY 768 lastDraw) && (npcY 768 lastDraw <=? 768 * 0.4 + 768 * 0.1)
  && (768 * 0.4 <=? npcY 768 0).

(** An obstacle of zone 5 of seven in a window 1280 wide, 80 wide itself,
    at the draw [1 - 2^-52]: it passes the margin of 30 on the right by a
    rounding and stays inside the zone. *)
Definition obstaclePassesMargin : bool :=
  let zx := zoneX 1280 7 5 in
  let zw := zoneWidth 1280 7 in
  let ow := obstacleSize 0.5 in
  let ox := obstacleX zx zw ow nearLastDraw in
  (zx + zw - 30 <? ox + ow) && (ox + ow <=? zx + zw) && (zx + 30 <=? ox)
  && (obstacleSize lastDraw <? 120) && (40 <=? obstacleSize 0).

(** The difficulty that line 214 computes from the draw [0.25 - 2^-52]. *)
Definition edgeDraw : float := 0.25 - 0x1p-52.
Definition edgeDifficulty : float := smithDifficulty + edgeDraw * smithDifficulty.

End Doubles.

(** A session in which the player already holds the key that the first
    node of the only dialogue grants. *)
Definition keyNode : Node :=
  {| node_id := "n1"; speaker := Some "npc_smith"; text := "Take this key.";
     grants_item_ids := Some ["key"]; options := None |}.

Definition keyDialogue : Dialogue := {| dlg_id := "d1"; nodes := [keyNode] |}.

Definition smith : Npc :=
  {| npc_id := "npc_smith"; dialogueIndex := 0; npc_x := 0; npc_y := 0; zoneIndex := 0;
     skill := "charisma"; difficulty := 2 # 5; dx := 0; dy := 0 |}.

(** The state after a first conversation with the smith. *)
Definition afterFirstTalk : Game := final (startTalk [keyDialogue] [] smith initialGame).

(** [if (ids) grantItems(ids)]. *)
Definition grantIfAny (items : list Item) (ids : option (list string)) (g : Game) : Game :=
  match ids with
  | Some l => grantItems items l g
  | None => g
  end.

(** The target of an option resolves when a node of the dialogue bears
    that id. *)
Definition resolves (dialogue : Dialogue) (target : string) : bool :=
  existsb (fun n => String.eqb (node_id n) target) (nodes dialogue).

(** A one-node dialogue whose only option points at a node that does not
    exist, and a session standing on that node. *)
Definition danglingOption : DOption :=
  {| choice_text := "Tell me more"; to_id := Some "n9"; opt_grants_item_ids := None |}.

Definition lonelyNode : Node :=
  {| node_id := "n1"; speaker := Some "npc_smith"; text := "Hello.";
     grants_item_ids := None; options := Some [danglingOption] |}.

Definition lonelyDialogue : Dialogue := {| dlg_id := "d1"; nodes := [lonelyNode] |}.

Definition lonelySession : Game := final (startTalk [lonelyDialogue] [] smith initialGame).

Definition closingOption : DOption :=
  {| choice_text := "Goodbye"; to_id := None; opt_grants_item_ids := None |}.

(** Spawning touches [G.objects] and the random cursor, nothing else. *)
Definition onlyObjectsChange (g g' : Game) : Prop :=
  player g' = player g /\ questsState g' = questsState g /\ messages g' = messages g
  /\ statusEffects g' = statusEffects g /\ talk g' = talk g /\ zones g' = zones g
  /\ npcs g' = npcs g /\ screen g' = screen g.

Definition demoZone : Zone :=
  {| zone_id := "zone1"; zone_name := "Forest"; zone_x := 0; zone_width := 800 |}.

(** One zone, one NPC, an 800 by 600 window; [safeBottom] is the 158 that
    [resizeCanvas] computes. *)
Definition demoGame : Game :=
  {| screen := {| w := 800; h := 600; safeBottom := 158 |};
     player := initialPlayer;
     zones := [demoZone]; npcs := [smith]; objects := []; statusEffects := [];
     messages := []; questsState := []; talk := None; shopStock := None;
     buildings := []; interiors := []; obstacles := [];
     inInterior := false; currentInterior := None; rngIx := 0 |}.

(** Every call of [Math.random()] returns 0.5. *)
Definition halfRoll : nat -> Q := fun _ => 1 # 2.

Definition gemQuest : Quest :=
  {| q_id := "q1"; q_title := "The Gem"; q_is_main := true;
     q_steps := [ {| goal := "Bring the gem to the smith"; location_hint := "zone1";
                     requires_item_ids := Some ["gem"] |};
                  {| goal := "Bring the herb to the smith"; location_hint := "zone1";
                     requires_item_ids := Some ["herb"] |} ] |}.

(** The state after [initQuestsState] on that world. *)
Definition questsReady : Game := final (initQuestsState [gemQuest] demoGame).

(** A dialogue in which the gem is handed over by an option, not by a
    node. *)
Definition gemOption : DOption :=
  {| choice_text := "Take the gem"; to_id := None; opt_grants_item_ids := Some ["gem"] |}.

Definition gemNode : Node :=
  {| node_id := "n1"; speaker := Some "npc_smith"; text := "I found this gem.";
     grants_item_ids := None; options := Some [gemOption] |}.

Definition gemDialogue : Dialogue := {| dlg_id := "d1"; nodes := [gemNode] |}.

(** The statement's "obtainable via any dialogue's item grants": granted by
    a node on arrival or by an option on selection. *)
Definition obtainableViaDialogue (dialogues : list Dialogue) (id : string) : bool :=
  existsb (fun dlg =>
    existsb (fun n =>
      includes (default [] (grants_item_ids n)) id
      || existsb (fun o => includes (default [] (opt_grants_item_ids o)) id)
                 (default [] (options n)))
      (nodes dlg))
    dialogues.

(** The quest of the small world, started once. *)
Definition questStarted : Game := final (startQuest [keyDialogue] halfRoll "q1" questsReady).

(** A computation that never writes [G.statusEffects]. *)
Definition keepsEffects {A} (m : M A) : Prop :=
  forall g, statusEffects (final (m g)) = statusEffects g.

(** The effect that [activateAbility] pushes for an ability named after
    speed: ten seconds of +0.5 speed. *)
Definition haste : StatusEffect :=
  {| eff_name := "Speed Surge"; eff_type := "speed"; eff_value := 1 # 2; eff_time := 10 |}.

Definition hasted : Game := set_statusEffects [haste] demoGame.

(** Two obstacles ten pixels apart and a player standing in the gap. *)
Definition leftRock : Obstacle :=
  {| ob_zoneIndex := 0; ob_x := 0; ob_y := 100; ob_width := 100; ob_height := 100 |}.
Definition rightRock : Obstacle :=
  {| ob_zoneIndex := 0; ob_x := 110; ob_y := 100; ob_width := 100; ob_height := 100 |}.
Definition inTheGap : Player := set_xy 105 150 initialPlayer.

Definition overlapsObstacle (p : Player) (o : Obstacle) : bool :=
  overlaps p (ob_x o) (ob_y o) (ob_width o) (ob_height o).

(** Whether the player's box reaches more than [eps] into the rectangle
    from each of its four sides, in exact arithmetic. *)
Definition overlapsBy (eps : Q) (p : Player) (rx ry rw rh : Q) : bool :=
  (rx + eps <? x p + 16) && (x p - 16 + eps <? rx + rw)
  && (ry + eps <? y p + 16) && (y p - 16 + eps <? ry + rh).

(** The floating-point epsilon of a rectangle: three roundings' worth of
    relative error on the size of its coordinates and of the half-extent. *)
Definition epsilonOf (rx ry rw rh : Q) : Q :=
  3 * halfUlp * (Qabs rx + Qabs rw + Qabs ry + Qabs rh + 16).

Definition obstacleEpsilon (o : Obstacle) : Q :=
  epsilonOf (ob_x o) (ob_y o) (ob_width o) (ob_height o).

Definition overlapsObstacleBy (eps : Q) (p : Player) (o : Obstacle) : bool :=
  overlapsBy eps p (ob_x o) (ob_y o) (ob_width o) (ob_height o).

(** The bounds on the player's gold and health. *)
Definition vitals (g : Game) : Prop :=
  0 <= gold (player g) /\ 0 < hp (player g) /\ hp (player g) <= maxHp (player g).

(** A computation that keeps a property of the state, whether it returns
    or throws. *)
Definition preserves {A} (I : Game -> Prop) (m : M A) : Prop :=
  forall g, I g -> I (final (m g)).

(** The operations that write [hp] or [gold]: [healPlayer] (called with 25
    by an ability and 30 by a consumable), [damagePlayer] (called with 10
    on a failed check), [purchaseItem], [grantItems] and
    [finishQuestStepsOnTalk]. *)
Inductive Operation :=
| Heal (amount : Q)
| Damage (amount : Q)
| Purchase (item : Item)
| Grant (ids : list string)
| Deliver (npcId : string).

Definition perform (dialogues : list Dialogue) (items : list Item) (random : nat -> Q)
    (toS : Q -> string) (op : Operation) : M unit :=
  match op with
  | Heal amount => modify (healPlayer toS amount)
  | Damage amount => modify (damagePlayer amount)
  | Purchase item => purchaseItem item
  | Grant ids => modify (grantItems items ids)
  | Deliver npcId => finishQuestStepsOnTalk dialogues random npcId
  end.

(** Heal and damage amounts are not negative. *)
Definition nonNegative (op : Operation) : Prop :=
  match op with
  | Heal amount | Damage amount => 0 <= amount
  | _ => True
  end.

(** The quest of the small world in progress, the player holding the gem
    and down to 10 hp. *)
Definition lastBreath : Game :=
  set_player (set_inventory ["gem"] (set_hp 10 (player questStarted))) questStarted.

(** Draws under which the check against the smith fails (0.9) and passes
    (0.1). *)
Definition badRoll : nat -> Q := fun _ => 9 # 10.
Definition goodRoll : nat -> Q := fun _ => 1 # 10.

(** The number of copies of an item id in an inventory. *)
Definition occurrences (id : string) (inv : list string) : nat :=
  length (List.filter (String.eqb id) inv).

Definition addGold (n : Q) (g : Game) : Game :=
  set_player (set_gold (gold (player g) + n) (player g)) g.

(** The quest of the small world in progress and the gem in hand. *)
Definition gemInHand : Game :=
  set_player (set_inventory ["gem"] (player questStarted)) questStarted.

(** The gem on sale, and the state after buying a second one. *)
Definition gemItem : Item := {| item_id := "gem"; item_name := "Gem"; category := "quest" |}.

Definition gemBoughtAgain : Game :=
  final (purchaseItem gemItem (set_shopStock (Some [gemItem]) gemInHand)).

(** A side quest of three steps that require no item. *)
Definition errandQuest : Quest :=
  {| q_id := "q2"; q_title := "Errands"; q_is_main := false;
     q_steps := [ {| goal := "Greet the smith"; location_hint := "zone1";
                     requires_item_ids := None |};
                  {| goal := "Greet the smith again"; location_hint := "zone1";
                     requires_item_ids := Some [] |};
                  {| goal := "Say goodbye"; location_hint := "zone1";
                     requires_item_ids := None |} ] |}.

Definition errandStarted : Game :=
  final (startQuest [] halfRoll "q2" (final (initQuestsState [errandQuest] demoGame))).

(** [k] deliveries to the smith in a row. *)
Fixpoint deliveries (random : nat -> Q) (k : nat) : M unit :=
  match k with
  | O => ret tt
  | S k' => bind (finishQuestStepsOnTalk [] random "npc_smith")
                 (fun _ => deliveries random k')
  end.

(** The small world with its zones removed. *)
Definition noZones : Game :=
  {| screen := screen questsReady; player := player questsReady;
     zones := []; npcs := npcs questsReady; objects := []; statusEffects := [];
     messages := []; questsState := questsState questsReady; talk := None;
     shopStock := None; buildings := []; interiors := []; obstacles := [];
     inInterior := false; currentInterior := None; rngIx := 0 |}.

(** ** The rest of the program *)

(** The functions of [main.js] that the first part did not need: start-up
    ([ensureDialoguesHaveSpeaker], [initZones], [initNPCs],
    [initBuildings], [initObstacles], [initPlayerAbilities]), entering and
    leaving a building, picking an NPC, abilities, inventory clicks, and
    the small [illusion] module. *)

(** *** More field updates *)

Definition set_zones (v : list Zone) (g : Game) : Game :=
  {| screen := screen g; player := player g; zones := v; npcs := npcs g; objects := objects g;
     statusEffects := statusEffects g; messages := messages g; questsState := questsState g;
     talk := talk g; shopStock := shopStock g; buildings := buildings g;
     interiors := interiors g; obstacles := obstacles g; inInterior := inInterior g;
     currentInterior := currentInterior g; rngIx := rngIx g |}.

Definition set_obstacles (v : list Obstacle) (g : Game) : Game :=
  {| screen := screen g; player := player g; zones := zones g; npcs := npcs g; objects := objects g;
     statusEffects := statusEffects g; messages := messages g; questsState := questsState g;
     talk := talk g; shopStock := shopStock g; buildings := buildings g;
     interiors := interiors g; obstacles := v; inInterior := inInterior g;
     currentInterior := currentInterior g; rngIx := rngIx g |}.

Definition set_buildings (v : list Building) (g : Game) : Game :=
  {| screen := screen g; player := player g; zones := zones g; npcs := npcs g; objects := objects g;
     statusEffects := statusEffects g; messages := messages g; questsState := questsState g;
     talk := talk g; shopStock := shopStock g; buildings := v;
     interiors := interiors g; obstacles := obstacles g; inInterior := inInterior g;
     currentInterior := currentInterior g; rngIx := rngIx g |}.

(** [G.inInterior] and [G.currentInterior], always written together. *)
Definition set_location (inside : bool) (ci : option nat) (g : Game) : Game :=
  {| screen := screen g; player := player g; zones := zones g; npcs := npcs g; objects := objects g;
     statusEffects := statusEffects g; messages := messages g; questsState := questsState g;
     talk := talk g; shopStock := shopStock g; buildings := buildings g;
     interiors := interiors g; obstacles := obstacles g; inInterior := inside;
     currentInterior := ci; rngIx := rngIx g |}.

(** [G.player.abilities] and [G.player.abilityCooldown]. *)
Definition set_abilities (abs : list Ability) (cd : gmap string Q) (p : Player) : Player :=
  {| x := x p; y := y p; baseSpeed := baseSpeed p; speed := speed p; vx := vx p; vy := vy p;
     hp := hp p; maxHp := maxHp p; gold := gold p; skills := skills p;
     equipped_weapon := equipped_weapon p; equipped_armour := equipped_armour p;
     inventory := inventory p; abilities := abs; abilityCooldown := cd |}.

(** *** Strings *)

(** [c.toLowerCase()] on one ASCII character. *)
Definition lowerAscii (c : Ascii.ascii) : Ascii.ascii :=
  let n := Ascii.nat_of_ascii c in
  if ((65 <=? n) && (n <=? 90))%nat then Ascii.ascii_of_nat (n + 32) else c.

(** [s.toLowerCase()], on the ASCII letters of [s]; it is compared with,
    or searched for, ASCII words only. *)
Fixpoint toLowerCase (s : string) : string :=
  match s with
  | EmptyString => EmptyString
  | String c rest => String (lowerAscii c) (toLowerCase rest)
  end.

Fixpoint containsFrom (pat s : string) : bool :=
  String.prefix pat s
  || match s with
     | EmptyString => false
     | String _ rest => containsFrom pat rest
     end.

(** [/word/i.test(s)] for a lower-case ASCII [word]: without the [u] flag
    a character outside ASCII never matches an ASCII letter. *)
Definition testCI (word s : string) : bool := containsFrom word (toLowerCase s).

(** *** Start-up *)

(** [ensureDialoguesHaveSpeaker]: a node whose speaker is missing or empty
    gets ["player"]. *)
Definition ensureSpeaker (n : Node) : Node :=
  match truthy (speaker n) with
  | Some _ => n
  | None => {| node_id := node_id n; speaker := Some "player"; text := text n;
               grants_item_ids := grants_item_ids n; options := options n |}
  end.

Definition ensureDialoguesHaveSpeaker (dialogues : list Dialogue) : list Dialogue :=
  map (fun dlg => {| dlg_id := dlg_id dlg; nodes := map ensureSpeaker (nodes dlg) |}) dialogues.

(** [initZones]: [worldZones] is [worldSpec.zones], absent when the world
    file has none; the [x] and [width] of its entries are overwritten. *)
Definition initZones (worldZones : option (list Zone)) (g : Game) : Game :=
  let zs := default [] worldZones in
  let count := inject_Z (Z.of_nat (length zs)) in
  let width := w (screen g) in
  set_zones
    (imap (fun i z => {| zone_id := zone_id z; zone_name := zone_name z;
                         zone_x := (width / count) * inject_Z (Z.of_nat i);
                         zone_width := width / count |}) zs)
    g.

(** [initPlayerAbilities]: the first five abilities, each with cooldown 0. *)
Definition initPlayerAbilities (abilitiesData : option (list Ability)) (g : Game) : Game :=
  let list := default [] abilitiesData in
  let slots := Nat.min 5 (length list) in
  let chosen := take slots list in
  set_player
    (set_abilities chosen
       (foldl (fun cd ab => <[ab_id ab := 0]> cd) ∅ chosen)
       (player g)) g.

Section Startup.

Variable dialoguesData : list Dialogue.
Variable random : nat -> Q.

(** The three skills an NPC can test, and the read of one of them at a
    computed index. [Math.random()] lies in [0, 1), which keeps the index
    in range; for a draw outside that interval the source would read
    [undefined], and the model reads the last skill. *)
Definition npcSkills : list string := ["charisma"; "strength"; "agility"].

Definition pickSkill (r : Q) : string :=
  default "agility" (at_Z npcSkills (Qfloor (r * 3))).

(** The id of the NPC of dialogue [idx]: the speaker of its first node
    unless that is the player, else [npc_<idx + 1>]. *)
Definition npcIdFor (dlg : Dialogue) (idx : nat) : string :=
  match nodes dlg with
  | first :: _ =>
      let sp := default EmptyString (truthy (speaker first)) in
      if negb (String.eqb (toLowerCase sp) "player") then sp
      else "npc_" +:+ pretty (idx + 1)%nat
  | [] => "npc_" +:+ pretty (idx + 1)%nat
  end.

(** The body of [dialogues.forEach] in [initNPCs]. The colour of the NPC,
    used only for drawing, is not part of [Npc]. *)
Definition initNpc (idx : nat) (dlg : Dialogue) : M unit :=
  (g <- get ;;
   let npcId := npcIdFor dlg idx in
   let zoneCount := if (length (zones g) =? 0)%nat then 1%nat else length (zones g) in
   let zi := (idx mod zoneCount)%nat in
   zone <- deref (zones g !! zi) ;;
   let nx := zone_x zone + zone_width zone * (1 # 2) in
   ry <- Math_random random ;;
   let ny := h (screen g) * (2 # 5) + ry * h (screen g) * (1 # 10) in
   rs <- Math_random random ;;
   let sk := pickSkill rs in
   rd <- Math_random random ;;
   let diff := (2 # 5) + rd * (2 # 5) in
   modify (fun g' =>
     set_npcs (npcs g' ++ [ {| npc_id := npcId; dialogueIndex := idx; npc_x := nx; npc_y := ny;
                               zoneIndex := zi; skill := sk; difficulty := diff;
                               dx := 0; dy := 0 |} ]) g'))%m.

Fixpoint initNpcsFrom (idx : nat) (dialogues : list Dialogue) : M unit :=
  match dialogues with
  | [] => ret tt
  | dlg :: rest => bind (initNpc idx dlg) (fun _ => initNpcsFrom (S idx) rest)
  end.

(** The attempts of [initBuildings] to find a free horizontal slot; the
    keys of [usedPositions] are kept as pairs (zone index, slot). *)
Fixpoint placeBuilding (attempts : nat) (zone : Zone) (zi : nat) (bw : Q)
    (used : gset (nat * Z)) : M (option Q * gset (nat * Z)) :=
  match attempts with
  | O => ret (None, used)
  | S k =>
      (r <- Math_random random ;;
       let candidateX := zone_x zone + 30 + r * (zone_width zone - bw - 60) in
       let key := (zi, Qfloor (candidateX / 50)) in
       if bool_decide (key ∈ used) then placeBuilding k zone zi bw used
       else ret (Some candidateX, {[ key ]} ∪ used))%m
  end.

(** The body of [G.npcs.forEach] in [initBuildings]. Of the building only
    the fields of [Building] are kept (its [id] and [zoneIndex] are not),
    and of the interior those of [Interior]. The occupant is written as
    the NPC moved to its place in the room: the source copies its [id],
    [dialogueIndex], [skill] and [difficulty] and leaves out [zoneIndex],
    which nothing reads from an occupant. *)
Definition initBuilding (used : gset (nat * Z)) (npc : Npc) : M (gset (nat * Z)) :=
  (g <- get ;;
   match zones g !! zoneIndex npc with
   | None => ret used
   | Some zone =>
       let bw := Qmax 80 (zone_width zone * (1 # 4)) in
       let bh := Qmax 80 (h (screen g) * (15 # 100)) in
       placed <- placeBuilding 10 zone (zoneIndex npc) bw used ;;
       let bx := default (zone_x zone + (zone_width zone - bw) / 2) (fst placed) in
       rb <- Math_random random ;;
       let by_ := 120 + rb * (h (screen g) - safeBottom (screen g) - bh - 180) in
       modify (fun g' =>
         set_buildings (buildings g' ++ [ {| b_npcId := npc_id npc; b_x := bx; b_y := by_;
                                             b_width := bw; b_height := bh;
                                             doorX := bx + bw / 2; doorY := by_ + bh |} ]) g') ;;;
       let intW := Qmin (w (screen g) - 100) 600 in
       let intH := Qmin (h (screen g) - safeBottom (screen g) - 100) 400 in
       modify (fun g' =>
         set_interiors (interiors g' ++ [ {| int_npcId := npc_id npc; int_width := intW;
                                             int_height := intH;
                                             int_npc := set_npc_motion 0 (- intH * (1 # 4)) 0 0 npc
                                          |} ]) g') ;;;
       ret (snd placed)
   end)%m.

Fixpoint initBuildingsFrom (used : gset (nat * Z)) (ns : list Npc) : M unit :=
  match ns with
  | [] => ret tt
  | npc :: rest => bind (initBuilding used npc) (fun used' => initBuildingsFrom used' rest)
  end.

Definition initBuildings : M unit :=
  (modify (set_buildings []) ;;; modify (set_interiors []) ;;;
   g <- get ;; initBuildingsFrom ∅ (npcs g))%m.

(** One obstacle of [initObstacles]. *)
Definition initObstacle (zi : nat) (zone : Zone) : M unit :=
  (g <- get ;;
   rw <- Math_random random ;;
   let ow := 40 + rw * 80 in
   rh <- Math_random random ;;
   let oh := 40 + rh * 80 in
   rx <- Math_random random ;;
   let ox := zone_x zone + 30 + rx * (zone_width zone - ow - 60) in
   ry <- Math_random random ;;
   let oy := 140 + ry * (h (screen g) - safeBottom (screen g) - oh - 200) in
   modify (fun g' =>
     set_obstacles (obstacles g' ++ [ {| ob_zoneIndex := zi; ob_x := ox; ob_y := oy;
                                         ob_width := ow; ob_height := oh |} ]) g'))%m.

Fixpoint initObstaclesFrom (zi : nat) (zs : list Zone) : M unit :=
  match zs with
  | [] => ret tt
  | zone :: rest =>
      (initObstacle zi zone ;;; initObstacle zi zone ;;; initObstacle zi zone ;;;
       initObstaclesFrom (S zi) rest)%m
  end.

Definition initObstacles : M unit :=
  (modify (set_obstacles []) ;;; g <- get ;; initObstaclesFrom 0 (zones g))%m.

Definition initNPCs : M unit :=
  (modify (set_npcs []) ;;;
   initNpcsFrom 0 dialoguesData ;;;
   initBuildings ;;;
   initObstacles)%m.

(** The statements of [initGame] that build the state (lines 139-147).
    What [initGame] does before them (the canvas, [resizeCanvas] with its
    call of [defineButtons], a function that [main.js] does not define,
    and the listeners) and the loop it starts after them are not part of
    this function. *)
Definition initGameState (worldZones : option (list Zone)) (quests : list Quest)
    (abilitiesData : option (list Ability)) : M unit :=
  (modify (initZones worldZones) ;;;
   initNPCs ;;;
   initQuestsState quests ;;;
   modify (initPlayerAbilities abilitiesData) ;;;
   modify (fun g => set_player (set_inventory [] (player g)) g))%m.

End Startup.

(** *** Buildings *)

(** [G] together with [G.previousPosition], which [Game] leaves out. *)
Record Located := { game : Game; previousPosition : Q * Q }.

Section Buildings.

(** The fields [spawnX] and [spawnY] of an interior, which [Interior]
    leaves out, as functions of the interior. *)
Variable spawnX spawnY : Interior -> Q.

Definition enterBuilding (building : Building) (s : Located) : Located :=
  let g := game s in
  let saved := (x (player g), y (player g)) in
  match findIndex (fun i => String.eqb (int_npcId i) (b_npcId building)) (interiors g) with
  | None => {| game := g; previousPosition := saved |}
  | Some (ci, interior) =>
      let g1 := set_location true (Some ci) g in
      let intX := (w (screen g) - int_width interior) / 2 in
      let intY := (h (screen g) - safeBottom (screen g) - int_height interior) / 2 in
      {| game := set_player
                   (set_xy (intX + int_width interior / 2 + spawnX interior)
                           (intY + int_height interior / 2 + spawnY interior)
                           (player g1)) g1;
         previousPosition := saved |}
  end.

Definition exitBuilding (s : Located) : Located :=
  let g := game s in
  if negb (inInterior g) then s
  else
    let g1 := set_location false None g in
    {| game := set_player (set_xy (fst (previousPosition s)) (snd (previousPosition s))
                                  (player g1)) g1;
       previousPosition := previousPosition s |}.

End Buildings.

(** [pickNPCAt]: the occupant when inside (if within 20 px of the point),
    else the first world NPC within 20 px. *)
Definition pickNPCAt (px py : Q) (g : Game) : option Npc :=
  if inInterior g then
    match currentInterior g with
    | Some ci =>
        match interiors g !! ci with
        | Some interior =>
            let intX := (w (screen g) - int_width interior) / 2 in
            let intY := (h (screen g) - safeBottom (screen g) - int_height interior) / 2 in
            let npc := int_npc interior in
            let npcScreenX := intX + int_width interior / 2 + npc_x npc in
            let npcScreenY := intY + int_height interior / 2 + npc_y npc in
            let ddx := npcScreenX - px in
            let ddy := npcScreenY - py in
            if ddx * ddx + ddy * ddy <? 20 * 20 then Some npc else None
        | None => None
        end
    | None => None
    end
  else
    find (fun npc =>
            let ddx := npc_x npc - px in
            let ddy := npc_y npc - py in
            ddx * ddx + ddy * ddy <? 20 * 20) (npcs g).

(** *** Abilities and inventory clicks *)

(** The type of a random buff, read at a computed index of
    [['speed', 'strength']]; as for [pickSkill], a draw outside [0, 1)
    would read [undefined] and the model reads the last type. *)
Definition pickBuff (r : Q) : string :=
  default "strength" (at_Z ["speed"; "strength"] (Qfloor (r * 2))).

Definition pushEffect (eff : StatusEffect) (g : Game) : Game :=
  set_statusEffects (statusEffects g ++ [eff]) g.

Definition setCooldown (id : string) (v : Q) (g : Game) : Game :=
  set_player (set_abilityCooldown (<[id := v]> (abilityCooldown (player g))) (player g)) g.

Section Handlers.

Variable inventoryData : list Item.
Variable random : nat -> Q.
Variable Number_toString : Q -> string.

(** [activateAbility(idx)]; [idx] is whatever [parseInt] gave, minus one. *)
Definition activateAbility (idx : Z) : M unit :=
  (g <- get ;;
   match at_Z (abilities (player g)) idx with
   | None => ret tt
   | Some ab =>
       if 0 <? default 0 (abilityCooldown (player g) !! ab_id ab) then
         modify (addMessage (ab_name ab +:+ " is on cooldown") defaultDuration)
       else
         (if testCI "heal" (ab_name ab) || testCI "potion" (ab_name ab) then
            modify (healPlayer Number_toString 25)
          else if testCI "speed" (ab_name ab) then
            modify (pushEffect {| eff_name := ab_name ab; eff_type := "speed";
                                  eff_value := 1 # 2; eff_time := 10 |})
          else if testCI "strength" (ab_name ab) then
            modify (pushEffect {| eff_name := ab_name ab; eff_type := "strength";
                                  eff_value := 1 # 2; eff_time := 10 |})
          else
            r <- Math_random random ;;
            modify (pushEffect {| eff_name := ab_name ab; eff_type := pickBuff r;
                                  eff_value := 3 # 10; eff_time := 10 |})) ;;;
         modify (setCooldown (ab_id ab) 30) ;;;
         modify (addMessage ("Used ability: " +:+ ab_name ab) defaultDuration)
   end)%m.

Definition onInventoryItemClick (itemId : string) : M unit :=
  (g <- get ;;
   match find (fun it => String.eqb (item_id it) itemId) inventoryData with
   | None => ret tt
   | Some item =>
       let cat := category item in
       if String.eqb cat "weapon" || String.eqb cat "armor" then
         let isWeapon := String.eqb cat "weapon" in
         let worn := if isWeapon then equipped_weapon (player g)
                     else equipped_armour (player g) in
         if bool_decide (worn = Some itemId) then
           modify (fun g' =>
             set_player (if isWeapon
                         then set_equipped None (equipped_armour (player g')) (player g')
                         else set_equipped (equipped_weapon (player g')) None (player g')) g') ;;;
           modify (addMessage ("Unequipped " +:+ item_name item) defaultDuration)
         else
           modify (fun g' =>
             set_player (if isWeapon
                         then set_equipped (Some itemId) (equipped_armour (player g'))
                                           (player g')
                         else set_equipped (equipped_weapon (player g')) (Some itemId)
                                           (player g')) g') ;;;
           modify (addMessage ("Equipped " +:+ item_name item) defaultDuration)
       else if String.eqb cat "consumable" then
         (if testCI "heal" (item_name item) || testCI "potion" (item_name item)
             || testCI "elixir" (item_name item) then
            modify (healPlayer Number_toString 30)
          else
            r <- Math_random random ;;
            modify (pushEffect {| eff_name := item_name item; eff_type := pickBuff r;
                                  eff_value := 3 # 10; eff_time := 15 |}) ;;;
            modify (addMessage ("Used " +:+ item_name item) defaultDuration)) ;;;
         modify (fun g' =>
           set_player (set_inventory (removeFirst itemId (inventory (player g')))
                                     (player g')) g')
       else
         modify (addMessage ("Cannot use " +:+ item_name item) defaultDuration)
   end)%m.

End Handlers.

(** *** The [illusion] module *)

(** The module works on whatever numbers it is given and divides by their
    sum, so infinities, [NaN] and sums that swallow the constant 10 are
    within its reach: it is embedded on the machine's doubles.
    [localStorage] is taken to be available. *)
Module Illusion.
Import FloatClass PrimFloat.
Local Open Scope float_scope.

(** [illusion.state]. *)
Record State := { pos : float; neg : float }.

(** What [JSON.parse] reads back of a number that [JSON.stringify] has
    written: nothing that is a number for an infinity or [NaN] (written
    as [null]), 0 for the negative zero (written as [0]). *)
Definition jsonNumber (f : float) : option float :=
  if is_finite f
  then Some (match classify f with NZero => 0 | _ => f end)
  else None.

(** The state that the item ['illusion_stat'] encodes, if it passes the
    test of [init] (an object with two numbers). *)
Definition encode (s : State) : option State :=
  match jsonNumber (pos s), jsonNumber (neg s) with
  | Some p, Some n => Some {| pos := p; neg := n |}
  | _, _ => None
  end.

(** The module with the item ['illusion_stat'] of [localStorage], kept as
    the state it encodes ([None]: no item, or one that does not parse to
    an object with two numbers). *)
Record Env := { state : State; stored : option State }.

Definition init (e : Env) : Env :=
  match stored e with
  | Some saved => {| state := saved; stored := stored e |}
  | None => e
  end.

Definition record (tag : string) (weight : float) (e : Env) : Env :=
  let s := state e in
  let s1 := if String.eqb tag "demiurge_affinity"
            then {| pos := pos s + weight; neg := neg s |} else s in
  let s2 := if String.eqb tag "resistance"
            then {| pos := pos s1; neg := neg s1 + weight |} else s1 in
  {| state := s2; stored := encode s2 |}.

(** [Math.min] and [Math.max] of two numbers: [NaN] if either is, and the
    negative zero below the positive one. *)
Definition Math_min (a b : float) : float :=
  if is_nan a || is_nan b then nan
  else if a <? b then a
  else if b <? a then b
  else match classify a with NZero => a | _ => b end.

Definition Math_max (a b : float) : float :=
  if is_nan a || is_nan b then nan
  else if a <? b then b
  else if b <? a then a
  else match classify a with NZero => b | _ => a end.

Definition value (s : State) : float :=
  let t := pos s + neg s + 10 in
  Math_max 0 (Math_min 1 (pos s / t)).

Definition tier (s : State) : float :=
  let v := value s in
  if 1 <=? v then 1
  else if 0.75 <=? v then 0.75
  else if 0.5 <=? v then 0.5
  else if 0.25 <=? v then 0.25
  else 0.

(** The module as the script defines it, before [init]: both counters
    at 0. *)
Definition fresh (item : option State) : Env :=
  {| state := {| pos := 0; neg := 0 |}; stored := item |}.

(** The module once loaded: the script ends with [illusion.init()]. *)
Definition loaded (item : option State) : Env := init (fresh item).

(** Numbers for the examples: a weight that swallows the 10 of [value],
    and one whose double is beyond the largest double. *)
Definition heavy : float := 2e17.
#[warnings="-inexact-float"] Definition huge : float := 1e308.
Definition levels : list float := [0; 0.25; 0.5; 0.75; 1].
Definition zeroes : State := {| pos := 0; neg := 0 |}.
Definition cancelled : State := {| pos := 0; neg := -10 |}.

End Illusion.

(** *** Notions used by the statements of this part *)

(** The contract of [Math.random()]. *)
Definition unitRolls (random : nat -> Q) : Prop := forall n, 0 <= random n /\ random n < 1.

(** What an obstacle made for zone [zi] is like: its sizes are in
    [40, 120); in a zone at least 180 wide it starts 30 or more from the
    zone's left edge and ends inside the zone; with a playfield at least
    320 high it lies below y = 140 and above the bottom band. (The code
    aims at a margin of 30 on the right and of 60 at the bottom as well;
    a draw next to 1 can miss those by a rounding.) *)
Definition obstacleOf (g : Game) (zi : nat) (zone : Zone) (o : Obstacle) : Prop :=
  ob_zoneIndex o = zi
  /\ 40 <= ob_width o /\ ob_width o < 120 /\ 40 <= ob_height o /\ ob_height o < 120
  /\ (180 <= zone_width zone ->
      zone_x zone + 30 <= ob_x o
      /\ ob_x o + ob_width o <= zone_x zone + zone_width zone)
  /\ (320 <= h (screen g) - safeBottom (screen g) ->
      140 <= ob_y o
      /\ ob_y o + ob_height o <= h (screen g) - safeBottom (screen g)).

(** The NPC that the round-robin of [initQuestsState] reaches at count
    [k], among the NPCs [ns]. *)
Definition roundRobin (ns : list Npc) (k : nat) : string :=
  default EmptyString (npc_id <$> ns !! (k mod length ns)%nat).

(** The entry of [G.questsState] that [initQuestsState] builds for quest
    number [qIndex]. *)
Definition freshQuest (ns : list Npc) (qIndex : nat) (q : Quest) : QuestState :=
  {| qs_id := q_id q; title := q_title q; is_main := q_is_main q; steps := q_steps q;
     status := NotStarted; currentStep := 0;
     stepAssignments := map (roundRobin ns) (seq qIndex (length (q_steps q))) |}.

(** A quest state whose steps all have an assignee, as [initQuestsState]
    builds them. *)
Definition assignedThroughout (qs : QuestState) : Prop :=
  length (stepAssignments qs) = length (steps qs).

(** The order of the quest states. *)
Definition statusRank (s : QuestStatus) : nat :=
  match s with NotStarted => 0 | InProgress => 1 | Completed => 2 end.


(** A quest state and a later state of the same quest: the quest itself
    (id, title, steps, assignees) is the same, the status has not gone
    back, a completed quest is untouched, and while the quest stays in
    progress its current step has not gone down. *)
Definition advances (qs qs' : QuestState) : Prop :=
  qs_id qs' = qs_id qs /\ title qs' = title qs /\ is_main qs' = is_main qs
  /\ steps qs' = steps qs /\ stepAssignments qs' = stepAssignments qs
  /\ (statusRank (status qs) <= statusRank (status qs'))%nat
  /\ (status qs = Completed -> qs' = qs)
  /\ (status qs = InProgress -> (currentStep qs <= currentStep qs')%nat).

(** The test of [getDeliverInfoForNPC] on one quest, for a quest whose
    steps all have an assignee. *)
Definition deliverable (inv : list string) (npcId : string) (qs : QuestState) : bool :=
  bool_decide (status qs = InProgress)
  && bool_decide (stepAssignments qs !! currentStep qs = Some npcId)
  && match steps qs !! currentStep qs with
     | Some step => forallb (includes inv) (default [] (requires_item_ids step))
     | None => false
     end.


(** Whether a pickup lies within 20 pixels of the player. *)
Definition withinReach (p : Player) (o : WorldObject) : bool :=
  let ddx := obj_x o - x p in
  let ddy := obj_y o - y p in
  ddx * ddx + ddy * ddy <? 20 * 20.

(** The door band of a building: the fifth of its width centred on the
    door, with the lower edge of the player's box below the building. *)
Definition inDoorBand (p : Player) (b : Building) : Prop :=
  doorX b -! b_width b *! roundDouble (1 # 5) /! 2 < x p
  /\ x p < doorX b +! b_width b *! roundDouble (1 # 5) /! 2
  /\ b_y b +! b_height b < y p +! 16.

(** Every world NPC stands in a zone that exists, as after [initNPCs]. *)
Definition npcsZoned (g : Game) : Prop :=
  Forall (fun npc => is_Some (zones g !! zoneIndex npc)) (npcs g).

(** Zones at least 40 wide and a playfield at least 100 high: room for
    the margins that wandering keeps. *)
Definition roomy (g : Game) : Prop :=
  Forall (fun z => 40 <= zone_width z) (zones g)
  /\ 100 <= h (screen g) - safeBottom (screen g).

(** An NPC within the band of its zone where wandering keeps it. *)
Definition inBand (g : Game) (npc : Npc) : Prop :=
  exists z, zones g !! zoneIndex npc = Some z
            /\ zone_x z + 20 <= npc_x npc <= zone_x z + zone_width z - 20
            /\ 80 <= npc_y npc <= h (screen g) - safeBottom (screen g) - 20.

(** An NPC and the same NPC later: it may have moved, nothing else. *)
Definition sameNpc (npc npc' : Npc) : Prop :=
  npc_id npc' = npc_id npc /\ zoneIndex npc' = zoneIndex npc
  /\ dialogueIndex npc' = dialogueIndex npc
  /\ skill npc' = skill npc /\ difficulty npc' = difficulty npc.

(** What a frame spent inside a building leaves alone. *)
Definition worldFrozen (g g' : Game) : Prop :=
  npcs g' = npcs g /\ objects g' = objects g /\ obstacles g' = obstacles g
  /\ buildings g' = buildings g /\ zones g' = zones g /\ screen g' = screen g
  /\ questsState g' = questsState g /\ statusEffects g' = statusEffects g
  /\ inventory (player g') = inventory (player g)
  /\ hp (player g') = hp (player g) /\ gold (player g') = gold (player g)
  /\ inInterior g' = inInterior g /\ currentInterior g' = currentInterior g.

(** The small world with the smith's building built, and the player
    inside it. *)
Definition builtWorld : Game := final (initBuildings halfRoll demoGame).

Definition insideSmithy : Game :=
  match buildings builtWorld with
  | b :: _ => game (enterBuilding (fun _ => 0) (fun _ => 0) b
                      {| game := builtWorld; previousPosition := (0, 0) |})
  | [] => builtWorld
  end.

(** What [initNPCs] makes of dialogue number [idx]: its id, its zone (the
    zones taken in turn), its place at the middle of that zone, at rest. *)
Definition npcOf (g : Game) (idx : nat) (dlg : Dialogue) (npc : Npc) : Prop :=
  npc_id npc = npcIdFor dlg idx /\ dialogueIndex npc = idx
  /\ zoneIndex npc = (idx mod length (zones g))%nat
  /\ (exists zone, zones g !! zoneIndex npc = Some zone
                   /\ npc_x npc = zone_x zone + zone_width zone * (1 # 2))
  /\ dx npc = 0 /\ dy npc = 0.

(** What the random draws of [initNPCs] give an NPC: one of the three
    skills, a difficulty from 0.4 up to [0.4 + 0.4], and a height from
    [h * 0.4] up to [h * 0.4 + h * 0.1], the values that the code's own
    expressions take at the draws 0 and 1. *)
Definition npcRolled (g : Game) (npc : Npc) : Prop :=
  In (skill npc) npcSkills
  /\ 2 # 5 <= difficulty npc <= (2 # 5) + (2 # 5)
  /\ (0 <= h (screen g) ->
      h (screen g) * (2 # 5) <= npc_y npc
      <= h (screen g) * (2 # 5) + h (screen g) * (1 # 10)).

(** The NPCs that get a building: those whose zone exists. *)
Definition housed (g : Game) : list Npc :=
  List.filter (fun npc => match zones g !! zoneIndex npc with
                          | Some _ => true
                          | None => false
                          end) (npcs g).

(** The building that [initBuildings] makes for an NPC: its sizes, its
    door at the middle of its lower edge, and, for draws in the unit
    interval, its place inside a zone at least 140 wide and above the
    line 60 over the bottom band when the playfield leaves room. *)
Definition buildingOf (rolls : nat -> Q) (g : Game) (npc : Npc) (b : Building) : Prop :=
  exists zone,
    zones g !! zoneIndex npc = Some zone
    /\ b_npcId b = npc_id npc
    /\ b_width b = Qmax 80 (zone_width zone * (1 # 4))
    /\ b_height b = Qmax 80 (h (screen g) * (15 # 100))
    /\ doorX b = b_x b + b_width b / 2
    /\ doorY b = b_y b + b_height b
    /\ (unitRolls rolls -> 140 <= zone_width zone ->
        zone_x zone <= b_x b /\ b_x b + b_width b <= zone_x zone + zone_width zone)
    /\ (unitRolls rolls -> b_height b + 180 <= h (screen g) - safeBottom (screen g) ->
        120 <= b_y b /\ doorY b <= h (screen g) - safeBottom (screen g) - 60).

(** The room that goes with it: its sizes, and its occupant, the same NPC
    at rest a quarter of the height above the centre. *)
Definition interiorOf (g : Game) (npc : Npc) (i : Interior) : Prop :=
  int_npcId i = npc_id npc
  /\ int_width i = Qmin (w (screen g) - 100) 600
  /\ int_height i = Qmin (h (screen g) - safeBottom (screen g) - 100) 400
  /\ sameNpc npc (int_npc i)
  /\ npc_x (int_npc i) = 0 /\ npc_y (int_npc i) = - int_height i * (1 # 4)
  /\ dx (int_npc i) = 0 /\ dy (int_npc i) = 0.

(** What moving about leaves of the player and of the effects. *)
Definition bodyKept (g g' : Game) : Prop :=
  abilityCooldown (player g') = abilityCooldown (player g)
  /\ abilities (player g') = abilities (player g)
  /\ baseSpeed (player g') = baseSpeed (player g)
  /\ hp (player g') = hp (player g) /\ maxHp (player g') = maxHp (player g)
  /\ gold (player g') = gold (player g)
  /\ statusEffects g' = statusEffects g.

(** A run of [illusion.record] calls, each with its tag and weight. *)
Definition recordAll (events : list (string * PrimFloat.float)) (e : Illusion.Env)
    : Illusion.Env :=
  foldl (fun acc ev => Illusion.record (fst ev) (snd ev) acc) e events.

(** Where a pickup spawned for a quest step may lie: across the width of
    one of the zones and, on a playfield at least 120 high, between y = 80
    and 40 above the bottom band. *)
Definition spawnedIn (g : Game) (o : WorldObject) : Prop :=
  (exists z, In z (zones g)
             /\ (0 <= zone_width z ->
                 zone_x z <= obj_x o <= zone_x z + zone_width z))
  /\ (120 <= h (screen g) - safeBottom (screen g) ->
      80 <= obj_y o <= h (screen g) - safeBottom (screen g) - 40).

(** ** Basic facts *)

Lemma Qltb_lt (a b : Q) : (a <? b) = true <-> a < b.
Proof.
  unfold Qltb. rewrite negb_true_iff.
  split; intros H.
  - apply Qnot_le_lt. intros Hle. apply Qle_bool_iff in Hle. congruence.
  - destruct (Qle_bool b a) eqn:E; [|reflexivity].
    apply Qle_bool_iff in E. exfalso. apply (Qlt_not_le _ _ H E).
Qed.

Lemma Qltb_ge (a b : Q) : (a <? b) = false <-> b <= a.
Proof.
  unfold Qltb. rewrite negb_false_iff. apply Qle_bool_iff.
Qed.

Lemma Qleb_le (a b : Q) : (a <=? b) = true <-> a <= b.
Proof. apply Qle_bool_iff. Qed.

Lemma Qleb_gt (a b : Q) : (a <=? b) = false <-> b < a.
Proof.
  unfold Qleb. split; intros H.
  - apply Qnot_le_lt. intros Hle. apply Qle_bool_iff in Hle. congruence.
  - destruct (Qle_bool a b) eqn:E; [|reflexivity].
    apply Qle_bool_iff in E. exfalso. apply (Qlt_not_le _ _ H E).
Qed.

Lemma Qltb_proper (a a' b b' : Q) : a == a' -> b == b' -> (a <? b) = (a' <? b').
Proof.
  intros Ha Hb.
  destruct (a' <? b') eqn:E.
  - apply Qltb_lt. apply Qltb_lt in E. lra.
  - apply Qltb_ge. apply Qltb_ge in E. lra.
Qed.

Lemma includes_In (arr : list string) (id : string) :
  includes arr id = true <-> In id arr.
Proof.
  unfold includes. rewrite existsb_exists. split.
  - intros (a & Ha & E). apply String.eqb_eq in E. now subst.
  - intros H. exists id. split; [assumption | apply String.eqb_refl].
Qed.

Lemma includes_app (l1 l2 : list string) (id : string) :
  includes (l1 ++ l2) id = includes l1 id || includes l2 id.
Proof. unfold includes. apply existsb_app. Qed.

(** A running sum from [b0] is [b0] plus the sum. *)
Lemma bonus_loop_sum (skillName : string) (effs : list StatusEffect) (b0 : Q) :
  foldl (fun b eff => if String.eqb (eff_type eff) skillName then b + eff_value eff else b)
        b0 effs
  == b0 + skillBonus skillName effs.
Proof.
  revert b0. induction effs as [|eff rest IH]; intros b0; simpl.
  - lra.
  - destruct (String.eqb (eff_type eff) skillName); rewrite IH; lra.
Qed.

(** *** Rounding *)

Lemma roundHalfEven_error (s : Q) : Qabs (inject_Z (roundHalfEven s) - s) <= 1 # 2.
Proof.
  unfold roundHalfEven. cbv zeta.
  pose proof (Qfloor_le s) as Hlo. pose proof (Qlt_floor s) as Hhi.
  rewrite inject_Z_plus in Hhi. change (inject_Z 1) with 1 in Hhi.
  apply Qabs_Qle_condition.
  destruct (_ <? _) eqn:E1.
  - apply Qltb_lt in E1. lra.
  - apply Qltb_ge in E1. destruct (_ <? _) eqn:E2.
    + rewrite inject_Z_plus. change (inject_Z 1) with 1. lra.
    + apply Qltb_ge in E2. destruct (Z.even _).
      * lra.
      * rewrite inject_Z_plus. change (inject_Z 1) with 1. lra.
Qed.

Lemma two_power_pos (z : Z) : 0 < 2 ^ z.
Proof. apply Qpower_0_lt. reflexivity. Qed.

(** [flog2] does not overshoot: the leading bit is within the number. *)
Lemma flog2_le (q : Q) : 0 < q -> 2 ^ flog2 q <= q.
Proof.
  intros Hq. unfold flog2. cbv zeta.
  destruct (Qle_bool _ q) eqn:E; [now apply Qle_bool_iff in E|]. clear E.
  destruct q as [a d]. cbn [Qnum Qden].
  assert (Ha : (0 < a)%Z).
  { unfold Qlt in Hq. simpl in Hq. lia. }
  destruct (Z.log2_spec a Ha) as [Hla _].
  destruct (Z.log2_spec (Zpos d) (Pos2Z.is_pos d)) as [_ Hld].
  set (la := Z.log2 a) in *. set (ld := Z.log2 (Zpos d)) in *.
  assert (Hla0 : (0 <= la)%Z) by apply Z.log2_nonneg.
  assert (Hld0 : (0 <= ld)%Z) by apply Z.log2_nonneg.
  assert (Hd : inject_Z (Zpos d) <= 2 ^ (ld + 1)).
  { change 2 with (inject_Z 2). rewrite <- Zpower_Qpower by lia.
    rewrite <- Zle_Qle. unfold Z.succ in Hld. lia. }
  assert (Hn : 2 ^ la <= inject_Z a).
  { change 2 with (inject_Z 2). rewrite <- Zpower_Qpower by lia.
    rewrite <- Zle_Qle. exact Hla. }
  assert (Hsplit : 2 ^ la == 2 ^ (la - ld - 1) * 2 ^ (ld + 1)).
  { rewrite <- Qpower_plus by discriminate.
    replace (la - ld - 1 + (ld + 1))%Z with la by lia. reflexivity. }
  rewrite (Qmake_Qdiv a d).
  apply Qle_shift_div_l; [reflexivity|].
  pose proof (two_power_pos (la - ld - 1)) as Hpos.
  apply Qle_trans with (2 ^ (la - ld - 1) * 2 ^ (ld + 1)); [|rewrite <- Hsplit; exact Hn].
  apply Qmult_le_l; assumption.
Qed.

(** One rounding is off by at most half a unit in the last place. *)
Lemma roundDouble_error (x : Q) : Qabs (roundDouble x - x) <= halfUlp * Qabs x.
Proof.
  unfold roundDouble.
  destruct (Qeq_bool x 0) eqn:E0.
  - apply Qeq_bool_iff in E0. rewrite E0. vm_compute. discriminate.
  - apply Qeq_bool_neq in E0. cbv zeta.
    assert (Hax : 0 < Qabs x).
    { pose proof (Qabs_nonneg x). destruct (Qeq_dec (Qabs x) 0) as [Hz|Hz]; [|lra].
      exfalso. apply E0. revert Hz. apply Qabs_case; intros; lra. }
    pose proof (flog2_le (Qabs x) Hax) as HL.
    set (L := flog2 (Qabs x)) in *. clearbody L.
    set (e := (L - 52)%Z).
    rewrite Qred_correct.
    pose proof (roundHalfEven_error (x * 2 ^ (- e))) as Hm.
    set (m := inject_Z (roundHalfEven (x * 2 ^ (- e)))) in *. clearbody m.
    pose proof (two_power_pos e) as He.
    assert (Hinv : 2 ^ (- e) * 2 ^ e == 1).
    { rewrite <- Qpower_plus by discriminate.
      replace (- e + e)%Z with 0%Z by lia. reflexivity. }
    assert (Hdiff : m * 2 ^ e - x == (m - x * 2 ^ (- e)) * 2 ^ e).
    { transitivity (m * 2 ^ e - x * (2 ^ (- e) * 2 ^ e)); [|ring].
      rewrite Hinv. ring. }
    rewrite Hdiff, Qabs_Qmult, (Qabs_pos (2 ^ e)) by lra.
    assert (HeL : 2 ^ e * 2 ^ 52 == 2 ^ L).
    { rewrite <- Qpower_plus by discriminate. unfold e.
      replace (L - 52 + 52)%Z with L by lia. reflexivity. }
    assert (H52 : 2 ^ 52 == 4503599627370496) by (vm_compute; reflexivity).
    rewrite H52 in HeL.
    apply Qle_trans with ((1 # 2) * 2 ^ e).
    + apply Qmult_le_compat_r; lra.
    + unfold halfUlp. set (t := 2 ^ e) in *. clearbody t.
      set (ax := Qabs x) in *. clearbody ax.
      rewrite <- HeL in HL. lra.
Qed.

Lemma Qabs_cases (a : Q) : (0 <= a /\ Qabs a == a) \/ (a <= 0 /\ Qabs a == - a).
Proof.
  destruct (Qlt_le_dec a 0) as [H|H].
  - right. split; [lra | apply Qabs_neg; lra].
  - left. split; [exact H | now apply Qabs_pos].
Qed.

Lemma roundDouble_near (x : Q) :
  x - halfUlp * Qabs x <= roundDouble x <= x + halfUlp * Qabs x.
Proof.
  pose proof (roundDouble_error x) as H. apply Qabs_Qle_condition in H. lra.
Qed.

(** Known facts about the operations on doubles, for [lra]. *)
Ltac near a := pose proof (roundDouble_near a); pose proof (Qabs_cases a).

(** Running the monad: the unfolding used by the proofs below. *)
Ltac run :=
  unfold bind, ret, get, modify, throw, deref, Math_random in *; simpl in *.

(** ** Skill check (C4) *)

Lemma bonus_loop_run (skillName : string) (effs : list StatusEffect) (b0 : Q) :
  foldl (fun b eff => if String.eqb (eff_type eff) skillName then b +! eff_value eff else b)
        b0 effs
  = bonusLoop skillName b0 effs.
Proof.
  revert b0. induction effs as [|eff rest IH]; intros b0; [reflexivity|].
  cbn [foldl bonusLoop]. apply IH.
Qed.

(** What one call computes and leaves behind. *)
Lemma performSkillCheck_run (random : nat -> Q) (g : Game) (skillName : string)
    (difficulty : Q) :
  performSkillCheck random skillName difficulty g
  = Return (random (rngIx g)
              <? threshold (skillBase g skillName)
                           (bonusLoop skillName 0 (statusEffects g)) difficulty)
           (set_rngIx (S (rngIx g)) g).
Proof.
  unfold performSkillCheck, bind, get, ret, Math_random. cbv beta iota zeta.
  rewrite bonus_loop_run. reflexivity.
Qed.

(** The three roundings of the threshold stay within two units in the
    last place of the size of its operands. *)
Lemma threshold_error (base bonus difficulty : Q) :
  Qabs (threshold base bonus difficulty - (base + bonus - difficulty + (1 # 2)))
  <= 4 * halfUlp * (Qabs base + Qabs bonus + Qabs difficulty + 1).
Proof.
  unfold threshold, fadd, fsub.
  set (s1 := roundDouble (base + bonus)).
  set (s2 := roundDouble (s1 - difficulty)).
  near (base + bonus). near (s1 - difficulty). near (s2 + (1 # 2)).
  fold s1 in H. fold s2 in H1.
  set (s3 := roundDouble (s2 + (1 # 2))) in *.
  pose proof (Qabs_cases base). pose proof (Qabs_cases bonus).
  pose proof (Qabs_cases difficulty).
  apply Qabs_Qle_condition. unfold halfUlp in *.
  clearbody s1 s2 s3.
  set (a1 := Qabs (base + bonus)) in *. set (a2 := Qabs (s1 - difficulty)) in *.
  set (a3 := Qabs (s2 + (1 # 2))) in *. set (ab := Qabs base) in *.
  set (an := Qabs bonus) in *. set (ad := Qabs difficulty) in *.
  clearbody a1 a2 a3 ab an ad.
  intuition lra.
Qed.

(** C4, as stated, fails where the rounding of the threshold decides: with
    charisma 0.5, no effect, the difficulty one unit in the last place
    below 0.5 (a double, the one that [initNPCs] computes from the draw
    [0.25 - 2^-52]) and the roll 0.5, the roll is below
    [base + bonus - difficulty + 0.5], yet the check fails, the threshold
    on doubles being 0.5. *)
Lemma threshold_rounds_at_the_edge :
  roundDouble edgeDifficulty == edgeDifficulty
  /\ roundDouble edgeDraw == edgeDraw
  /\ roundDouble (2 # 5) +! edgeDraw *! roundDouble (2 # 5) == edgeDifficulty
  /\ skillBase initialGame "charisma" = 1 # 2
  /\ skillBonus "charisma" (statusEffects initialGame) = 0
  /\ (1 # 2) < (1 # 2) + 0 - edgeDifficulty + (1 # 2)
  /\ performSkillCheck (fun _ => 1 # 2) "charisma" edgeDifficulty initialGame
     = Return false (set_rngIx 1 initialGame)
  /\ ~ (performSkillCheck (fun _ => 1 # 2) "charisma" edgeDifficulty initialGame
        = Return true (set_rngIx 1 initialGame)
        <-> (1 # 2) < skillBase initialGame "charisma"
                      + skillBonus "charisma" (statusEffects initialGame)
                      - edgeDifficulty + (1 # 2)).
Proof.
  assert (Hrun : performSkillCheck (fun _ => 1 # 2) "charisma" edgeDifficulty initialGame
                 = Return false (set_rngIx 1 initialGame)) by (vm_compute; reflexivity).
  repeat match goal with |- _ /\ _ => split end; try (vm_compute; reflexivity).
  intros [_ H].
  assert (Hlt : (1 # 2) < skillBase initialGame "charisma"
                          + skillBonus "charisma" (statusEffects initialGame)
                          - edgeDifficulty + (1 # 2)) by (vm_compute; reflexivity).
  specialize (H Hlt). rewrite Hrun in H. discriminate.
Qed.



(** [roundDouble] against the machine's doubles, on the numbers above: the
    literals, a sum that rounds, the difficulty at the edge and the
    threshold there; and the two checks on the machine. *)
Example roundDouble_on_the_machine :
  Doubles.toQ Doubles.tenth = Some (roundDouble (1 # 10))
  /\ Doubles.toQ Doubles.smithDifficulty = Some scenarioDifficulty
  /\ Doubles.toQ Doubles.rollDrawn = Some (scenarioRoll 0%nat)
  /\ Doubles.toQ (PrimFloat.add Doubles.tenth Doubles.fifth)
     = Some (roundDouble (1 # 10) +! roundDouble (1 # 5))
  /\ Doubles.toQ Doubles.third = Some (1 /! 3)
  /\ Doubles.toQ Doubles.edgeDraw = Some (Qred edgeDraw)
  /\ Doubles.toQ Doubles.edgeDifficulty = Some (Qred edgeDifficulty)
  /\ Doubles.toQ (PrimFloat.add
                    (PrimFloat.sub (PrimFloat.add Doubles.charisma Doubles.noBonus)
                                   Doubles.edgeDifficulty) Doubles.half)
     = Some (threshold (1 # 2) 0 edgeDifficulty)
  /\ Doubles.skillCheckDouble Doubles.charisma Doubles.noBonus Doubles.edgeDifficulty
                              Doubles.half = false
  /\ Doubles.skillCheckDouble Doubles.charisma Doubles.noBonus Doubles.smithDifficulty
                              Doubles.rollDrawn = true.
Proof.
  repeat match goal with |- _ /\ _ => split end; vm_compute; reflexivity.
Qed.

(** ** Item grants (C7) *)

Lemma grantItem_owned (items : list Item) (g : Game) (id : string) :
  In id (inventory (player g)) -> grantItem items id g = g.
Proof.
  intros H. unfold grantItem. apply includes_In in H. now rewrite H.
Qed.

Lemma grantItems_cons (items : list Item) (g : Game) (id : string) (ids : list string) :
  grantItems items (id :: ids) g = grantItems items ids (grantItem items id g).
Proof. reflexivity. Qed.

(** What [grantItems] leaves alone. *)
Lemma grantItem_frame (items : list Item) (g : Game) (id : string) :
  let g' := grantItem items id g in
  talk g' = talk g /\ questsState g' = questsState g /\ objects g' = objects g
  /\ statusEffects g' = statusEffects g /\ rngIx g' = rngIx g
  /\ hp (player g') = hp (player g) /\ maxHp (player g') = maxHp (player g)
  /\ zones g' = zones g /\ npcs g' = npcs g /\ screen g' = screen g.
Proof.
  unfold grantItem. destruct (negb _); simpl; repeat split; reflexivity.
Qed.

Lemma grantItems_frame (items : list Item) (ids : list string) (g : Game) :
  let g' := grantItems items ids g in
  talk g' = talk g /\ questsState g' = questsState g /\ objects g' = objects g
  /\ statusEffects g' = statusEffects g /\ rngIx g' = rngIx g
  /\ hp (player g') = hp (player g) /\ maxHp (player g') = maxHp (player g)
  /\ zones g' = zones g /\ npcs g' = npcs g /\ screen g' = screen g.
Proof.
  revert g. induction ids as [|id ids IH]; intros g.
  - simpl. repeat split; reflexivity.
  - rewrite grantItems_cons. cbv zeta in *.
    destruct (IH (grantItem items id g)) as (a1 & a2 & a3 & a4 & a5 & a6 & a7 & a8 & a9 & a10).
    destruct (grantItem_frame items g id) as (b1 & b2 & b3 & b4 & b5 & b6 & b7 & b8 & b9 & b10).
    repeat split; etransitivity; eassumption.
Qed.

Lemma grantItem_gold_ge (items : list Item) (g : Game) (id : string) :
  gold (player g) <= gold (player (grantItem items id g)).
Proof.
  unfold grantItem. destruct (negb _); simpl; lra.
Qed.

Lemma grantItems_gold_ge (items : list Item) (ids : list string) (g : Game) :
  gold (player g) <= gold (player (grantItems items ids g)).
Proof.
  revert g. induction ids as [|id ids IH]; intros g.
  - simpl. lra.
  - rewrite grantItems_cons. eapply Qle_trans; [apply grantItem_gold_ge | apply IH].
Qed.

(** C7, as stated, fails: the first conversation gives the key and 5 gold
    (50 to 55); starting the conversation again grants the key again, the
    inventory stays as it is, and the gold stays at 55 instead of rising
    by 5. *)
Lemma regrant_awards_no_gold :
  inventory (player afterFirstTalk) = ["key"]
  /\ gold (player afterFirstTalk) == 55
  /\ inventory (player (final (startTalk [keyDialogue] [] smith afterFirstTalk))) = ["key"]
  /\ ~ gold (player (final (startTalk [keyDialogue] [] smith afterFirstTalk)))
       == gold (player afterFirstTalk) + 5.
Proof.
  repeat split; vm_compute; congruence.
Qed.

(** C7, amended. Granting item ids the player already owns changes nothing:
    the item is not re-added, no message is queued and no gold is awarded.
    The 5 gold come only with an id that is new to the inventory, which is
    then appended. *)
Theorem grantItems_gold_only_when_new (items : list Item) (g : Game) :
  (forall ids : list string,
      (forall id, In id ids -> In id (inventory (player g))) ->
      grantItems items ids g = g)
  /\ (forall id : string,
      ~ In id (inventory (player g)) ->
      inventory (player (grantItems items [id] g)) = (inventory (player g) ++ [id])%list
      /\ gold (player (grantItems items [id] g)) = gold (player g) + 5).
Proof.
  split.
  - intros ids. revert g. induction ids as [|id ids IH]; intros g H.
    + reflexivity.
    + rewrite grantItems_cons, grantItem_owned by (apply H; now left).
      apply IH. intros id' Hin. apply H. now right.
  - intros id Hnew. unfold grantItems; simpl. unfold grantItem.
    destruct (includes (inventory (player g)) id) eqn:E.
    + apply includes_In in E. contradiction.
    + simpl. split; reflexivity.
Qed.

Lemma grantItems_gold_only_when_new_witness :
  grantItems [] ["key"] afterFirstTalk = afterFirstTalk.
Proof.
  apply (proj1 (grantItems_gold_only_when_new [] afterFirstTalk) ["key"]).
  intros id Hin. vm_compute in Hin. vm_compute. exact Hin.
Defined.

(** ** Dialogue options (C3) *)

Lemma grantIfAny_talk (items : list Item) (ids : option (list string)) (g : Game) :
  talk (grantIfAny items ids g) = talk g.
Proof.
  destruct ids as [l|]; [|reflexivity]. apply (grantItems_frame items l g).
Qed.

Lemma findIndex_none_existsb {A} (p : A -> bool) (arr : list A) :
  findIndex p arr = None <-> existsb p arr = false.
Proof.
  induction arr as [|a rest IH]; simpl.
  - tauto.
  - destruct (p a); simpl.
    + split; discriminate.
    + destruct (findIndex p rest) as [[i b]|].
      * split; [discriminate|]. intros H. apply IH in H. discriminate.
      * split; [intros _; now apply IH | reflexivity].
Qed.

Lemma find_none_existsb {A} (p : A -> bool) (arr : list A) :
  find p arr = None <-> existsb p arr = false.
Proof.
  unfold find. rewrite <- findIndex_none_existsb.
  destruct (findIndex p arr); simpl; split; congruence.
Qed.

(** C3, as stated, fails in its second half: the option's [to_id] names no
    node of the dialogue, yet after selecting it the session is still open
    and still on the node it was on. *)
Lemma unresolved_target_keeps_session :
  resolves lonelyDialogue "n9" = false
  /\ (currentNode <$> talk lonelySession) = Some (Some lonelyNode)
  /\ talk (final (selectOption [] lonelyDialogue danglingOption lonelySession)) <> None
  /\ (currentNode <$> talk (final (selectOption [] lonelyDialogue danglingOption lonelySession)))
     = Some (Some lonelyNode).
Proof.
  repeat split; vm_compute; congruence.
Qed.

(** C3, amended. Selecting an option first grants the option's items. If
    the option has no [to_id] (absent or empty), the conversation then ends.
    If its [to_id] names no node of the dialogue, nothing more happens: the
    handler returns without error and the session stays open on the
    current node. *)
Theorem selectOption_without_target (items : list Item) (dialogue : Dialogue)
    (option : DOption) (g : Game) :
  (truthy (to_id option) = None ->
     selectOption items dialogue option g
       = Return tt (set_talk None (grantIfAny items (opt_grants_item_ids option) g))
     /\ talk (final (selectOption items dialogue option g)) = None)
  /\ (forall target : string,
        truthy (to_id option) = Some target ->
        resolves dialogue target = false ->
        selectOption items dialogue option g
          = Return tt (grantIfAny items (opt_grants_item_ids option) g)
        /\ talk (final (selectOption items dialogue option g)) = talk g).
Proof.
  split.
  - intros Hno. unfold selectOption. rewrite Hno.
    destruct (opt_grants_item_ids option); run; split; reflexivity.
  - intros target Htgt Hres. unfold selectOption. rewrite Htgt.
    apply find_none_existsb in Hres. rewrite Hres.
    destruct (opt_grants_item_ids option) as [l|] eqn:E; run.
    + split; [reflexivity|]. apply (grantItems_frame items l g).
    + split; reflexivity.
Qed.

Lemma selectOption_without_target_witness :
  talk (final (selectOption [] lonelyDialogue closingOption lonelySession)) = None
  /\ talk (final (selectOption [] lonelyDialogue danglingOption lonelySession))
     = talk lonelySession.
Proof.
  split.
  - apply (proj1 (selectOption_without_target [] lonelyDialogue closingOption lonelySession)).
    reflexivity.
  - apply (proj2 (selectOption_without_target [] lonelyDialogue danglingOption lonelySession)
             "n9"); reflexivity.
Defined.

(** ** Item spawning (C5) *)

Lemma onlyObjectsChange_refl (g : Game) : onlyObjectsChange g g.
Proof. unfold onlyObjectsChange. repeat split; reflexivity. Qed.

Lemma onlyObjectsChange_trans (g1 g2 g3 : Game) :
  onlyObjectsChange g1 g2 -> onlyObjectsChange g2 g3 -> onlyObjectsChange g1 g3.
Proof.
  unfold onlyObjectsChange.
  intros (a1 & a2 & a3 & a4 & a5 & a6 & a7 & a8) (b1 & b2 & b3 & b4 & b5 & b6 & b7 & b8).
  repeat split; etransitivity; eassumption.
Qed.

Section Spawning.

Variable dialoguesData : list Dialogue.
Variable random : nat -> Q.

(** One spawn either appends one pickup of the item, or throws on the
    zone read with [G.objects] as it was. *)
Lemma spawnOne_effect (id : string) (g : Game) :
  onlyObjectsChange g (final (spawnOne random id g))
  /\ ((exists o, spawnOne random id g = Return tt (final (spawnOne random id g))
                 /\ itemId o = id
                 /\ objects (final (spawnOne random id g)) = (objects g ++ [o])%list)
      \/ (spawnOne random id g = Throw (final (spawnOne random id g))
          /\ objects (final (spawnOne random id g)) = objects g)).
Proof.
  unfold spawnOne. run.
  destruct (at_Z (zones g) _) as [zone|]; simpl.
  - split; [unfold onlyObjectsChange; simpl; repeat split|].
    left. eexists. split; [reflexivity|]. split; [|reflexivity]. reflexivity.
  - split; [unfold onlyObjectsChange; simpl; repeat split|].
    right. split; reflexivity.
Qed.

(** A whole batch: the pickups appended carry the first ids of the batch,
    in order, all of them when no read of a zone throws. *)
Lemma spawnBatch_effect (ids : list string) (g : Game) :
  let out := forEach (spawnOne random) ids g in
  onlyObjectsChange g (final out)
  /\ exists objs : list WorldObject,
       objects (final out) = (objects g ++ objs)%list
       /\ (returns out = true -> map itemId objs = ids)
       /\ (forall o, In o objs -> In (itemId o) ids).
Proof.
  revert g. induction ids as [|id ids IH]; intros g; cbv zeta.
  - simpl. split; [apply onlyObjectsChange_refl|]. exists []. rewrite app_nil_r.
    repeat split. intros o [].
  - simpl. unfold bind.
    destruct (spawnOne_effect id g) as (Hfr & [(o & Heq & Hid & Hobj) | (Heq & Hobj)]).
    + rewrite Heq. rewrite Heq in Hfr, Hobj. simpl in Hfr, Hobj.
      destruct (IH (final (spawnOne random id g))) as (Hfr' & objs & Hobjs & Hret & Hin).
      rewrite Heq in *. simpl in *.
      split; [eapply onlyObjectsChange_trans; eassumption|].
      exists (o :: objs). rewrite Hobjs, Hobj, <- app_assoc. simpl.
      repeat split.
      * intros Hr. rewrite Hid. f_equal. now apply Hret.
      * intros o' [<- | Ho']; [now left | right; now apply Hin].
    + rewrite Heq. rewrite Heq in Hfr, Hobj. simpl in *.
      split; [assumption|]. exists []. rewrite app_nil_r.
      repeat split; [assumption | discriminate | intros o' []].
Qed.

Lemma spawnItemsForStep_frame (qs : QuestState) (stepIndex : nat) (g : Game) :
  onlyObjectsChange g (final (spawnItemsForStep dialoguesData random qs stepIndex g)).
Proof.
  unfold spawnItemsForStep. destruct (steps qs !! stepIndex) as [step|].
  - run. apply spawnBatch_effect.
  - apply onlyObjectsChange_refl.
Qed.

(** An id granted by a dialogue node is never spawned. *)
Lemma node_granted_never_spawned (qs : QuestState) (stepIndex : nat) (g : Game)
    (o : WorldObject) :
  grantedByDialogue dialoguesData (itemId o) = true ->
  In o (objects (final (spawnItemsForStep dialoguesData random qs stepIndex g))) ->
  In o (objects g).
Proof.
  intros Hgr. unfold spawnItemsForStep. destruct (steps qs !! stepIndex) as [step|]; [|tauto].
  run.
  destruct (spawnBatch_effect
              (List.filter (needsSpawn dialoguesData g) (default [] (requires_item_ids step))) g)
    as (_ & objs & Hobjs & _ & Hin).
  cbv zeta in Hobjs. rewrite Hobjs. intros Ho. apply in_app_or in Ho.
  destruct Ho as [Ho | Ho]; [assumption|].
  apply Hin in Ho. apply filter_In in Ho. destruct Ho as (_ & Hneed).
  unfold needsSpawn in Hneed. rewrite Hgr in Hneed. discriminate.
Qed.

Lemma existsb_itemId_app (id : string) (l1 l2 : list WorldObject) :
  existsb (fun o => String.eqb (itemId o) id) (l1 ++ l2)
  = existsb (fun o => String.eqb (itemId o) id) l1
    || existsb (fun o => String.eqb (itemId o) id) l2.
Proof. apply existsb_app. Qed.

(** Running the spawn of a step again, right after a run that returned,
    creates nothing: every id that needed a pickup now has one. *)
Lemma spawn_again_adds_nothing (qs : QuestState) (stepIndex : nat) (g g1 : Game) :
  spawnItemsForStep dialoguesData random qs stepIndex g = Return tt g1 ->
  spawnItemsForStep dialoguesData random qs stepIndex g1 = Return tt g1.
Proof.
  unfold spawnItemsForStep. destruct (steps qs !! stepIndex) as [step|]; [|reflexivity].
  run. intros Hrun.
  pose proof (spawnBatch_effect
                (List.filter (needsSpawn dialoguesData g) (default [] (requires_item_ids step))) g)
    as Heff.
  cbv zeta in Heff. rewrite Hrun in Heff. simpl in Heff.
  destruct Heff as ((Hpl & _) & objs & Hobjs & Hret & _).
  specialize (Hret eq_refl).
  assert (Hnone : List.filter (needsSpawn dialoguesData g1)
                              (default [] (requires_item_ids step)) = []).
  { set (reqs := default [] (requires_item_ids step)) in *. clearbody reqs.
    assert (Hall : forall id, In id reqs -> needsSpawn dialoguesData g1 id = false).
    { intros id Hid. unfold needsSpawn.
      destruct (needsSpawn dialoguesData g id) eqn:Hneed.
      - assert (Hin : In id (map itemId objs)).
        { rewrite Hret. apply filter_In. split; assumption. }
        apply in_map_iff in Hin. destruct Hin as (o & Hoid & Ho).
        rewrite Hobjs, existsb_itemId_app.
        assert (Hex : existsb (fun o => String.eqb (itemId o) id) objs = true).
        { apply existsb_exists. exists o. split; [assumption|].
          rewrite Hoid. apply String.eqb_refl. }
        rewrite Hex, orb_true_r. simpl.
        now rewrite !andb_false_r.
      - unfold needsSpawn in Hneed. rewrite Hpl, Hobjs, existsb_itemId_app.
        destruct (grantedByDialogue dialoguesData id); [reflexivity|].
        destruct (includes (inventory (player g)) id); [reflexivity|].
        simpl in Hneed. apply negb_false_iff in Hneed. rewrite Hneed. reflexivity. }
    clear - Hall. induction reqs as [|id reqs IH]; [reflexivity|].
    simpl. rewrite (Hall id) by now left.
    apply IH. intros id' Hid'. apply Hall. now right. }
  rewrite Hnone. reflexivity.
Qed.

End Spawning.

(** Without any zone the spawn of a needed item throws on [zone.x]: the
    quest is already marked in progress and no pickup exists. *)
Example spawn_without_zone_throws :
  returns (startQuest [keyDialogue] halfRoll "q1" noZones) = false
  /\ objects (final (startQuest [keyDialogue] halfRoll "q1" noZones)) = []
  /\ (status <$> questsState (final (startQuest [keyDialogue] halfRoll "q1" noZones)) !! 0%nat)
     = Some InProgress.
Proof.
  repeat split; vm_compute; reflexivity.
Qed.

(** C5 at the failing input. The gem is obtainable in dialogue: selecting
    the option puts it in the inventory. [grantedByDialogue] looks at node
    grants only, so it answers [false], and starting the quest spawns a gem
    pickup in the world. *)
Theorem option_granted_item_is_spawned :
  obtainableViaDialogue [gemDialogue] "gem" = true
  /\ inventory (player (final (selectOption [] gemDialogue gemOption
                                 (final (startTalk [gemDialogue] [] smith questsReady)))))
     = ["gem"]
  /\ grantedByDialogue [gemDialogue] "gem" = false
  /\ returns (startQuest [gemDialogue] halfRoll "q1" questsReady) = true
  /\ map itemId (objects (final (startQuest [gemDialogue] halfRoll "q1" questsReady)))
     = ["gem"].
Proof.
  repeat split; vm_compute; reflexivity.
Qed.

(** ** Starting a quest (C6) *)

Lemma findIndex_lookup {A} (p : A -> bool) (arr : list A) (i : nat) (a : A) :
  findIndex p arr = Some (i, a) -> arr !! i = Some a /\ p a = true.
Proof.
  revert i. induction arr as [|b rest IH]; intros i; simpl.
  - discriminate.
  - destruct (p b) eqn:E.
    + intros [= <- <-]. split; [reflexivity | assumption].
    + destruct (findIndex p rest) as [[j c]|]; [|discriminate].
      intros [= <- <-]. simpl. apply IH. reflexivity.
Qed.

(** C6, as stated, fails in its last part: starting the quest that is
    already in progress returns with the state as it was, the message
    queue included, so no message reaches the user. *)
Lemma restart_is_silent :
  (status <$> questsState questStarted !! 0%nat) = Some InProgress
  /\ startQuest [keyDialogue] halfRoll "q1" questStarted = Return tt questStarted
  /\ ~ (exists m, In m (messages (final (startQuest [keyDialogue] halfRoll "q1" questStarted)))
                  /\ ~ In m (messages questStarted)).
Proof.
  assert (E : startQuest [keyDialogue] halfRoll "q1" questStarted = Return tt questStarted)
    by (vm_compute; reflexivity).
  split; [vm_compute; reflexivity|]. split; [exact E|].
  rewrite E. unfold final. intros (m & Hin & Hnot). apply Hnot. exact Hin.
Qed.

(** C6, amended. [startQuest(id)] acts on the first quest with that id. If
    it is not started, its status becomes in-progress and its current step
    0, a message is queued, and item spawning runs for step 0. If it is in
    progress or completed, or if no quest has the id, the call returns
    with the whole state unchanged: status, current step, world pickups,
    and also the message queue, so the no-op is silent. *)
Theorem startQuest_only_from_not_started (dialogues : list Dialogue) (random : nat -> Q)
    (id : string) (g : Game) :
  (forall (i : nat) (qs : QuestState),
      findIndex (fun q => String.eqb (qs_id q) id) (questsState g) = Some (i, qs) ->
      (status qs = NotStarted ->
         let qs' := set_status_step InProgress 0 qs in
         let g1 := addMessage ("Started quest: " +:+ title qs) defaultDuration
                     (set_questsState (<[i := qs']> (questsState g)) g) in
         startQuest dialogues random id g = spawnItemsForStep dialogues random qs' 0 g1
         /\ questsState (final (startQuest dialogues random id g)) !! i = Some qs'
         /\ status qs' = InProgress /\ currentStep qs' = 0%nat)
      /\ (status qs <> NotStarted ->
         startQuest dialogues random id g = Return tt g))
  /\ (findIndex (fun q => String.eqb (qs_id q) id) (questsState g) = None ->
      startQuest dialogues random id g = Return tt g).
Proof.
  split.
  - intros i qs Hfind. split.
    + intros Hst qs' g1.
      assert (Hrun : startQuest dialogues random id g
                     = spawnItemsForStep dialogues random qs' 0 g1).
      { unfold startQuest. run. rewrite Hfind, Hst. reflexivity. }
      split; [exact Hrun|]. split; [|split; reflexivity].
      rewrite Hrun.
      destruct (spawnItemsForStep_frame dialogues random qs' 0 g1) as (_ & Hq & _).
      rewrite Hq. simpl.
      apply findIndex_lookup in Hfind. destruct Hfind as (Hlk & _).
      apply list_lookup_insert_eq. eapply lookup_lt_Some. exact Hlk.
    + intros Hst. unfold startQuest. run. rewrite Hfind.
      rewrite bool_decide_eq_false_2 by assumption. reflexivity.
  - intros Hnone. unfold startQuest. run. rewrite Hnone. reflexivity.
Qed.

Lemma startQuest_only_from_not_started_witness :
  startQuest [keyDialogue] halfRoll "q1" questStarted = Return tt questStarted
  /\ (status <$> questsState (final (startQuest [keyDialogue] halfRoll "q1" questsReady))
                 !! 0%nat) = Some InProgress.
Proof.
  pose (fresh := {| qs_id := "q1"; title := "The Gem"; is_main := true;
                    steps := q_steps gemQuest; status := NotStarted; currentStep := 0;
                    stepAssignments := ["npc_smith"; "npc_smith"] |}).
  assert (Hready : findIndex (fun q => String.eqb (qs_id q) "q1") (questsState questsReady)
                   = Some (0%nat, fresh)) by (vm_compute; reflexivity).
  assert (Hstarted : findIndex (fun q => String.eqb (qs_id q) "q1") (questsState questStarted)
                     = Some (0%nat, set_status_step InProgress 0 fresh))
    by (vm_compute; reflexivity).
  split.
  - refine (proj2 (proj1 (startQuest_only_from_not_started
                            [keyDialogue] halfRoll "q1" questStarted) _ _ Hstarted) _).
    simpl. discriminate.
  - destruct (proj1 (proj1 (startQuest_only_from_not_started
                              [keyDialogue] halfRoll "q1" questsReady) _ _ Hready)
                    eq_refl) as (_ & Hq & _).
    rewrite Hq. reflexivity.
Defined.

(** ** Status effects across frames (C1) *)

Lemma keepsEffects_ret {A} (a : A) : keepsEffects (ret a).
Proof. intros g. reflexivity. Qed.

Lemma keepsEffects_throw {A} : keepsEffects (@throw A).
Proof. intros g. reflexivity. Qed.

Lemma keepsEffects_get : keepsEffects get.
Proof. intros g. reflexivity. Qed.

Lemma keepsEffects_deref {A} (o : option A) : keepsEffects (deref o).
Proof. destruct o; intros g; reflexivity. Qed.

Lemma keepsEffects_modify (f : Game -> Game) :
  (forall g, statusEffects (f g) = statusEffects g) -> keepsEffects (modify f).
Proof. intros H g. apply H. Qed.

Lemma keepsEffects_bind {A B} (m : M A) (k : A -> M B) :
  keepsEffects m -> (forall a, keepsEffects (k a)) -> keepsEffects (bind m k).
Proof.
  intros Hm Hk g. unfold bind. specialize (Hm g).
  destruct (m g) as [a g'|g']; simpl in *.
  - rewrite Hk. exact Hm.
  - exact Hm.
Qed.

Lemma keepsEffects_forEach {A} (f : A -> M unit) (l : list A) :
  (forall a, keepsEffects (f a)) -> keepsEffects (forEach f l).
Proof.
  intros Hf. induction l as [|a l IH]; simpl.
  - apply keepsEffects_ret.
  - apply keepsEffects_bind; [apply Hf | intros _; exact IH].
Qed.

Lemma keepsEffects_random (random : nat -> Q) : keepsEffects (Math_random random).
Proof. intros g. reflexivity. Qed.

Lemma pickups_effects (items : list Item) (objs : list WorldObject) (g : Game) :
  statusEffects (snd (pickups items objs g)) = statusEffects g.
Proof.
  induction objs as [|obj rest IH]; simpl; [reflexivity|].
  destruct (pickups items rest g) as [rest' g1]. simpl in IH.
  destruct (_ <? _); [|exact IH].
  destruct (negb _); simpl; exact IH.
Qed.

(** Syntax-directed proof that a computation keeps the effects. *)
Ltac keeps_step :=
  lazymatch goal with
  | |- keepsEffects (bind _ _) => apply keepsEffects_bind; [|intros ?]
  | |- keepsEffects (ret _) => apply keepsEffects_ret
  | |- keepsEffects throw => apply keepsEffects_throw
  | |- keepsEffects get => apply keepsEffects_get
  | |- keepsEffects (deref _) => apply keepsEffects_deref
  | |- keepsEffects (Math_random _) => apply keepsEffects_random
  | |- keepsEffects (forEach _ _) => apply keepsEffects_forEach; intros ?
  | |- keepsEffects (if ?b then _ else _) => destruct b
  | |- keepsEffects (match ?o with Some _ => _ | None => _ end) => destruct o
  | |- keepsEffects (modify _) =>
      apply keepsEffects_modify; intros ?; reflexivity
  end.

Ltac keeps := repeat keeps_step.

Section Frames.

Variable inventoryData : list Item.
Variable random : nat -> Q.
Variable Math_cos Math_sin : Q -> Q.
Variable Math_PI : Q.

Lemma wanderNpc_effects (dt : Q) (i : nat) :
  keepsEffects (wanderNpc random Math_cos Math_sin Math_PI dt i).
Proof. unfold wanderNpc. keeps. Qed.

Lemma updateWorld_effects (dt : Q) :
  keepsEffects (updateWorld inventoryData random Math_cos Math_sin Math_PI dt).
Proof.
  unfold updateWorld. keeps.
  - apply wanderNpc_effects.
  - apply keepsEffects_modify. intros g.
    pose proof (pickups_effects inventoryData (objects g) g) as H.
    destruct (pickups inventoryData (objects g) g) as [objs g1]. exact H.
Qed.

Lemma updateInterior_effects (dt : Q) :
  keepsEffects (updateInterior random Math_cos Math_sin Math_PI dt).
Proof. unfold updateInterior. keeps. Qed.

Lemma update_effects (dt : Q) :
  keepsEffects (update inventoryData random Math_cos Math_sin Math_PI dt).
Proof.
  unfold update. keeps.
  - apply updateInterior_effects.
  - apply updateWorld_effects.
Qed.

Lemma frames_effects (n : nat) (dt : Q) :
  keepsEffects (frames inventoryData random Math_cos Math_sin Math_PI n dt).
Proof.
  induction n as [|n IH]; simpl.
  - apply keepsEffects_ret.
  - apply keepsEffects_bind; [apply update_effects | intros _; exact IH].
Qed.

End Frames.

(** The sibling timers do decay: a message survives a frame only with its
    time lowered by [dt] and still positive. *)
Lemma tickMessages_decays (dt : Q) (ms : list Message) (m : Message) :
  In m (tickMessages dt ms)
  <-> exists m0, In m0 ms
                 /\ m = {| msg_text := msg_text m0; msg_time := msg_time m0 - dt |}
                 /\ 0 < msg_time m0 - dt.
Proof.
  unfold tickMessages. rewrite filter_In, in_map_iff. split.
  - intros ((m0 & <- & Hin) & Hpos). exists m0. repeat split; [assumption|].
    apply Qltb_lt in Hpos. exact Hpos.
  - intros (m0 & Hin & -> & Hpos). split.
    + exists m0. split; [reflexivity | assumption].
    + apply Qltb_lt. exact Hpos.
Qed.

(** C1 on the code: [update(dt)] never writes [G.statusEffects]. Whatever
    the state and the frame time, the effects after a frame, and after any
    number of frames, are the ones before, with their [time] as it was. In
    the example a ten-second effect is still there, at ten seconds, after
    a thousand frames of 0.05 s (fifty seconds). *)
Theorem update_never_expires_effects :
  (forall (items : list Item) (random : nat -> Q) (cos sin : Q -> Q) (PI dt : Q) (g : Game),
      statusEffects (final (update items random cos sin PI dt g)) = statusEffects g)
  /\ (forall (items : list Item) (random : nat -> Q) (cos sin : Q -> Q) (PI dt : Q)
             (n : nat) (g : Game),
      statusEffects (final (frames items random cos sin PI n dt g)) = statusEffects g)
  /\ statusEffects (final (frames [] halfRoll (fun _ => 0) (fun _ => 0) 3 1000 (1 # 20) hasted))
     = [haste]
  /\ statusEffects (final (update [] halfRoll (fun _ => 0) (fun _ => 0) 3 (1 # 20) hasted))
     = [haste].
Proof.
  split; [|split; [|split]].
  - intros. apply update_effects.
  - intros. apply frames_effects.
  - apply frames_effects.
  - vm_compute. reflexivity.
Qed.

(** ** Quest initialisation without NPCs (C9) *)

Lemma assignSteps_no_npc (qIndex i : nat) (sts : list Step) (acc : list string) (g : Game) :
  npcs g = [] -> sts <> [] -> assignSteps qIndex i sts acc g = Throw g.
Proof.
  intros Hn Hs. destruct sts as [|st rest]; [contradiction|].
  simpl. run. unfold npcForStep. rewrite Hn. reflexivity.
Qed.

(** With no NPC, initialisation throws as soon as a quest has a step. *)
Lemma initQuestsFrom_no_npc (quests : list Quest) (qIndex : nat) (g : Game) :
  npcs g = [] ->
  (exists q, In q quests /\ q_steps q <> []) ->
  returns (initQuestsFrom qIndex quests g) = false.
Proof.
  revert qIndex g. induction quests as [|q rest IH]; intros qIndex g Hn (q0 & Hin & Hsteps).
  - destruct Hin.
  - simpl. unfold bind at 1.
    destruct (q_steps q) as [|st sts] eqn:Eq.
    + simpl. run. apply IH; [exact Hn|].
      destruct Hin as [-> | Hin]; [congruence|]. exists q0. split; assumption.
    + rewrite assignSteps_no_npc by (assumption || discriminate). reflexivity.
Qed.

(** C9 at the failing input: no NPC and one quest with steps. The index
    [(qIndex + i) % npcCount] is [NaN], the element read is [undefined],
    and [npc.id] throws; [G.questsState] is left empty. *)
Theorem initQuestsState_without_npcs_throws :
  npcs initialGame = []
  /\ q_steps gemQuest <> []
  /\ initQuestsState [gemQuest] initialGame = Throw (set_questsState [] initialGame)
  /\ (forall (quests : list Quest) (g : Game),
        npcs g = [] ->
        (exists q, In q quests /\ q_steps q <> []) ->
        returns (initQuestsState quests g) = false).
Proof.
  split; [reflexivity|]. split; [discriminate|]. split; [reflexivity|].
  intros quests g Hn Hq. unfold initQuestsState. run.
  apply initQuestsFrom_no_npc; assumption.
Qed.

Lemma initQuestsState_without_npcs_throws_witness :
  returns (initQuestsState [gemQuest] initialGame) = false.
Proof.
  apply (proj2 (proj2 (proj2 initQuestsState_without_npcs_throws)) [gemQuest] initialGame).
  - reflexivity.
  - exists gemQuest. split; [now left | discriminate].
Defined.

(** ** Collision push-out (C8) *)

(** A comparison that holds between two rounded numbers holds between the
    exact ones up to three half-ulps of either. *)
Lemma slack_left (a b A B : Q) :
  a - halfUlp * Qabs a <= A -> B <= b + halfUlp * Qabs b -> A <= B ->
  a <= b + 3 * halfUlp * Qabs a.
Proof.
  intros Ha Hb HAB. unfold halfUlp in *.
  destruct (Qabs_cases a) as [(? & Ea)|(? & Ea)];
    destruct (Qabs_cases b) as [(? & Eb)|(? & Eb)];
    rewrite Ea in *; rewrite Eb in *; lra.
Qed.

Lemma slack_right (a b A B : Q) :
  a - halfUlp * Qabs a <= A -> B <= b + halfUlp * Qabs b -> A <= B ->
  a <= b + 3 * halfUlp * Qabs b.
Proof.
  intros Ha Hb HAB. unfold halfUlp in *.
  destruct (Qabs_cases a) as [(? & Ea)|(? & Ea)];
    destruct (Qabs_cases b) as [(? & Eb)|(? & Eb)];
    rewrite Ea in *; rewrite Eb in *; lra.
Qed.

Lemma exact_near (a : Q) : a - halfUlp * Qabs a <= a <= a + halfUlp * Qabs a.
Proof. pose proof (Qabs_nonneg a). unfold halfUlp. lra. Qed.

Lemma epsilonOf_covers (rx ry rw rh : Q) :
  3 * halfUlp * Qabs rx <= epsilonOf rx ry rw rh
  /\ 3 * halfUlp * Qabs ry <= epsilonOf rx ry rw rh
  /\ 3 * halfUlp * Qabs (rx + rw) <= epsilonOf rx ry rw rh
  /\ 3 * halfUlp * Qabs (ry + rh) <= epsilonOf rx ry rw rh
  /\ 3 * halfUlp * (Qabs (rx + rw) + 16) <= epsilonOf rx ry rw rh
  /\ 3 * halfUlp * (Qabs (ry + rh) + 16) <= epsilonOf rx ry rw rh
  /\ halfUlp * (Qabs rx + 16) <= epsilonOf rx ry rw rh
  /\ halfUlp * (Qabs ry + 16) <= epsilonOf rx ry rw rh.
Proof.
  unfold epsilonOf, halfUlp.
  pose proof (Qabs_nonneg rx). pose proof (Qabs_nonneg ry).
  pose proof (Qabs_nonneg rw). pose proof (Qabs_nonneg rh).
  pose proof (Qabs_triangle rx rw). pose proof (Qabs_triangle ry rh).
  repeat split; lra.
Qed.

(** The box is clear of the rectangle, up to [eps], as soon as it is on
    one of its four sides. *)
Lemma overlapsBy_clear (eps : Q) (p : Player) (rx ry rw rh : Q) :
  x p + 16 <= rx + eps \/ rx + rw <= x p - 16 + eps
  \/ y p + 16 <= ry + eps \/ ry + rh <= y p - 16 + eps ->
  overlapsBy eps p rx ry rw rh = false.
Proof.
  unfold overlapsBy. intros [H|[H|[H|H]]]; apply Qltb_ge in H; rewrite H;
    rewrite ?andb_false_r; reflexivity.
Qed.

(** Where the code's own test finds no overlap there is none, up to the
    epsilon of the rectangle. *)
Lemma overlaps_false_clear (p : Player) (rx ry rw rh : Q) :
  overlaps p rx ry rw rh = false ->
  overlapsBy (epsilonOf rx ry rw rh) p rx ry rw rh = false.
Proof.
  unfold overlaps, fadd, fsub. intros H.
  destruct (epsilonOf_covers rx ry rw rh) as (Ex & Ey & Exw & Eyh & _).
  apply overlapsBy_clear.
  apply andb_false_iff in H. destruct H as [H|H].
  - apply andb_false_iff in H. destruct H as [H|H].
    + apply andb_false_iff in H. destruct H as [H|H]; apply Qltb_ge in H.
      * left.
        pose proof (slack_right (x p + 16) rx _ rx
                      (proj1 (roundDouble_near _)) (proj2 (exact_near rx)) H).
        lra.
      * right. left.
        pose proof (slack_left (rx + rw) (x p - 16) _ _
                      (proj1 (roundDouble_near _)) (proj2 (roundDouble_near _)) H).
        lra.
    + apply Qltb_ge in H. right. right. left.
      pose proof (slack_right (y p + 16) ry _ ry
                    (proj1 (roundDouble_near _)) (proj2 (exact_near ry)) H).
      lra.
  - apply Qltb_ge in H. right. right. right.
    pose proof (slack_left (ry + rh) (y p - 16) _ _
                  (proj1 (roundDouble_near _)) (proj2 (roundDouble_near _)) H).
    lra.
Qed.

(** The edge plus the half-extent, computed on doubles, is within the
    epsilon of the exact one. *)
Lemma pushed_low (r eps : Q) :
  halfUlp * (Qabs r + 16) <= eps -> (r -! 16) + 16 <= r + eps.
Proof.
  intros He. unfold fsub. near (r - 16).
  pose proof (Qabs_cases r). unfold halfUlp in *. intuition lra.
Qed.

Lemma pushed_high (r s eps : Q) :
  3 * halfUlp * (Qabs (r + s) + 16) <= eps -> r + s <= (r +! s +! 16) - 16 + eps.
Proof.
  intros He. unfold fadd.
  set (e1 := roundDouble (r + s)).
  near (r + s). near (e1 + 16). fold e1 in H.
  pose proof (Qabs_cases e1).
  set (e2 := roundDouble (e1 + 16)) in *. clearbody e1 e2.
  unfold halfUlp in *.
  set (a := Qabs (r + s)) in *. set (a1 := Qabs e1) in *. set (a2 := Qabs (e1 + 16)) in *.
  clearbody a a1 a2. intuition lra.
Qed.

Lemma pushOut_clears (p : Player) (rx ry rw rh : Q) :
  overlapsBy (epsilonOf rx ry rw rh) (pushOut p rx ry rw rh) rx ry rw rh = false.
Proof.
  destruct (epsilonOf_covers rx ry rw rh) as (_ & _ & _ & _ & Exw & Eyh & Ex & Ey).
  apply overlapsBy_clear. unfold pushOut. cbv zeta.
  destruct (_ <? _); destruct (_ <? _); cbn [x y set_xy].
  - left. now apply pushed_low.
  - right. left. now apply pushed_high.
  - right. right. left. now apply pushed_low.
  - right. right. right. now apply pushed_high.
Qed.




(** On the machine too a push can leave the code's own overlap test true:
    the rectangle's far edge 60.7 + 60 and the player pushed to it plus
    16. The model gives the same position and the same answer. *)
Example push_out_on_the_machine :
  let rock := {| ob_zoneIndex := 0; ob_x := roundDouble (607 # 10); ob_y := 100;
                 ob_width := 60; ob_height := 100 |} in
  let p := set_xy 125 150 initialPlayer in
  Doubles.toQ Doubles.pushedX = Some (x (collideObstacle p rock))
  /\ Doubles.stillOverlaps = true
  /\ overlapsObstacle (collideObstacle p rock) rock = true
  /\ overlapsObstacleBy (obstacleEpsilon rock) (collideObstacle p rock) rock = false.
Proof.
  repeat split; vm_compute; reflexivity.
Qed.

(** ** Health and gold (C10) *)

Section Preservation.

Variable I : Game -> Prop.

Lemma preserves_ret {A} (a : A) : preserves I (ret a).
Proof. intros g H. exact H. Qed.

Lemma preserves_throw {A} : preserves I (@throw A).
Proof. intros g H. exact H. Qed.

Lemma preserves_get : preserves I get.
Proof. intros g H. exact H. Qed.

Lemma preserves_deref {A} (o : option A) : preserves I (deref o).
Proof. destruct o; intros g H; exact H. Qed.

Lemma preserves_modify (f : Game -> Game) :
  (forall g, I g -> I (f g)) -> preserves I (modify f).
Proof. intros Hf g H. apply Hf. exact H. Qed.

Lemma preserves_bind {A B} (m : M A) (k : A -> M B) :
  preserves I m -> (forall a, preserves I (k a)) -> preserves I (bind m k).
Proof.
  intros Hm Hk g H. unfold bind. specialize (Hm g H).
  destruct (m g) as [a g'|g']; simpl in *.
  - apply Hk. exact Hm.
  - exact Hm.
Qed.

Lemma preserves_forEach {A} (f : A -> M unit) (l : list A) :
  (forall a, preserves I (f a)) -> preserves I (forEach f l).
Proof.
  intros Hf. induction l as [|a l IH]; simpl.
  - apply preserves_ret.
  - apply preserves_bind; [apply Hf | intros _; exact IH].
Qed.

End Preservation.

(** One syntax-directed step; calls of named functions and [modify] are
    left to the caller. *)
Ltac pres_step :=
  lazymatch goal with
  | |- preserves _ (bind _ _) => apply preserves_bind; [|intros ?]
  | |- preserves _ (ret _) => apply preserves_ret
  | |- preserves _ throw => apply preserves_throw
  | |- preserves _ get => apply preserves_get
  | |- preserves _ (deref _) => apply preserves_deref
  | |- preserves _ (forEach _ _) => apply preserves_forEach; intros ?
  | |- preserves _ (if ?b then _ else _) => destruct b
  | |- preserves _ (match ?o with Some _ => _ | None => _ end) => destruct o
  | |- preserves _ (let '(_, _) := ?p in _) => destruct p
  end.

Ltac pres := repeat pres_step.

Lemma healPlayer_vitals (toS : Q -> string) (amount : Q) (g : Game) :
  0 <= amount -> vitals g -> vitals (healPlayer toS amount g).
Proof.
  unfold vitals, healPlayer. simpl. intros Ha (Hg & Hh & Hm).
  split; [exact Hg|]. split.
  - apply Q.min_glb_lt; lra.
  - apply Q.le_min_l.
Qed.

Lemma damagePlayer_vitals (amount : Q) (g : Game) :
  0 <= amount -> vitals g -> vitals (damagePlayer amount g).
Proof.
  unfold vitals, damagePlayer. simpl. intros Ha (Hg & Hh & Hm).
  destruct (hp (player g) - amount <=? 0) eqn:E; simpl.
  - split; [apply Q.le_max_l|]. split; lra.
  - apply Qleb_gt in E. split; [exact Hg|]. split; lra.
Qed.

Lemma addMessage_vitals (txt : string) (d : Q) (g : Game) :
  vitals g -> vitals (addMessage txt d g).
Proof. intros H. exact H. Qed.

Lemma grantItems_vitals (items : list Item) (ids : list string) (g : Game) :
  vitals g -> vitals (grantItems items ids g).
Proof.
  unfold vitals. intros (Hg & Hh & Hm).
  destruct (grantItems_frame items ids g) as (_ & _ & _ & _ & _ & Ehp & Emax & _).
  rewrite Ehp, Emax. split; [|split; assumption].
  eapply Qle_trans; [exact Hg | apply grantItems_gold_ge].
Qed.

Lemma purchaseItem_vitals (item : Item) : preserves vitals (purchaseItem item).
Proof.
  intros g Hv. unfold purchaseItem.
  generalize (getItemPrice item). intros price. unfold bind, get, modify, deref, ret, throw.
  destruct (price <=? gold (player g)) eqn:E; [|exact Hv].
  apply Qleb_le in E. destruct Hv as (Hg & Hh & Hm).
  destruct (shopStock g); unfold vitals; simpl; (split; [lra | split; assumption]).
Qed.

Lemma deliverInfoFrom_state (inv : list string) (npcId : string) (qss : list QuestState)
    (i : nat) (g : Game) :
  final (deliverInfoFrom inv npcId qss i g) = g.
Proof.
  revert i. induction qss as [|qs rest IH]; intros i; simpl; [reflexivity|].
  destruct (bool_decide (status qs = InProgress)); [|apply IH].
  destruct (bool_decide (_ = Some npcId)); [|apply IH].
  run. destruct (steps qs !! currentStep qs) as [step|]; simpl; [|reflexivity].
  destruct (forallb _ _); [reflexivity | apply IH].
Qed.

Lemma getDeliverInfoForNPC_state (npcId : string) (g : Game) :
  final (getDeliverInfoForNPC npcId g) = g.
Proof. unfold getDeliverInfoForNPC. run. apply deliverInfoFrom_state. Qed.

Lemma performSkillCheck_state (random : nat -> Q) (sk : string) (d : Q) (g : Game) :
  final (performSkillCheck random sk d g) = set_rngIx (S (rngIx g)) g.
Proof. reflexivity. Qed.

Lemma spawnItemsForStep_vitals (dialogues : list Dialogue) (random : nat -> Q)
    (qs : QuestState) (i : nat) :
  preserves vitals (spawnItemsForStep dialogues random qs i).
Proof.
  intros g Hv. destruct (spawnItemsForStep_frame dialogues random qs i g) as (Hp & _).
  unfold vitals. rewrite Hp. exact Hv.
Qed.

Lemma finishQuestStepsOnTalk_vitals (dialogues : list Dialogue) (random : nat -> Q)
    (npcId : string) :
  preserves vitals (finishQuestStepsOnTalk dialogues random npcId).
Proof.
  unfold finishQuestStepsOnTalk.
  apply preserves_bind.
  { intros g Hv. rewrite getDeliverInfoForNPC_state. exact Hv. }
  intros [[qi stepIdx]|]; [|apply preserves_modify; intros g Hv; exact Hv].
  pres.
  - intros g Hv. rewrite performSkillCheck_state. exact Hv.
  - apply preserves_modify. intros g Hv. exact Hv.
  - apply preserves_modify. intros g Hv. exact Hv.
  - apply preserves_modify. intros g Hv. apply damagePlayer_vitals; [lra | exact Hv].
  - apply preserves_modify. intros g Hv. exact Hv.
  - apply preserves_modify. intros g Hv. exact Hv.
  - apply preserves_modify. intros g Hv. exact Hv.
  - apply preserves_modify. intros g Hv. exact Hv.
  - apply preserves_modify. intros g (Hg & Hh & Hm). unfold vitals. simpl.
    split; [lra | split; assumption].
  - apply preserves_modify. intros g Hv. exact Hv.
  - apply preserves_modify. intros g (Hg & Hh & Hm). unfold vitals. simpl.
    split; [lra | split; assumption].
  - apply spawnItemsForStep_vitals.
Qed.

(** C10. Every operation that writes [hp] or [gold] keeps [gold >= 0] and
    [0 < hp <= maxHp], whether it returns or throws, and the state at
    start-up satisfies them. Healing sets [hp] to
    [min(maxHp, hp + amount)]. Damage that brings [hp] to zero or below
    sets [hp] to [maxHp], puts the player at the centre of the screen and
    takes 10 gold, not going below zero; other damage only lowers [hp].
    A purchase debits the price when [gold >= price] and leaves the player
    untouched otherwise. A delivery whose check fails at 10 hp ends with
    10 gold less than one whose check passes. *)
Theorem hp_gold_bounds_preserved :
  vitals initialGame
  /\ (forall (dialogues : list Dialogue) (items : list Item) (random : nat -> Q)
             (toS : Q -> string) (op : Operation) (g : Game),
        nonNegative op -> vitals g ->
        vitals (final (perform dialogues items random toS op g)))
  /\ (forall (toS : Q -> string) (amount : Q) (g : Game),
        hp (player (healPlayer toS amount g))
          = Qmin (maxHp (player g)) (hp (player g) + amount)
        /\ hp (player (healPlayer toS amount g)) <= maxHp (player g)
        /\ gold (player (healPlayer toS amount g)) = gold (player g))
  /\ (forall (amount : Q) (g : Game),
        hp (player g) - amount <= 0 ->
        hp (player (damagePlayer amount g)) = maxHp (player g)
        /\ x (player (damagePlayer amount g)) = w (screen g) / 2
        /\ y (player (damagePlayer amount g)) = h (screen g) / 2
        /\ gold (player (damagePlayer amount g)) = Qmax 0 (gold (player g) - 10)
        /\ 0 <= gold (player (damagePlayer amount g)))
  /\ (forall (amount : Q) (g : Game),
        0 < hp (player g) - amount ->
        player (damagePlayer amount g) = set_hp (hp (player g) - amount) (player g))
  /\ (forall (item : Item) (g : Game),
        (getItemPrice item <= gold (player g) ->
           gold (player (final (purchaseItem item g))) = gold (player g) - getItemPrice item)
        /\ (gold (player g) < getItemPrice item ->
           player (final (purchaseItem item g)) = player g))
  /\ (gold (player lastBreath) == 50
      /\ gold (player (final (finishQuestStepsOnTalk [keyDialogue] badRoll "npc_smith"
                                lastBreath))) == 60
      /\ gold (player (final (finishQuestStepsOnTalk [keyDialogue] goodRoll "npc_smith"
                                lastBreath))) == 70).
Proof.
  split; [|split; [|split; [|split; [|split; [|split]]]]].
  - unfold vitals. simpl. lra.
  - intros dialogues items random toS op g Hop Hv. destruct op; simpl in *.
    + apply healPlayer_vitals; assumption.
    + apply damagePlayer_vitals; assumption.
    + apply purchaseItem_vitals. exact Hv.
    + apply grantItems_vitals. exact Hv.
    + apply finishQuestStepsOnTalk_vitals. exact Hv.
  - intros toS amount g. unfold healPlayer. simpl.
    split; [reflexivity|]. split; [apply Q.le_min_l | reflexivity].
  - intros amount g H. apply Qleb_le in H. unfold damagePlayer. simpl.
    rewrite H. simpl. repeat split. apply Q.le_max_l.
  - intros amount g H. apply Qleb_gt in H. unfold damagePlayer. simpl.
    rewrite H. reflexivity.
  - intros item g. unfold purchaseItem.
    generalize (getItemPrice item). intros price.
    unfold bind, get, modify, deref, ret, throw. split; intros H.
    + apply Qleb_le in H. rewrite H. destruct (shopStock g); reflexivity.
    + apply Qleb_gt in H. rewrite H. reflexivity.
  - repeat split; vm_compute; reflexivity.
Qed.

Lemma hp_gold_bounds_preserved_witness :
  vitals (final (perform [] [] halfRoll (fun _ => "10") (Damage 10) initialGame)).
Proof.
  apply (proj1 (proj2 hp_gold_bounds_preserved)).
  - simpl. lra.
  - exact (proj1 hp_gold_bounds_preserved).
Defined.

(** ** Delivery (C2) *)

Lemma occurrences_In (id : string) (inv : list string) :
  In id inv <-> (0 < occurrences id inv)%nat.
Proof.
  unfold occurrences. induction inv as [|a rest IH]; simpl.
  - split; [tauto | lia].
  - destruct (String.eqb_spec id a) as [->|Hne]; simpl.
    + split; [lia | now left].
    + rewrite <- IH. split; [intros [E|H]; [congruence | exact H] | now right].
Qed.

Lemma occurrences_removeFirst_same (id : string) (inv : list string) :
  In id inv -> occurrences id inv = S (occurrences id (removeFirst id inv)).
Proof.
  unfold occurrences. induction inv as [|a rest IH]; simpl; [tauto|].
  intros Hin. destruct (String.eqb_spec a id) as [->|Hne].
  - now rewrite String.eqb_refl.
  - destruct Hin as [E|Hin]; [congruence|].
    simpl. destruct (String.eqb id a); simpl; rewrite IH by assumption; reflexivity.
Qed.

Lemma occurrences_removeFirst_other (id a : string) (inv : list string) :
  a <> id -> occurrences id (removeFirst a inv) = occurrences id inv.
Proof.
  unfold occurrences. intros Hne. induction inv as [|b rest IH]; simpl; [reflexivity|].
  destruct (String.eqb_spec b a) as [->|Hba].
  - destruct (String.eqb_spec id a) as [E|_]; [congruence | reflexivity].
  - simpl. destruct (String.eqb id b); simpl; now rewrite IH.
Qed.

Lemma occurrences_removeFirst_le (id a : string) (inv : list string) :
  (occurrences id (removeFirst a inv) <= occurrences id inv)%nat.
Proof.
  destruct (String.eqb_spec a id) as [->|Hne].
  - destruct (in_dec String.string_dec id inv) as [Hin|Hout].
    + rewrite (occurrences_removeFirst_same id inv Hin). lia.
    + assert (E : removeFirst id inv = inv).
      { clear -Hout. induction inv as [|b rest IH]; simpl; [reflexivity|].
        destruct (String.eqb_spec b id) as [->|Hb].
        - exfalso. apply Hout. now left.
        - f_equal. apply IH. intros H. apply Hout. now right. }
      rewrite E. lia.
  - rewrite occurrences_removeFirst_other by assumption. lia.
Qed.

Lemma occurrences_removeAll_le (id : string) (reqs inv : list string) :
  (occurrences id (foldl (fun acc r => removeFirst r acc) inv reqs) <= occurrences id inv)%nat.
Proof.
  revert inv. induction reqs as [|r rest IH]; intros inv; simpl; [lia|].
  etransitivity; [apply IH | apply occurrences_removeFirst_le].
Qed.

(** Each required id that is held loses at least one copy. *)
Lemma occurrences_removeAll_lt (id : string) (reqs inv : list string) :
  In id reqs -> In id inv ->
  (occurrences id (foldl (fun acc r => removeFirst r acc) inv reqs) < occurrences id inv)%nat.
Proof.
  revert inv. induction reqs as [|r rest IH]; intros inv Hreq Hinv; simpl; [destruct Hreq|].
  destruct (String.eqb_spec r id) as [->|Hne].
  - rewrite (occurrences_removeFirst_same id inv Hinv).
    pose proof (occurrences_removeAll_le id rest (removeFirst id inv)). lia.
  - destruct Hreq as [E|Hreq]; [congruence|].
    rewrite <- (occurrences_removeFirst_other id r inv Hne).
    apply IH; [assumption|].
    apply occurrences_In. rewrite occurrences_removeFirst_other by assumption.
    now apply occurrences_In.
Qed.

Lemma occurrences_NoDup (id : string) (inv : list string) :
  List.NoDup inv -> (occurrences id inv <= 1)%nat.
Proof.
  induction 1 as [|a rest Hout _ IH]; [unfold occurrences; simpl; lia|].
  assert (Hstep : occurrences id (a :: rest)
                  = if String.eqb id a then S (occurrences id rest)
                    else occurrences id rest).
  { unfold occurrences. simpl. destruct (String.eqb id a); reflexivity. }
  rewrite Hstep. destruct (String.eqb_spec id a) as [->|Hne]; [|exact IH].
  assert (Hzero : occurrences a rest = 0%nat).
  { destruct (occurrences a rest) eqn:E; [reflexivity|].
    exfalso. apply Hout, occurrences_In. lia. }
  lia.
Qed.

(** What a successful [getDeliverInfoForNPC] tells: the quest returned is
    in progress, the NPC is the assignee of its current step, and the
    player holds every required item of that step. *)
Lemma deliverInfoFrom_some (inv : list string) (npcId : string) (qss : list QuestState)
    (i qi stepIdx : nat) (g g' : Game) :
  deliverInfoFrom inv npcId qss i g = Return (Some (qi, stepIdx)) g' ->
  (i <= qi)%nat
  /\ exists qs step,
       qss !! (qi - i)%nat = Some qs
       /\ status qs = InProgress /\ currentStep qs = stepIdx
       /\ stepAssignments qs !! stepIdx = Some npcId
       /\ steps qs !! stepIdx = Some step
       /\ forallb (includes inv) (default [] (requires_item_ids step)) = true.
Proof.
  revert i. induction qss as [|qs rest IH]; intros i; simpl.
  - unfold ret. discriminate.
  - assert (Hnext : deliverInfoFrom inv npcId rest (S i) g = Return (Some (qi, stepIdx)) g' ->
                    (i <= qi)%nat
                    /\ exists qs0 step,
                         (qs :: rest) !! (qi - i)%nat = Some qs0
                         /\ status qs0 = InProgress /\ currentStep qs0 = stepIdx
                         /\ stepAssignments qs0 !! stepIdx = Some npcId
                         /\ steps qs0 !! stepIdx = Some step
                         /\ forallb (includes inv) (default [] (requires_item_ids step)) = true).
    { intros H. apply IH in H. destruct H as (Hle & qs0 & step & Hlk & Hrest).
      split; [lia|]. exists qs0, step. split; [|exact Hrest].
      replace (qi - i)%nat with (S (qi - S i)) by lia. exact Hlk. }
    destruct (bool_decide (status qs = InProgress)) eqn:Est; [|exact Hnext].
    destruct (bool_decide (stepAssignments qs !! currentStep qs = Some npcId)) eqn:Eas;
      [|exact Hnext].
    unfold bind, deref.
    destruct (steps qs !! currentStep qs) as [step|] eqn:Estep; [|unfold throw; discriminate].
    unfold ret at 1.
    destruct (forallb _ _) eqn:Eall; [|exact Hnext].
    unfold ret. intros [= <- <- <-].
    split; [lia|]. exists qs, step. rewrite Nat.sub_diag. simpl.
    apply bool_decide_eq_true in Est, Eas. repeat split; assumption.
Qed.

Lemma damagePlayer_frame (amount : Q) (g : Game) :
  questsState (damagePlayer amount g) = questsState g
  /\ inventory (player (damagePlayer amount g)) = inventory (player g)
  /\ rngIx (damagePlayer amount g) = rngIx g
  /\ objects (damagePlayer amount g) = objects g.
Proof.
  unfold damagePlayer. destruct (_ <=? _); simpl; repeat split; reflexivity.
Qed.

Lemma damagePlayer_after_message (amount : Q) (txt : string) (d : Q) (n : nat) (g : Game) :
  player (damagePlayer amount (addMessage txt d (set_rngIx n g)))
  = player (damagePlayer amount g).
Proof.
  unfold damagePlayer. simpl. destruct (_ <=? _); reflexivity.
Qed.

Section Delivery.

Variable dialoguesData : list Dialogue.
Variable random : nat -> Q.

(** The run of a delivery, step by step. *)
Lemma deliver_run (npcId : string) (g : Game)
    (qi stepIdx : nat) (npc : Npc) :
  getDeliverInfoForNPC npcId g = Return (Some (qi, stepIdx)) g ->
  find (fun n => String.eqb (npc_id n) npcId) (npcs g) = Some npc ->
  exists (qs : QuestState) (step : Step),
    questsState g !! qi = Some qs
    /\ status qs = InProgress /\ currentStep qs = stepIdx
    /\ stepAssignments qs !! stepIdx = Some npcId
    /\ steps qs !! stepIdx = Some step
    /\ (forall id, In id (default [] (requires_item_ids step)) -> In id (inventory (player g)))
    /\ let reqs := default [] (requires_item_ids step) in
       let success := random (rngIx g)
                        <? threshold (skillBase g (skill npc))
                                     (bonusLoop (skill npc) 0 (statusEffects g))
                                     (difficulty npc) in
       let g1 := set_rngIx (S (rngIx g)) g in
       let g2 := if success
                 then addMessage ("Skill check passed (" +:+ skill npc +:+ ")")
                                 defaultDuration g1
                 else damagePlayer 10
                        (addMessage ("Skill check failed (" +:+ skill npc +:+ ")")
                                    defaultDuration g1) in
       let g3 := removeRequired reqs g2 in
       let last := (S stepIdx =? length (steps qs))%nat in
       let qs' := set_status_step (if last then Completed else InProgress) (S stepIdx) qs in
       let g4 := set_questsState (<[qi := qs']> (questsState g)) g3 in
       let out := finishQuestStepsOnTalk dialoguesData random npcId g in
       out = (if last
              then Return tt (addGold 50 (addMessage ("Quest completed: " +:+ title qs)
                                                     defaultDuration g4))
              else spawnItemsForStep dialoguesData random qs' (S stepIdx)
                     (addGold 20 (addMessage ("Step completed: " +:+ goal step)
                                             defaultDuration g4)))
       /\ questsState (final out) !! qi = Some qs'
       /\ inventory (player (final out))
          = foldl (fun acc r => removeFirst r acc) (inventory (player g)) reqs
       /\ (forall id, In id reqs ->
             (occurrences id (inventory (player (final out)))
              < occurrences id (inventory (player g)))%nat)
       /\ (List.NoDup (inventory (player g)) ->
           forall id, In id reqs -> ~ In id (inventory (player (final out))))
       /\ gold (player (final out)) = gold (player g2) + (if last then 50 else 20)
       /\ (hp (player (final out)) = hp (player g2)
           /\ x (player (final out)) = x (player g2)
           /\ y (player (final out)) = y (player g2))
       /\ (success = true -> player g2 = player g)
       /\ (success = false -> player g2 = player (damagePlayer 10 g))
       /\ (last = true -> rngIx (final out) = S (rngIx g)).
Proof.
  intros Hinfo Hnpc.
  pose proof Hinfo as Hsome. unfold getDeliverInfoForNPC in Hsome.
  unfold bind, get in Hsome.
  apply deliverInfoFrom_some in Hsome.
  destruct Hsome as (_ & qs & step & Hqs & Hst & Hcur & Hasg & Hstep & Hall).
  rewrite Nat.sub_0_r in Hqs.
  exists qs, step.
  assert (Hheld : forall id, In id (default [] (requires_item_ids step)) ->
                             In id (inventory (player g))).
  { intros id Hid. apply includes_In. rewrite forallb_forall in Hall. now apply Hall. }
  repeat (split; [assumption|]).
  cbv zeta.
  set (reqs := default [] (requires_item_ids step)) in *.
  assert (Hlt : (stepIdx < length (steps qs))%nat) by (eapply lookup_lt_Some; exact Hstep).
  assert (Hlast : (length (steps qs) <=? S stepIdx)%nat = (S stepIdx =? length (steps qs))%nat).
  { destruct (Nat.leb_spec (length (steps qs)) (S stepIdx));
      destruct (Nat.eqb_spec (S stepIdx) (length (steps qs))); (reflexivity || lia). }
  pose proof (performSkillCheck_run random g (skill npc) (difficulty npc)) as Hcheck.
  revert Hcheck.
  generalize (random (rngIx g)
                <? threshold (skillBase g (skill npc))
                     (bonusLoop (skill npc) 0 (statusEffects g)) (difficulty npc)).
  intros success Hcheck.
  assert (Hrun :
    finishQuestStepsOnTalk dialoguesData random npcId g
    = (if (S stepIdx =? length (steps qs))%nat
       then Return tt (addGold 50 (addMessage ("Quest completed: " +:+ title qs)
              defaultDuration
              (set_questsState
                 (<[qi := set_status_step Completed (S stepIdx) qs]> (questsState g))
                 (removeRequired reqs
                    (if success
                     then addMessage ("Skill check passed (" +:+ skill npc +:+ ")")
                            defaultDuration (set_rngIx (S (rngIx g)) g)
                     else damagePlayer 10
                            (addMessage ("Skill check failed (" +:+ skill npc +:+ ")")
                               defaultDuration (set_rngIx (S (rngIx g)) g)))))))
       else spawnItemsForStep dialoguesData random
              (set_status_step InProgress (S stepIdx) qs) (S stepIdx)
              (addGold 20 (addMessage ("Step completed: " +:+ goal step)
              defaultDuration
              (set_questsState
                 (<[qi := set_status_step InProgress (S stepIdx) qs]> (questsState g))
                 (removeRequired reqs
                    (if success
                     then addMessage ("Skill check passed (" +:+ skill npc +:+ ")")
                            defaultDuration (set_rngIx (S (rngIx g)) g)
                     else damagePlayer 10
                            (addMessage ("Skill check failed (" +:+ skill npc +:+ ")")
                               defaultDuration (set_rngIx (S (rngIx g)) g))))))))).
  { unfold reqs.
    cbv beta iota zeta delta [finishQuestStepsOnTalk bind get ret modify deref throw].
    rewrite Hinfo. cbv beta iota. rewrite Hqs, Hnpc. cbv beta iota.
    rewrite Hcheck. cbv beta iota.
    rewrite Hstep.
    cbn [steps currentStep title status set_status_step].
    rewrite Hcur, Hst, Hlast.
    destruct success; cbv beta iota.
    all: match goal with
         | |- context [removeRequired _ ?st] =>
             assert (Hq2 : questsState st = questsState g)
               by (try rewrite (proj1 (damagePlayer_frame 10 _)); reflexivity);
             generalize dependent st
         end.
    all: intros g2 Hq2.
    all: destruct (S stepIdx =? length (steps qs))%nat; cbv beta iota.
    all: unfold addGold;
         cbn [questsState set_questsState removeRequired set_player
              addMessage set_messages];
         rewrite Hq2, ?list_insert_insert_eq; reflexivity. }
  clear Hcheck.
  set (g2 := if success
             then addMessage ("Skill check passed (" +:+ skill npc +:+ ")")
                    defaultDuration (set_rngIx (S (rngIx g)) g)
             else damagePlayer 10
                    (addMessage ("Skill check failed (" +:+ skill npc +:+ ")")
                       defaultDuration (set_rngIx (S (rngIx g)) g))) in *.
  assert (Hinv2 : inventory (player g2) = inventory (player g)).
  { subst g2. destruct success; [reflexivity|].
    rewrite (proj1 (proj2 (damagePlayer_frame 10 _))). reflexivity. }
  assert (Hrng2 : rngIx g2 = S (rngIx g)).
  { subst g2. destruct success; [reflexivity|].
    rewrite (proj1 (proj2 (proj2 (damagePlayer_frame 10 _)))). reflexivity. }
  assert (Hpass : success = true -> player g2 = player g).
  { intros E. subst g2. rewrite E. reflexivity. }
  assert (Hfail : success = false -> player g2 = player (damagePlayer 10 g)).
  { intros E. subst g2. rewrite E. apply damagePlayer_after_message. }
  set (last := (S stepIdx =? length (steps qs))%nat) in *.
  set (qs' := set_status_step (if last then Completed else InProgress) (S stepIdx) qs).
  set (before := addGold (if last then 50 else 20)
                   (addMessage (if last then "Quest completed: " +:+ title qs
                                else "Step completed: " +:+ goal step)
                      defaultDuration
                      (set_questsState (<[qi := qs']> (questsState g))
                         (removeRequired reqs g2)))).
  assert (Hfin : player (final (finishQuestStepsOnTalk dialoguesData random npcId g))
                 = player before
                 /\ questsState (final (finishQuestStepsOnTalk dialoguesData random npcId g))
                    = questsState before
                 /\ (last = true ->
                     rngIx (final (finishQuestStepsOnTalk dialoguesData random npcId g))
                     = rngIx before)).
  { rewrite Hrun. subst before qs'. destruct last.
    - repeat split; reflexivity.
    - match goal with
      | |- context [final (spawnItemsForStep ?d ?r ?q ?i ?st)] =>
          destruct (spawnItemsForStep_frame d r q i st) as (Hp & Hq & _)
      end.
      rewrite Hp, Hq. repeat split; try reflexivity. discriminate. }
  destruct Hfin as (Hp & Hq & Hr).
  split.
  { rewrite Hrun. subst qs'. destruct last; reflexivity. }
  rewrite Hp, Hq.
  assert (Hbinv : inventory (player before)
                  = foldl (fun acc r => removeFirst r acc) (inventory (player g)) reqs).
  { subst before. unfold addGold, removeRequired. simpl. rewrite Hinv2. reflexivity. }
  rewrite Hbinv.
  split.
  { subst before. unfold addGold. simpl.
    apply list_lookup_insert_eq. eapply lookup_lt_Some. exact Hqs. }
  split; [reflexivity|].
  split.
  { intros id Hid. apply occurrences_removeAll_lt; [exact Hid | now apply Hheld]. }
  split.
  { intros Hnd id Hid Hin.
    pose proof (occurrences_removeAll_lt id reqs (inventory (player g)) Hid (Hheld id Hid)).
    pose proof (occurrences_NoDup id (inventory (player g)) Hnd).
    apply occurrences_In in Hin. lia. }
  split.
  { subst before. unfold addGold, removeRequired. destruct last; reflexivity. }
  split.
  { subst before. unfold addGold, removeRequired. repeat split. }
  split; [exact Hpass|]. split; [exact Hfail|].
  intros E. rewrite (Hr E). subst before. unfold addGold, removeRequired. simpl. exact Hrng2.
Qed.

(** What [damagePlayer] does, spelled out. *)
Lemma damagePlayer_explicit (amount : Q) (g : Game) :
  damagePlayer amount g
  = let p := player g in
    if hp p - amount <=? 0
    then addMessage "You fainted! Lost some gold." defaultDuration
           (set_player
              (set_gold (Qmax 0 (gold p - 10))
                 (set_xy (w (screen g) / 2) (h (screen g) / 2) (set_hp (maxHp p) p))) g)
    else set_player (set_hp (hp p - amount) p) g.
Proof.
  unfold damagePlayer. cbv zeta. cbn [player set_player hp set_hp].
  destruct (_ <=? _); reflexivity.
Qed.


End Delivery.

(** C2, as stated, fails for an item held twice: with the gem in hand and
    a second one bought in the shop, the delivery takes one gem and the
    other stays in the inventory. *)
Lemma bought_duplicate_stays :
  inventory (player gemBoughtAgain) = ["gem"; "gem"]
  /\ getDeliverInfoForNPC "npc_smith" gemBoughtAgain
     = Return (Some (0%nat, 0%nat)) gemBoughtAgain
  /\ ((fun qs => requires_item_ids <$> steps qs !! 0%nat) <$> questsState gemBoughtAgain !! 0%nat)
     = Some (Some (Some ["gem"]))
  /\ inventory (player (final (finishQuestStepsOnTalk [keyDialogue] goodRoll "npc_smith"
                                 gemBoughtAgain))) = ["gem"]
  /\ inventory (player (final (finishQuestStepsOnTalk [keyDialogue] badRoll "npc_smith"
                                 gemBoughtAgain))) = ["gem"]
  /\ In "gem" (inventory (player (final (finishQuestStepsOnTalk [keyDialogue] goodRoll
                                           "npc_smith" gemBoughtAgain)))).
Proof.
  assert (Hleft : inventory (player (final (finishQuestStepsOnTalk [keyDialogue] goodRoll
                                              "npc_smith" gemBoughtAgain))) = ["gem"])
    by (vm_compute; reflexivity).
  repeat match goal with |- _ /\ _ => split end; try (vm_compute; reflexivity).
  rewrite Hleft. left. reflexivity.
Qed.


(** The scenario of the specification: three deliveries complete a quest
    of three steps, the gold gained is [2 * 20 + 50], and the current step
    stops at 3; a fourth delivery finds nothing to deliver and only queues
    a message. *)
Example three_step_quest_rewards :
  gold (player errandStarted) == 50
  /\ gold (player (final (deliveries goodRoll 3 errandStarted))) == 50 + (2 * 20 + 50)
  /\ (status <$> questsState (final (deliveries goodRoll 3 errandStarted)) !! 0%nat)
     = Some Completed
  /\ (currentStep <$> questsState (final (deliveries goodRoll 3 errandStarted)) !! 0%nat)
     = Some 3%nat
  /\ questsState (final (deliveries goodRoll 4 errandStarted))
     = questsState (final (deliveries goodRoll 3 errandStarted))
  /\ gold (player (final (deliveries goodRoll 4 errandStarted))) == 140.
Proof.
  repeat match goal with |- _ /\ _ => split end; vm_compute; reflexivity.
Qed.

(** * The rest of the program: properties *)

(** ** Normalising speakers *)

Lemma ensureSpeaker_spoken (n : Node) :
  exists s, speaker (ensureSpeaker n) = Some s /\ s <> EmptyString.
Proof.
  unfold ensureSpeaker. destruct (speaker n) as [[|c s]|] eqn:E; simpl.
  - exists "player". split; [reflexivity | discriminate].
  - rewrite E. exists (String c s). split; [reflexivity | discriminate].
  - exists "player". split; [reflexivity | discriminate].
Qed.

Lemma ensureSpeaker_idem (n : Node) : ensureSpeaker (ensureSpeaker n) = ensureSpeaker n.
Proof.
  destruct (ensureSpeaker_spoken n) as (s & Hs & Hne).
  unfold ensureSpeaker at 1. rewrite Hs.
  destruct s; [contradiction | reflexivity].
Qed.

(** X1. [ensureDialoguesHaveSpeaker] keeps the dialogues and their nodes in
    place and touches nothing but speakers: ids, texts, options and grants
    are kept. The speaker of a node becomes ["player"] when it was missing
    or empty and is kept otherwise, so that afterwards every node has a
    non-empty speaker; running it again changes nothing. *)
Theorem ensureDialoguesHaveSpeaker_normalises (dialogues : list Dialogue) :
  let ds := ensureDialoguesHaveSpeaker dialogues in
  map dlg_id ds = map dlg_id dialogues
  /\ map (fun d => map node_id (nodes d)) ds = map (fun d => map node_id (nodes d)) dialogues
  /\ map (fun d => map text (nodes d)) ds = map (fun d => map text (nodes d)) dialogues
  /\ map (fun d => map options (nodes d)) ds = map (fun d => map options (nodes d)) dialogues
  /\ map (fun d => map grants_item_ids (nodes d)) ds
     = map (fun d => map grants_item_ids (nodes d)) dialogues
  /\ map (fun d => map speaker (nodes d)) ds
     = map (fun d => map (fun n => match speaker n with
                                   | Some (String c rest) => Some (String c rest)
                                   | Some EmptyString | None => Some "player"
                                   end) (nodes d)) dialogues
  /\ (forall d n, In d ds -> In n (nodes d) ->
        exists s, speaker n = Some s /\ s <> EmptyString)
  /\ (forall n s, speaker n = Some s -> s <> EmptyString -> ensureSpeaker n = n)
  /\ (forall n, speaker n = None \/ speaker n = Some EmptyString ->
        ensureSpeaker n
        = {| node_id := node_id n; speaker := Some "player"; text := text n;
             grants_item_ids := grants_item_ids n; options := options n |})
  /\ ensureDialoguesHaveSpeaker ds = ds.
Proof.
  cbv zeta. unfold ensureDialoguesHaveSpeaker.
  assert (Hnode : forall (A : Type) (f f' : Node -> A),
            (forall n, f (ensureSpeaker n) = f' n) ->
            map (fun d => map f (nodes d))
                (map (fun dlg => {| dlg_id := dlg_id dlg;
                                    nodes := map ensureSpeaker (nodes dlg) |}) dialogues)
            = map (fun d => map f' (nodes d)) dialogues).
  { intros A f f' Hf. rewrite map_map. apply map_ext. intros d. simpl.
    rewrite map_map. apply map_ext. exact Hf. }
  assert (Hkeep : forall (A : Type) (f : Node -> A),
            (forall n, f {| node_id := node_id n; speaker := Some "player"; text := text n;
                            grants_item_ids := grants_item_ids n; options := options n |}
                       = f n) ->
            forall n, f (ensureSpeaker n) = f n).
  { intros A f Hf n. unfold ensureSpeaker. destruct (truthy (speaker n)); [reflexivity|].
    apply Hf. }
  split; [rewrite map_map; apply map_ext; reflexivity|].
  split; [apply Hnode, Hkeep; reflexivity|].
  split; [apply Hnode, Hkeep; reflexivity|].
  split; [apply Hnode, Hkeep; reflexivity|].
  split; [apply Hnode, Hkeep; reflexivity|].
  split.
  { apply Hnode. intros n. unfold ensureSpeaker.
    destruct (speaker n) as [[|c rest]|] eqn:E; simpl; [reflexivity | exact E | reflexivity]. }
  split.
  { intros d n Hd Hn. apply in_map_iff in Hd. destruct Hd as (d0 & <- & _).
    simpl in Hn. apply in_map_iff in Hn. destruct Hn as (n0 & <- & _).
    apply ensureSpeaker_spoken. }
  split.
  { intros n s Hs Hne. unfold ensureSpeaker. rewrite Hs.
    destruct s; [contradiction | reflexivity]. }
  split.
  { intros n [E|E]; unfold ensureSpeaker; rewrite E; reflexivity. }
  rewrite map_map. apply map_ext. intros d. simpl. f_equal.
  rewrite map_map. apply map_ext. apply ensureSpeaker_idem.
Qed.

(** ** Zone layout *)

Lemma inject_nat_S (k : nat) :
  inject_Z (Z.of_nat (S k)) == inject_Z (Z.of_nat k) + 1.
Proof. rewrite Nat2Z.inj_succ. unfold Z.succ. rewrite inject_Z_plus. reflexivity. Qed.

Lemma inject_nat_pos (k : nat) : (0 < k)%nat -> 0 < inject_Z (Z.of_nat k).
Proof.
  intros H. change 0 with (inject_Z 0). rewrite <- Zlt_Qlt. lia.
Qed.

(** X2. [initZones] keeps the zones of the world file in number, order, id
    and name and overwrites their geometry: every zone gets the width
    [w / count] and zone [i] the start [(w / count) * i], as the code
    computes them. So the first zone starts at 0, a later zone never
    starts further left than an earlier one, and every zone starts inside
    the window. Nothing else of the state changes, and an absent or empty
    list gives no zone and no error. *)
Theorem initZones_slices (worldZones : option (list Zone)) (g : Game) :
  let zs := zones (initZones worldZones g) in
  let n := length (default [] worldZones) in
  let slice := w (screen g) / inject_Z (Z.of_nat n) in
  length zs = n
  /\ map zone_id zs = map zone_id (default [] worldZones)
  /\ map zone_name zs = map zone_name (default [] worldZones)
  /\ (forall i z, zs !! i = Some z ->
        zone_width z = slice /\ zone_x z = slice * inject_Z (Z.of_nat i))
  /\ (forall z, zs !! 0%nat = Some z -> zone_x z == 0)
  /\ (0 <= w (screen g) ->
      forall i j z z', zs !! i = Some z -> zs !! j = Some z' -> (i <= j)%nat ->
                       zone_x z <= zone_x z')
  /\ (0 <= w (screen g) ->
      forall i z, zs !! i = Some z -> 0 <= zone_x z <= w (screen g))
  /\ player (initZones worldZones g) = player g
  /\ npcs (initZones worldZones g) = npcs g
  /\ screen (initZones worldZones g) = screen g.
Proof.
  cbv zeta. unfold initZones. simpl.
  set (l := default [] worldZones).
  set (slice := w (screen g) / inject_Z (Z.of_nat (length l))).
  set (f := fun (i : nat) (z : Zone) =>
              {| zone_id := zone_id z; zone_name := zone_name z;
                 zone_x := slice * inject_Z (Z.of_nat i);
                 zone_width := slice |}).
  assert (Hlk : forall i z, imap f l !! i = Some z ->
                  (i < length l)%nat
                  /\ zone_width z = slice /\ zone_x z = slice * inject_Z (Z.of_nat i)).
  { intros i z H. rewrite list_lookup_imap in H.
    destruct (l !! i) as [z0|] eqn:E; [|discriminate]. simpl in H. injection H as <-.
    apply lookup_lt_Some in E. unfold f. simpl. repeat split. exact E. }
  assert (Hmap : forall (A : Type) (pr : Zone -> A),
            (forall i z, pr (f i z) = pr z) -> map pr (imap f l) = map pr l).
  { intros A pr Hpr. clear Hlk. generalize f Hpr. clear f Hpr.
    induction l as [|z l' IH]; intros f Hpr; [reflexivity|].
    rewrite imap_cons. simpl. rewrite Hpr. f_equal.
    apply IH. intros i z1. apply Hpr. }
  assert (Hslice : 0 <= w (screen g) -> (0 < length l)%nat ->
                   0 <= slice /\ slice * inject_Z (Z.of_nat (length l)) == w (screen g)).
  { intros Hw Hpos. pose proof (inject_nat_pos _ Hpos) as Hn. unfold slice. split.
    - apply Qle_shift_div_l; [exact Hn | lra].
    - field. lra. }
  assert (Hinj : forall a b : nat, (a <= b)%nat ->
                   inject_Z (Z.of_nat a) <= inject_Z (Z.of_nat b)).
  { intros a b H. rewrite <- Zle_Qle. lia. }
  split; [apply length_imap|].
  split; [apply Hmap; reflexivity|].
  split; [apply Hmap; reflexivity|].
  split; [intros i z H; destruct (Hlk _ _ H) as (_ & Hw & Hx); split; assumption|].
  split.
  { intros z H. destruct (Hlk _ _ H) as (_ & _ & Hx). rewrite Hx. simpl. ring. }
  split.
  { intros Hw i j z z' H H' Hij.
    destruct (Hlk _ _ H) as (Hi & _ & Hx). destruct (Hlk _ _ H') as (Hj & _ & Hx').
    destruct (Hslice Hw ltac:(lia)) as (Hs & _).
    rewrite Hx, Hx'. pose proof (Hinj i j Hij). nra. }
  split.
  { intros Hw i z H. destruct (Hlk _ _ H) as (Hi & _ & Hx).
    destruct (Hslice Hw ltac:(lia)) as (Hs & Hfull).
    assert (H0 : 0 <= inject_Z (Z.of_nat i)) by (apply (Hinj 0%nat); lia).
    assert (Hn : inject_Z (Z.of_nat i) <= inject_Z (Z.of_nat (length l)))
      by (apply Hinj; lia).
    rewrite Hx. split; [|rewrite <- Hfull]; nra. }
  repeat split.
Qed.

(** On the machine the slices of a window need not add up to it, which is
    why nothing is said of where a zone ends. *)
Example zones_on_the_machine :
  Doubles.sixthEndsBeyond = true /\ Doubles.sixthStartsInside = true.
Proof. split; vm_compute; reflexivity. Qed.

(** ** Ability slots *)

Lemma cooldowns_lookup (abs : list Ability) (cd : gmap string Q) (id : string) :
  foldl (fun m ab => <[ab_id ab := 0]> m) cd abs !! id
  = if includes (map ab_id abs) id then Some 0 else cd !! id.
Proof.
  revert cd. induction abs as [|ab rest IH]; intros cd; simpl.
  - reflexivity.
  - rewrite IH.
    change (includes (ab_id ab :: map ab_id rest) id)
      with (String.eqb id (ab_id ab) || includes (map ab_id rest) id).
    destruct (String.eqb_spec id (ab_id ab)) as [->|Hne]; simpl.
    + rewrite lookup_insert_eq. destruct (includes _ _); reflexivity.
    + rewrite lookup_insert_ne by congruence. reflexivity.
Qed.

(** X3. [initPlayerAbilities] binds the first five abilities of the list (all
    of them when there are fewer, none when the list is absent), sets the
    cooldown of each to 0, forgets every other cooldown, and leaves health,
    gold and inventory alone. *)
Theorem initPlayerAbilities_slots (abilitiesData : option (list Ability)) (g : Game) :
  let g' := initPlayerAbilities abilitiesData g in
  abilities (player g') = take 5 (default [] abilitiesData)
  /\ (length (abilities (player g')) <= 5)%nat
  /\ (forall ab, In ab (abilities (player g')) ->
        abilityCooldown (player g') !! ab_id ab = Some 0)
  /\ (forall id, ~ In id (map ab_id (abilities (player g'))) ->
        abilityCooldown (player g') !! id = None)
  /\ hp (player g') = hp (player g) /\ gold (player g') = gold (player g)
  /\ inventory (player g') = inventory (player g)
  /\ statusEffects g' = statusEffects g.
Proof.
  cbv zeta. unfold initPlayerAbilities. cbv zeta.
  set (l := default [] abilitiesData).
  assert (Htake : take (Nat.min 5 (length l)) l = take 5 l).
  { destruct (le_lt_dec 5 (length l)) as [H|H].
    - now rewrite Nat.min_l.
    - rewrite Nat.min_r by lia. rewrite !take_ge by lia. reflexivity. }
  rewrite Htake. cbn [player set_player abilities abilityCooldown set_abilities hp gold
                        inventory statusEffects].
  split; [reflexivity|].
  split; [rewrite length_take; lia|].
  split.
  { intros ab Hab. rewrite cooldowns_lookup.
    assert (E : includes (map ab_id (take 5 l)) (ab_id ab) = true)
      by (apply includes_In; now apply in_map).
    now rewrite E. }
  split.
  { intros id Hid. rewrite cooldowns_lookup.
    destruct (includes (map ab_id (take 5 l)) id) eqn:E; [|apply lookup_empty].
    apply includes_In in E. contradiction. }
  repeat split.
Qed.

(** ** Obstacles *)

Section ObstacleFacts.

Variable random : nat -> Q.
Hypothesis rollsInUnit : unitRolls random.

Lemma initObstacle_effect (zi : nat) (zone : Zone) (g : Game) :
  exists o,
    initObstacle random zi zone g
    = Return tt (set_obstacles (obstacles g ++ [o]) (set_rngIx (rngIx g + 4) g))
    /\ obstacleOf g zi zone o.
Proof.
  unfold initObstacle. run. eexists. split.
  - replace (rngIx g + 4)%nat with (S (S (S (S (rngIx g))))) by lia. reflexivity.
  - unfold obstacleOf. simpl.
    destruct (rollsInUnit (rngIx g)) as (a0 & a1).
    destruct (rollsInUnit (S (rngIx g))) as (b0 & b1).
    destruct (rollsInUnit (S (S (rngIx g)))) as (c0 & c1).
    destruct (rollsInUnit (S (S (S (rngIx g))))) as (d0 & d1).
    split; [reflexivity|].
    split; [nra|]. split; [nra|]. split; [nra|]. split; [nra|].
    split; intros Hbig; split; nra.
Qed.

End ObstacleFacts.

Section ObstaclePass.

Variable random : nat -> Q.
Hypothesis rollsInUnit : unitRolls random.

Lemma obstacleOf_screen (g g' : Game) (zi : nat) (zone : Zone) (o : Obstacle) :
  screen g' = screen g -> obstacleOf g' zi zone o -> obstacleOf g zi zone o.
Proof. unfold obstacleOf. intros ->. tauto. Qed.

Lemma initObstaclesFrom_effect (zs : list Zone) (zi : nat) (g : Game) :
  exists g' news,
    initObstaclesFrom random zi zs g = Return tt g'
    /\ screen g' = screen g /\ zones g' = zones g /\ player g' = player g
    /\ npcs g' = npcs g /\ questsState g' = questsState g
    /\ obstacles g' = (obstacles g ++ news)%list
    /\ length news = (3 * length zs)%nat
    /\ (forall o, In o news ->
          exists k zone, zs !! k = Some zone /\ ob_zoneIndex o = (zi + k)%nat
                         /\ obstacleOf g (zi + k) zone o).
Proof.
  revert zi g. induction zs as [|zone rest IH]; intros zi g.
  - exists g, []. simpl. rewrite app_nil_r. repeat split. intros o [].
  - simpl.
    destruct (initObstacle_effect random rollsInUnit zi zone g) as (o1 & E1 & P1).
    set (g1 := set_obstacles (obstacles g ++ [o1]) (set_rngIx (rngIx g + 4) g)) in *.
    destruct (initObstacle_effect random rollsInUnit zi zone g1) as (o2 & E2 & P2).
    set (g2 := set_obstacles (obstacles g1 ++ [o2]) (set_rngIx (rngIx g1 + 4) g1)) in *.
    destruct (initObstacle_effect random rollsInUnit zi zone g2) as (o3 & E3 & P3).
    set (g3 := set_obstacles (obstacles g2 ++ [o3]) (set_rngIx (rngIx g2 + 4) g2)) in *.
    destruct (IH (S zi) g3) as (g' & news & E & Hs & Hz & Hp & Hn & Hq & Ho & Hlen & Hall).
    exists g', (o1 :: o2 :: o3 :: news).
    split.
    { unfold bind. rewrite E1. unfold bind. rewrite E2. rewrite E3. exact E. }
    split; [rewrite Hs; reflexivity|]. split; [rewrite Hz; reflexivity|].
    split; [rewrite Hp; reflexivity|]. split; [rewrite Hn; reflexivity|].
    split; [rewrite Hq; reflexivity|].
    split.
    { rewrite Ho. subst g3 g2 g1. simpl. rewrite <- !app_assoc. reflexivity. }
    split; [simpl; rewrite Hlen; lia|].
    intros o [<-|[<-|[<-|Hin]]].
    + exists 0%nat, zone. rewrite Nat.add_0_r. pose proof P1 as (Hzi & _).
      split; [reflexivity|]. split; [exact Hzi | exact P1].
    + exists 0%nat, zone. rewrite Nat.add_0_r. pose proof P2 as (Hzi & _).
      split; [reflexivity|]. split; [exact Hzi|].
      apply (obstacleOf_screen g g1); [reflexivity | exact P2].
    + exists 0%nat, zone. rewrite Nat.add_0_r. pose proof P3 as (Hzi & _).
      split; [reflexivity|]. split; [exact Hzi|].
      apply (obstacleOf_screen g g2); [reflexivity | exact P3].
    + destruct (Hall o Hin) as (k & z & Hk & Hzi & P).
      exists (S k), z. replace (zi + S k)%nat with (S zi + k)%nat by lia.
      split; [exact Hk|]. split; [exact Hzi|].
      apply (obstacleOf_screen g g3); [reflexivity | exact P].
Qed.


End ObstaclePass.

Lemma halfRoll_unit : unitRolls halfRoll.
Proof. intros n. unfold halfRoll. split; [discriminate | reflexivity]. Qed.


(** On the machine, at a draw next to 1: the right margin of 30 is missed
    by a rounding, the other bounds hold. *)
Example obstacle_on_the_machine : Doubles.obstaclePassesMargin = true.
Proof. vm_compute. reflexivity. Qed.

(** ** Quest initialisation with NPCs *)

Lemma assignSteps_round_robin (sts : list Step) (qIndex i : nat) (acc : list string)
    (g : Game) :
  npcs g <> [] ->
  assignSteps qIndex i sts acc g
  = Return (acc ++ map (roundRobin (npcs g)) (seq (qIndex + i) (length sts)))%list g.
Proof.
  intros Hn. revert i acc. induction sts as [|st rest IH]; intros i acc; simpl.
  - rewrite app_nil_r. reflexivity.
  - unfold bind, get. unfold npcForStep.
    destruct (npcs g) as [|n0 ns] eqn:En; [contradiction|].
    assert (Hlt : ((qIndex + i) mod length (n0 :: ns) < length (n0 :: ns))%nat)
      by (apply Nat.mod_upper_bound; simpl; lia).
    destruct (lookup_lt_is_Some_2 (n0 :: ns) _ Hlt) as (npc & Hnpc).
    change (length (n0 :: ns) =? 0)%nat with false. cbv iota.
    rewrite Hnpc. unfold deref, ret.
    rewrite IH. rewrite <- app_assoc. simpl.
    unfold roundRobin at 2. rewrite Hnpc. simpl.
    replace (qIndex + S i)%nat with (S (qIndex + i)) by lia. reflexivity.
Qed.

Lemma initQuestsFrom_fresh (quests : list Quest) (qIndex : nat) (g : Game) :
  npcs g <> [] ->
  initQuestsFrom qIndex quests g
  = Return tt (set_questsState
                 (questsState g ++ imap (fun k q => freshQuest (npcs g) (qIndex + k) q) quests)
                 g).
Proof.
  intros Hn. revert qIndex g Hn.
  induction quests as [|q rest IH]; intros qIndex g Hn; simpl.
  - rewrite app_nil_r. destruct g; reflexivity.
  - unfold bind at 1. rewrite assignSteps_round_robin by assumption.
    unfold bind, modify. rewrite IH by assumption. simpl.
    apply (f_equal (Return tt)). unfold set_questsState. simpl.
    rewrite Nat.add_0_r, <- app_assoc. simpl. f_equal.
    apply (f_equal2 (@app QuestState)); [reflexivity|].
    apply (f_equal2 cons); [reflexivity|].
    apply imap_ext. intros k q' _. simpl.
    replace (qIndex + S k)%nat with (S (qIndex + k)) by lia. reflexivity.
Qed.

(** X5. With at least one NPC [initQuestsState] returns, and [G.questsState]
    holds one entry per quest, in order: not started, at step 0, with the
    quest's steps, and with step [i] of quest number [q] assigned to the
    NPC at position [(q + i) mod npcCount]. So every step has an assignee
    and every assignee is the id of an NPC. Nothing else changes. *)
Theorem initQuestsState_round_robin (quests : list Quest) (g : Game) :
  npcs g <> [] ->
  initQuestsState quests g
  = Return tt (set_questsState (imap (fun k q => freshQuest (npcs g) k q) quests) g)
  /\ (forall k q, quests !! k = Some q ->
      forall i, (i < length (q_steps q))%nat ->
      exists npc, npcs g !! ((k + i) mod length (npcs g))%nat = Some npc
                  /\ stepAssignments (freshQuest (npcs g) k q) !! i = Some (npc_id npc))
  /\ (forall k q, quests !! k = Some q -> assignedThroughout (freshQuest (npcs g) k q)).
Proof.
  intros Hn. split; [|split].
  - unfold initQuestsState. run. rewrite initQuestsFrom_fresh by assumption. reflexivity.
  - intros k q _ i Hi.
    assert (Hlt : ((k + i) mod length (npcs g) < length (npcs g))%nat).
    { apply Nat.mod_upper_bound. destruct (npcs g); [contradiction | simpl; lia]. }
    destruct (lookup_lt_is_Some_2 _ _ Hlt) as (npc & Hnpc).
    exists npc. split; [exact Hnpc|].
    unfold freshQuest. simpl. rewrite list_lookup_fmap.
    rewrite lookup_seq_lt by assumption. simpl.
    unfold roundRobin. rewrite Hnpc. reflexivity.
  - intros k q _. unfold assignedThroughout, freshQuest. simpl.
    rewrite length_map, length_seq. reflexivity.
Qed.

Lemma initQuestsState_round_robin_witness :
  initQuestsState [gemQuest] demoGame
  = Return tt (set_questsState (imap (fun k q => freshQuest (npcs demoGame) k q) [gemQuest])
                               demoGame).
Proof.
  apply (initQuestsState_round_robin [gemQuest] demoGame). simpl. discriminate.
Defined.

(** ** The life of a quest *)

Lemma advances_refl (qs : QuestState) : advances qs qs.
Proof. unfold advances. repeat split; auto. Qed.

Lemma startQuest_questsState (dialogues : list Dialogue) (random : nat -> Q)
    (id : string) (g : Game) :
  questsState (final (startQuest dialogues random id g)) = questsState g
  \/ exists i qs, questsState g !! i = Some qs /\ status qs = NotStarted
                  /\ questsState (final (startQuest dialogues random id g))
                     = <[i := set_status_step InProgress 0 qs]> (questsState g).
Proof.
  unfold startQuest, bind, get, modify. cbv beta.
  destruct (findIndex _ (questsState g)) as [[i qs]|] eqn:Efind; [|now left].
  destruct (bool_decide (status qs = NotStarted)) eqn:Est; simpl; [|now left].
  apply bool_decide_eq_true in Est. right. exists i, qs.
  apply findIndex_lookup in Efind. destruct Efind as (Hlk & _).
  split; [exact Hlk|]. split; [exact Est|].
  match goal with
  | |- context [final (spawnItemsForStep ?d ?r ?q ?k ?st)] =>
      destruct (spawnItemsForStep_frame d r q k st) as (_ & Hq & _)
  end.
  rewrite Hq. reflexivity.
Qed.

Lemma getDeliverInfoForNPC_outcome (npcId : string) (g : Game) :
  (exists info, getDeliverInfoForNPC npcId g = Return info g)
  \/ getDeliverInfoForNPC npcId g = Throw g.
Proof.
  pose proof (getDeliverInfoForNPC_state npcId g) as H.
  destruct (getDeliverInfoForNPC npcId g) as [info g'|g']; simpl in H; subst.
  - left. now exists info.
  - now right.
Qed.

Lemma finishQuestStepsOnTalk_questsState (dialogues : list Dialogue) (random : nat -> Q)
    (npcId : string) (g : Game) :
  questsState (final (finishQuestStepsOnTalk dialogues random npcId g)) = questsState g
  \/ exists qi qs,
       questsState g !! qi = Some qs /\ status qs = InProgress
       /\ (currentStep qs < length (steps qs))%nat
       /\ questsState (final (finishQuestStepsOnTalk dialogues random npcId g))
          = <[qi := set_status_step
                      (if (S (currentStep qs) =? length (steps qs))%nat
                       then Completed else InProgress)
                      (S (currentStep qs)) qs]> (questsState g).
Proof.
  destruct (getDeliverInfoForNPC_outcome npcId g) as [(info & E) | E].
  2: { left. unfold finishQuestStepsOnTalk, bind. rewrite E. reflexivity. }
  destruct info as [[qi stepIdx]|].
  2: { left. unfold finishQuestStepsOnTalk, bind. rewrite E. reflexivity. }
  pose proof E as E'.
  unfold getDeliverInfoForNPC, bind, get in E'.
  apply deliverInfoFrom_some in E'.
  destruct E' as (_ & qs & step & Hqs & Hst & Hcur & _ & Hstep & _).
  rewrite Nat.sub_0_r in Hqs. subst stepIdx.
  assert (Hlt : (currentStep qs < length (steps qs))%nat)
    by (eapply lookup_lt_Some; exact Hstep).
  cbv beta iota zeta delta [finishQuestStepsOnTalk bind get ret modify deref throw].
  rewrite E. cbv beta iota.
  rewrite Hqs. cbv beta iota.
  destruct (find _ (npcs g)) as [npc|]; cbv beta iota; [|now left].
  rewrite performSkillCheck_run. cbv beta iota.
  rewrite Hstep.
  cbn [steps currentStep title status set_status_step].
  rewrite Hst.
  assert (Hlast : (length (steps qs) <=? S (currentStep qs))%nat
                  = (S (currentStep qs) =? length (steps qs))%nat).
  { destruct (Nat.leb_spec (length (steps qs)) (S (currentStep qs)));
      destruct (Nat.eqb_spec (S (currentStep qs)) (length (steps qs)));
      (reflexivity || lia). }
  rewrite Hlast.
  right. exists qi, qs. split; [exact Hqs|]. split; [exact Hst|]. split; [exact Hlt|].
  destruct (_ <? _); cbv beta iota.
  all: match goal with
       | |- context [removeRequired _ ?st] =>
           assert (Hq2 : questsState st = questsState g)
             by (try rewrite (proj1 (damagePlayer_frame 10 _)); reflexivity);
           generalize dependent st
       end.
  all: intros g2 Hq2.
  all: destruct (S (currentStep qs) =? length (steps qs))%nat; cbv beta iota.
  all: try match goal with
       | |- context [final (spawnItemsForStep ?d ?r ?q ?k ?st)] =>
           destruct (spawnItemsForStep_frame d r q k st) as (_ & Hq & _); rewrite Hq
       end.
  all: cbn [final questsState set_questsState removeRequired set_player
            addMessage set_messages];
       rewrite Hq2, ?list_insert_insert_eq; reflexivity.
Qed.

Lemma advances_insert (qss : list QuestState) (i : nat) (q q' : QuestState) :
  qss !! i = Some q -> advances q q' ->
  forall k qs, qss !! k = Some qs ->
  exists qs', <[i := q']> qss !! k = Some qs' /\ advances qs qs'.
Proof.
  intros Hi Hadv k qs Hk. destruct (decide (i = k)) as [->|Hne].
  - exists q'. split.
    + apply list_lookup_insert_eq. eapply lookup_lt_Some. exact Hi.
    + rewrite Hi in Hk. injection Hk as <-. exact Hadv.
  - exists qs. split; [now rewrite list_lookup_insert_ne | apply advances_refl].
Qed.

(** X6. Neither [startQuest] nor [finishQuestStepsOnTalk], whether it returns
    or throws, adds, drops or reorders quests or changes their steps and
    assignees. A quest's status never goes back (not-started, in-progress,
    completed), a completed quest is never touched again, and the current
    step of a quest in progress never goes down. *)
Theorem quest_never_goes_back (dialogues : list Dialogue) (random : nat -> Q)
    (id npcId : string) (g : Game) (k : nat) (qs : QuestState) :
  questsState g !! k = Some qs ->
  (exists qs', questsState (final (startQuest dialogues random id g)) !! k = Some qs'
               /\ advances qs qs')
  /\ (exists qs', questsState (final (finishQuestStepsOnTalk dialogues random npcId g)) !! k
                  = Some qs'
                  /\ advances qs qs')
  /\ length (questsState (final (startQuest dialogues random id g)))
     = length (questsState g)
  /\ length (questsState (final (finishQuestStepsOnTalk dialogues random npcId g)))
     = length (questsState g).
Proof.
  intros Hk.
  destruct (startQuest_questsState dialogues random id g)
    as [Es | (i & q & Hi & Hst & Es)];
  destruct (finishQuestStepsOnTalk_questsState dialogues random npcId g)
    as [Ef | (j & q2 & Hj & Hst2 & Hlt & Ef)];
  rewrite Es, Ef, ?length_insert.
  all: repeat split;
       try (exists qs; split; [exact Hk | apply advances_refl]).
  all: try (eapply advances_insert; [eassumption | | exact Hk]).
  all: unfold advances;
       cbn [qs_id title is_main steps stepAssignments status currentStep
            set_status_step];
       try rewrite Hst; try rewrite Hst2.
  all: repeat match goal with |- _ /\ _ => split end; try reflexivity.
  all: try (intros; discriminate).
  all: try (destruct (_ =? _)%nat); cbn [statusRank]; intros; lia.
Qed.

Lemma quest_never_goes_back_witness :
  exists qs qs',
    questsState gemInHand !! 0%nat = Some qs
    /\ questsState (final (finishQuestStepsOnTalk [keyDialogue] goodRoll "npc_smith"
                            gemInHand)) !! 0%nat = Some qs'
    /\ advances qs qs'.
Proof.
  assert (Hk : questsState gemInHand !! 0%nat
               = Some (set_status_step InProgress 0
                         {| qs_id := "q1"; title := "The Gem"; is_main := true;
                            steps := q_steps gemQuest; status := NotStarted;
                            currentStep := 0;
                            stepAssignments := ["npc_smith"; "npc_smith"] |}))
    by (vm_compute; reflexivity).
  destruct (quest_never_goes_back [keyDialogue] goodRoll "q1" "npc_smith" gemInHand _ _ Hk)
    as (_ & (qs' & Hq & Hadv) & _).
  eexists _, qs'. split; [exact Hk|]. split; [exact Hq | exact Hadv].
Defined.

(** ** Keeping the player on the playfield *)

(** X7. [clampWorld] leaves the player at least 16 from the left edge and 80
    from the top, whatever the window. On a window at least 32 wide it is
    also at most 16 from the right edge, and with a playfield at least 96
    high at most 16 above the bottom band. A player already inside these
    bounds is not moved, and nothing but the position is written. *)
Theorem clampWorld_bounds (g : Game) :
  16 <= x (player (clampWorld g)) /\ 80 <= y (player (clampWorld g))
  /\ (32 <= w (screen g) -> x (player (clampWorld g)) <= w (screen g) - 16)
  /\ (96 <= h (screen g) - safeBottom (screen g) ->
      y (player (clampWorld g)) <= h (screen g) - safeBottom (screen g) - 16)
  /\ (16 <= x (player g) <= w (screen g) - 16 ->
      x (player (clampWorld g)) == x (player g))
  /\ (80 <= y (player g) <= h (screen g) - safeBottom (screen g) - 16 ->
      y (player (clampWorld g)) == y (player g))
  /\ set_player (set_xy (x (player g)) (y (player g)) (player (clampWorld g)))
       (clampWorld g)
     = g.
Proof.
  unfold clampWorld. cbn [player set_player x y set_xy screen].
  set (mx := Qmin (w (screen g) - 16) (x (player g))).
  set (my := Qmin (h (screen g) - safeBottom (screen g) - 16) (y (player g))).
  pose proof (Q.min_spec (w (screen g) - 16) (x (player g))) as Hmx. fold mx in Hmx.
  pose proof (Q.min_spec (h (screen g) - safeBottom (screen g) - 16) (y (player g))) as Hmy.
  fold my in Hmy.
  pose proof (Q.max_spec 16 mx) as HMx. pose proof (Q.max_spec 80 my) as HMy.
  clearbody mx my.
  repeat match goal with |- _ /\ _ => split end; try (intros; lra).
  destruct g as [? [] ? ? ? ? ? ? ? ? ? ? ? ? ? ?]. reflexivity.
Qed.

(** ** Buildings in the way *)


(** On the machine: a building at x = 300.3, 200 wide, and the player at
    (510.3, 250), outside the door band. The push puts the player at
    516.3 as doubles have it, where the code's own test still answers
    yes; the box is clear of the building up to epsilon. *)
Example building_push_on_the_machine :
  let house := {| b_npcId := "npc_smith"; b_x := roundDouble (3003 # 10); b_y := 200;
                  b_width := 200; b_height := 100;
                  doorX := roundDouble (3003 # 10) +! 200 /! 2; doorY := 300 |} in
  let p := set_xy (roundDouble (5103 # 10)) 250 initialPlayer in
  Doubles.toQ Doubles.pushedFromHouse = Some (x (collideBuilding p house))
  /\ overlaps (collideBuilding p house) (b_x house) (b_y house) (b_width house)
              (b_height house) = true
  /\ overlapsBy (epsilonOf (b_x house) (b_y house) (b_width house) (b_height house))
                (collideBuilding p house) (b_x house) (b_y house) (b_width house)
                (b_height house) = false.
Proof.
  repeat split; vm_compute; reflexivity.
Qed.

(** ** Picking up *)

Lemma pickups_frame (items : list Item) (objs : list WorldObject) (g : Game) :
  set_inventory (inventory (player g)) (player (pickups items objs g).2) = player g
  /\ set_messages (messages g)
       (set_player (player g) (pickups items objs g).2) = g.
Proof.
  induction objs as [|obj rest IH]; simpl.
  - destruct g as [? [] ? ? ? ? ? ? ? ? ? ? ? ? ? ?]. split; reflexivity.
  - destruct (pickups items rest g) as [rest' g1]. simpl in IH.
    destruct (_ <? _); [|exact IH].
    destruct (negb _); [|exact IH].
    exact IH.
Qed.

Lemma pickups_position (items : list Item) (objs : list WorldObject) (g : Game)
    (o : WorldObject) :
  withinReach (player (pickups items objs g).2) o = withinReach (player g) o.
Proof.
  destruct (pickups_frame items objs g) as (H & _).
  assert (Hx : x (player (pickups items objs g).2) = x (player g))
    by (rewrite <- H; reflexivity).
  assert (Hy : y (player (pickups items objs g).2) = y (player g))
    by (rewrite <- H; reflexivity).
  unfold withinReach. rewrite Hx, Hy. reflexivity.
Qed.

(** X9. What the pickup loop of a frame does. The pickups left are exactly
    those not within 20 pixels of the player, in their order, whether or
    not their item was already held; the inventory gains the ids of those
    within reach that it lacked, once each (it stays free of duplicates if
    it was); the player is otherwise as before, gold included, and apart
    from player and messages the game is untouched. *)
Theorem pickups_collects (items : list Item) (objs : list WorldObject) (g : Game) :
  (pickups items objs g).1
  = List.filter (fun o => negb (withinReach (player g) o)) objs
  /\ (forall id,
        In id (inventory (player (pickups items objs g).2))
        <-> In id (inventory (player g))
            \/ exists o, In o objs /\ withinReach (player g) o = true /\ itemId o = id)
  /\ (NoDup (inventory (player g)) ->
      NoDup (inventory (player (pickups items objs g).2)))
  /\ set_inventory (inventory (player g)) (player (pickups items objs g).2) = player g
  /\ set_messages (messages g) (set_player (player g) (pickups items objs g).2) = g.
Proof.
  split; [|split; [|split; [|apply pickups_frame]]].
  - induction objs as [|obj rest IH]; [reflexivity|].
    pose proof (pickups_position items rest g obj) as Hpos.
    simpl. destruct (pickups items rest g) as [rest' g1]. simpl in IH, Hpos.
    unfold withinReach in Hpos at 1. cbv zeta in Hpos. rewrite Hpos.
    destruct (withinReach (player g) obj); simpl.
    + destruct (negb _); exact IH.
    + now rewrite IH.
  - induction objs as [|obj rest IH]; intros id.
    + simpl. split; [now left | intros [H | (o & [] & _)]; exact H].
    + pose proof (pickups_position items rest g obj) as Hpos.
      simpl. destruct (pickups items rest g) as [rest' g1]. simpl in IH, Hpos.
      unfold withinReach in Hpos at 1. cbv zeta in Hpos. rewrite Hpos.
      destruct (withinReach (player g) obj) eqn:Hreach.
      * destruct (includes (inventory (player g1)) (itemId obj)) eqn:Hinc; simpl.
        -- rewrite IH. split.
           ++ intros [H | (o & Ho & Hr & Hid)]; [now left|].
              right. exists o. split; [now right | now split].
           ++ intros [H | (o & [<- | Ho] & Hr & Hid)]; [now left | | ].
              ** apply IH. apply includes_In. now rewrite <- Hid.
              ** right. exists o. now repeat split.
        -- rewrite in_app_iff, IH. simpl. split.
           ++ intros [[H | (o & Ho & Hr & Hid)] | [<- | []]].
              ** now left.
              ** right. exists o. split; [now right | now split].
              ** right. exists obj. split; [now left | now split].
           ++ intros [H | (o & [<- | Ho] & Hr & Hid)].
              ** left. now left.
              ** right. left. exact Hid.
              ** left. right. exists o. now repeat split.
      * rewrite IH. split.
        -- intros [H | (o & Ho & Hr & Hid)]; [now left|].
           right. exists o. split; [now right | now split].
        -- intros [H | (o & [<- | Ho] & Hr & Hid)]; [now left | congruence | ].
           right. exists o. now repeat split.
  - intros Hnd. induction objs as [|obj rest IH]; [exact Hnd|].
    simpl. destruct (pickups items rest g) as [rest' g1]. simpl in IH.
    destruct (_ <? _); [|exact IH].
    destruct (includes (inventory (player g1)) (itemId obj)) eqn:Hinc; simpl; [exact IH|].
    apply NoDup_app. split; [exact IH|]. split; [|apply NoDup_singleton].
    intros a Ha Hb. apply list_elem_of_singleton in Hb. subst a.
    apply list_elem_of_In, includes_In in Ha. congruence.
Qed.

(** ** Wandering *)

Section Wandering.

Variable inventoryData : list Item.
Variable random : nat -> Q.
Variable Math_cos Math_sin : Q -> Q.
Variable Math_PI : Q.

(** A [let] of the goal becomes a local definition. *)
Ltac pull_let :=
  lazymatch goal with
  | |- context C [let x := ?v in @?b x] =>
      let y := fresh x in
      pose (y := v);
      let G := context C [b y] in
      change G; lazy beta iota
  end.

(** The four bounces that end an NPC's turn, on the bounds [lo1 <= hi1]
    for [x] and [lo2 <= hi2] for [y]. *)
Lemma bounce_chain (lo1 hi1 lo2 hi2 : Q) (npc2 npc3 npc4 npc5 npc6 : Npc) :
  npc3 = (if npc_x npc2 <? lo1
          then set_npc_motion lo1 (npc_y npc2) (Qabs (dx npc2)) (dy npc2) npc2
          else npc2) ->
  npc4 = (if hi1 <? npc_x npc3
          then set_npc_motion hi1 (npc_y npc3) (- Qabs (dx npc3)) (dy npc3) npc3
          else npc3) ->
  npc5 = (if npc_y npc4 <? lo2
          then set_npc_motion (npc_x npc4) lo2 (dx npc4) (Qabs (dy npc4)) npc4
          else npc4) ->
  npc6 = (if hi2 <? npc_y npc5
          then set_npc_motion (npc_x npc5) hi2 (dx npc5) (- Qabs (dy npc5)) npc5
          else npc5) ->
  sameNpc npc2 npc6
  /\ (lo1 <= hi1 -> lo1 <= npc_x npc6 <= hi1)
  /\ (lo2 <= hi2 -> lo2 <= npc_y npc6 <= hi2).
Proof.
  intros E3 E4 E5 E6.
  assert (H3 : sameNpc npc2 npc3 /\ lo1 <= npc_x npc3 /\ npc_y npc3 = npc_y npc2).
  { rewrite E3. destruct (npc_x npc2 <? lo1) eqn:E; cbn [npc_x npc_y set_npc_motion].
    - repeat split. lra.
    - apply Qltb_ge in E. repeat split. exact E. }
  clear E3. destruct H3 as (S3 & X3 & Y3).
  assert (H4 : sameNpc npc3 npc4 /\ (lo1 <= hi1 -> lo1 <= npc_x npc4 <= hi1)
               /\ npc_y npc4 = npc_y npc3).
  { rewrite E4. destruct (hi1 <? npc_x npc3) eqn:E; cbn [npc_x npc_y set_npc_motion].
    - repeat split; try lra.
    - apply Qltb_ge in E. repeat split; try lra. }
  clear E4. destruct H4 as (S4 & X4 & Y4).
  assert (H5 : sameNpc npc4 npc5 /\ npc_x npc5 = npc_x npc4 /\ lo2 <= npc_y npc5).
  { rewrite E5. destruct (npc_y npc4 <? lo2) eqn:E; cbn [npc_x npc_y set_npc_motion].
    - repeat split. lra.
    - apply Qltb_ge in E. repeat split. exact E. }
  clear E5. destruct H5 as (S5 & X5 & Y5).
  assert (H6 : sameNpc npc5 npc6 /\ npc_x npc6 = npc_x npc5
               /\ (lo2 <= hi2 -> lo2 <= npc_y npc6 <= hi2)).
  { rewrite E6. destruct (hi2 <? npc_y npc5) eqn:E; cbn [npc_x npc_y set_npc_motion].
    - repeat split; try lra.
    - apply Qltb_ge in E. repeat split; try lra. }
  clear E6. destruct H6 as (S6 & X6 & Y6).
  split; [|split].
  - unfold sameNpc in *. intuition congruence.
  - rewrite X6, X5. exact X4.
  - exact Y6.
Qed.

(** One NPC's turn, when the NPC and its zone exist: it returns, writes
    that NPC only, keeps what identifies it, and in a roomy world leaves
    it within the band of its zone. *)
Lemma wanderNpc_step (dt : Q) (i : nat) (g : Game) (npc : Npc) (z : Zone) :
  npcs g !! i = Some npc ->
  zones g !! zoneIndex npc = Some z ->
  exists (npc' : Npc) (n : nat),
    wanderNpc random Math_cos Math_sin Math_PI dt i g
    = Return tt (set_npcs (<[i := npc']> (npcs g)) (set_rngIx n g))
    /\ sameNpc npc npc'
    /\ (40 <= zone_width z -> 100 <= h (screen g) - safeBottom (screen g) ->
        zone_x z + 20 <= npc_x npc' <= zone_x z + zone_width z - 20
        /\ 80 <= npc_y npc' <= h (screen g) - safeBottom (screen g) - 20).
Proof.
  intros Hnpc Hz.
  cbv delta [wanderNpc].
  lazy beta iota delta [bind get ret modify deref throw Math_random].
  rewrite Hnpc. lazy beta iota.
  destruct (random (rngIx g) <? _); lazy beta iota; repeat pull_let.
  all: change (zoneIndex npc2) with (zoneIndex npc); rewrite Hz; lazy beta iota;
       repeat pull_let.
  all: destruct (bounce_chain (zone_x z + 20) (zone_x z + zone_width z - 20) 80 floorY
                   npc2 npc3 npc4 npc5 npc6 eq_refl eq_refl eq_refl eq_refl)
         as (Hsame & Hx & Hy);
       clearbody npc6; clear npc3 npc4 npc5.
  all: exists npc6; eexists; split;
       [cbn [npcs set_npcs set_rngIx]; rewrite list_insert_insert_eq; reflexivity|].
  all: split; [exact Hsame|].
  all: intros Hw Hh; split; [apply Hx | apply Hy; unfold floorY]; lra.
Qed.

Lemma sameNpc_refl (npc : Npc) : sameNpc npc npc.
Proof. repeat split. Qed.

Lemma sameNpcs_refl (l : list Npc) : Forall2 sameNpc l l.
Proof. apply Forall_Forall2_diag, Forall_true. exact sameNpc_refl. Qed.

Lemma sameNpcs_trans (l k m : list Npc) :
  Forall2 sameNpc l k -> Forall2 sameNpc k m -> Forall2 sameNpc l m.
Proof.
  intros H1 H2. eapply Forall2_trans; cycle 1; [exact H1 | exact H2 |].
  unfold sameNpc. intros a b c. intuition congruence.
Qed.

Lemma npcsZoned_same (g g' : Game) :
  npcsZoned g -> zones g' = zones g -> Forall2 sameNpc (npcs g) (npcs g') -> npcsZoned g'.
Proof.
  unfold npcsZoned. intros Hz Hzones Hsame. apply Forall_lookup_2. intros j npc' Hj.
  destruct (Forall2_lookup_r _ _ _ _ _ Hsame Hj) as (npc & Hnpc & _ & Hzi & _).
  rewrite Hzones, Hzi. eapply Forall_lookup_1 in Hz; [exact Hz | exact Hnpc].
Qed.

(** The turns of the NPCs from position [a] on. *)
Lemma wander_from (dt : Q) (n a : nat) (g : Game) :
  npcsZoned g -> (a + n = length (npcs g))%nat ->
  exists g',
    forEach (wanderNpc random Math_cos Math_sin Math_PI dt) (seq a n) g = Return tt g'
    /\ set_rngIx (rngIx g) (set_npcs (npcs g) g') = g
    /\ Forall2 sameNpc (npcs g) (npcs g')
    /\ (forall j, (j < a)%nat -> npcs g' !! j = npcs g !! j)
    /\ (roomy g -> forall j npc', (a <= j)%nat -> npcs g' !! j = Some npc' -> inBand g npc').
Proof.
  revert a g. induction n as [|n IH]; intros a g Hz Hlen.
  - exists g. split; [reflexivity|].
    split; [destruct g; reflexivity|].
    split; [apply sameNpcs_refl|].
    split; [reflexivity|].
    intros _ j npc' Hj Hlk. apply lookup_lt_Some in Hlk. lia.
  - cbn [seq forEach]. unfold bind at 1.
    destruct (lookup_lt_is_Some_2 (npcs g) a) as [npc Hnpc]; [lia|].
    destruct (Forall_lookup_1 _ _ _ _ Hz Hnpc) as [z Hzone].
    destruct (wanderNpc_step dt a g npc z Hnpc Hzone)
      as (npc' & k & Hrun & (Hid & Hzi & Hdi & Hsk & Hdf) & Hb).
    rewrite Hrun.
    set (g1 := set_npcs (<[a := npc']> (npcs g)) (set_rngIx k g)).
    assert (Hstep : Forall2 sameNpc (npcs g) (npcs g1)).
    { unfold g1. cbn [npcs set_npcs].
      rewrite <- (list_insert_id (npcs g) a npc Hnpc) at 1.
      apply Forall2_insert; [apply sameNpcs_refl | repeat split; assumption]. }
    destruct (IH (S a) g1) as (g' & Hrun' & Hfr & Hsame & Hlow & Hband).
    { eapply npcsZoned_same; [exact Hz | reflexivity | exact Hstep]. }
    { unfold g1. cbn [npcs set_npcs]. rewrite length_insert. lia. }
    exists g'. split; [exact Hrun'|].
    split.
    { transitivity (set_rngIx (rngIx g) (set_npcs (npcs g)
                      (set_rngIx (rngIx g1) (set_npcs (npcs g1) g')))); [reflexivity|].
      rewrite Hfr. unfold g1. destruct g; reflexivity. }
    split; [eapply sameNpcs_trans; eassumption|].
    split.
    { intros j Hj. rewrite Hlow by lia. unfold g1. cbn [npcs set_npcs].
      apply list_lookup_insert_ne. lia. }
    intros Hroomy j n' Hj Hlk.
    destruct (decide (j = a)) as [->|Hne].
    + rewrite Hlow in Hlk by lia. unfold g1 in Hlk. cbn [npcs set_npcs] in Hlk.
      rewrite list_lookup_insert_eq in Hlk by (eapply lookup_lt_Some; exact Hnpc).
      injection Hlk as <-.
      exists z. rewrite Hzi. split; [exact Hzone|].
      destruct Hroomy as (Hwide & Hhigh).
      apply Hb; [|exact Hhigh].
      eapply Forall_lookup_1 in Hwide; [exact Hwide | exact Hzone].
    + apply (Hband Hroomy j n'); [lia | exact Hlk].
Qed.

Lemma pickups_world (objs : list WorldObject) (g : Game) :
  npcs (pickups inventoryData objs g).2 = npcs g
  /\ zones (pickups inventoryData objs g).2 = zones g
  /\ screen (pickups inventoryData objs g).2 = screen g
  /\ inInterior (pickups inventoryData objs g).2 = inInterior g.
Proof.
  destruct (pickups_frame inventoryData objs g) as (_ & H).
  split; [|split; [|split]].
  - apply (f_equal npcs) in H. exact H.
  - apply (f_equal zones) in H. exact H.
  - apply (f_equal screen) in H. exact H.
  - apply (f_equal inInterior) in H. exact H.
Qed.

Lemma updateWorld_step (dt : Q) (g : Game) :
  npcsZoned g ->
  exists g',
    updateWorld inventoryData random Math_cos Math_sin Math_PI dt g = Return tt g'
    /\ Forall2 sameNpc (npcs g) (npcs g')
    /\ zones g' = zones g /\ screen g' = screen g /\ inInterior g' = inInterior g
    /\ (roomy g -> Forall (inBand g') (npcs g')).
Proof.
  intros Hz.
  destruct (wander_from dt (length (npcs g)) 0 (clampWorld g) Hz eq_refl)
    as (g1 & Hrun & Hfr & Hsame & _ & Hband).
  unfold updateWorld.
  cbv beta iota zeta delta [bind get modify].
  change (npcs (clampWorld g)) with (npcs g) in *.
  rewrite Hrun.
  match goal with
  | |- context [pickups inventoryData ?objs ?st] =>
      destruct (pickups_world objs st) as (Hn & Hzs & Hs & Hi);
      destruct (pickups inventoryData objs st) as [kept gP]
  end.
  cbn [fst snd set_player npcs zones screen inInterior] in Hn, Hzs, Hs, Hi.
  eexists. split; [reflexivity|].
  cbn [set_objects npcs zones screen inInterior].
  assert (Hz1 : zones g1 = zones g) by (apply (f_equal zones) in Hfr; exact Hfr).
  assert (Hs1 : screen g1 = screen g) by (apply (f_equal screen) in Hfr; exact Hfr).
  assert (Hi1 : inInterior g1 = inInterior g)
    by (apply (f_equal inInterior) in Hfr; exact Hfr).
  rewrite Hn, Hzs, Hs, Hi, Hz1, Hs1, Hi1.
  split; [exact Hsame|]. split; [reflexivity|]. split; [reflexivity|].
  split; [reflexivity|].
  intros Hroomy. apply Forall_lookup_2. intros j npc' Hj.
  destruct (Hband Hroomy j npc' ltac:(lia) Hj) as (z & Hzone & Hb).
  exists z. cbn [zones screen set_objects]. rewrite Hzs, Hs, Hz1, Hs1.
  split; [exact Hzone | exact Hb].
Qed.

(** A frame inside a building: [updateInterior] returns, and writes only
    the player's position, the interiors and the count of random draws. *)
Lemma updateInterior_step (dt : Q) (g : Game) :
  exists g',
    updateInterior random Math_cos Math_sin Math_PI dt g = Return tt g'
    /\ set_rngIx (rngIx g)
         (set_interiors (interiors g)
            (set_player (set_xy (x (player g)) (y (player g)) (player g')) g'))
       = g
    /\ forall ci interior,
         currentInterior g = Some ci -> interiors g !! ci = Some interior ->
         exists npc',
           interiors g' = <[ci := set_int_npc npc' interior]> (interiors g)
           /\ sameNpc (int_npc interior) npc'
           /\ (32 <= int_width interior ->
               (w (screen g) - int_width interior) / 2 + 16 <= x (player g')
               /\ x (player g')
                  <= (w (screen g) - int_width interior) / 2 + int_width interior - 16)
           /\ (32 <= int_height interior ->
               (h (screen g) - safeBottom (screen g) - int_height interior) / 2 + 16
               <= y (player g')
               /\ y (player g')
                  <= (h (screen g) - safeBottom (screen g) - int_height interior) / 2
                     + int_height interior - 16)
           /\ (40 <= int_width interior ->
               - (int_width interior / 2 - 20) <= npc_x npc'
               /\ npc_x npc' <= int_width interior / 2 - 20)
           /\ (80 <= int_height interior ->
               - (int_height interior / 2 - 40) <= npc_y npc'
               /\ npc_y npc' <= int_height interior / 2 - 40).
Proof.
  cbv delta [updateInterior].
  lazy beta iota delta [bind get ret modify deref throw Math_random].
  destruct (currentInterior g) as [ci|] eqn:Hci;
    [destruct (interiors g !! ci) as [interior|] eqn:Hint|].
  2, 3: exists g; split; [reflexivity|];
        split; [destruct g as [? [] ? ? ? ? ? ? ? ? ? ? ? ? ? ?]; reflexivity|];
        intros ci' interior' Hci' Hint'; congruence.
  all: repeat pull_let.
  destruct (random _ <? _); lazy beta iota; repeat pull_let.
  all: destruct (bounce_chain (- halfW) halfW (- halfH) halfH
                   npc2 npc3 npc4 npc5 npc6 eq_refl eq_refl eq_refl eq_refl)
         as (Hsame & Hx & Hy);
       clearbody npc6; clear npc3 npc4 npc5.
  all: eexists; split; [reflexivity|].
  all: split; [destruct g as [? [] ? ? ? ? ? ? ? ? ? ? ? ? ? ?]; reflexivity|].
  all: intros ci' interior' Hci' Hint';
       assert (ci' = ci) by congruence; subst ci';
       assert (interior' = interior) by congruence; subst interior'.
  all: exists npc6; split; [reflexivity|]; split; [exact Hsame|].
  all: cbn [player set_player x y set_xy set_rngIx set_interiors].
  all: pose proof (Q.min_spec maxX (x p)) as Hmx;
       pose proof (Q.max_spec minX (Qmin maxX (x p))) as HMx;
       pose proof (Q.min_spec maxY (y p)) as Hmy;
       pose proof (Q.max_spec minY (Qmin maxY (y p))) as HMy.
  all: unfold minX, maxX, minY, maxY, intX, intY, pad, halfW, halfH in *.
  all: unfold Qdiv in *; change (/ 2) with (1 # 2) in *.
  all: split; [intros; lra|].
  all: split; [intros; lra|].
  all: split; intros; [apply Hx | apply Hy]; lra.
Qed.

(** X10. A frame in the open, in a world where every NPC stands in a zone that
    exists: [updateWorld] returns; the NPCs are the same ones, moved at
    most; and in a roomy world every one of them ends the frame at least
    20 inside its zone on either side, at least 80 from the top, and at
    least 20 above the bottom band. *)
Theorem updateWorld_npcs_in_bands (dt : Q) (g : Game) :
  npcsZoned g ->
  exists g',
    updateWorld inventoryData random Math_cos Math_sin Math_PI dt g = Return tt g'
    /\ Forall2 sameNpc (npcs g) (npcs g')
    /\ zones g' = zones g /\ screen g' = screen g /\ inInterior g' = inInterior g
    /\ (roomy g -> Forall (inBand g') (npcs g')).
Proof. exact (updateWorld_step dt g). Qed.

Ltac enter_branch :=
  cbv beta iota zeta delta [update bind get modify];
  change (inInterior (set_player _ ?g)) with (inInterior g).

(** One frame, in a world where every NPC stands in a zone that exists. *)
Lemma update_step (dt : Q) (g : Game) :
  npcsZoned g ->
  exists g',
    update inventoryData random Math_cos Math_sin Math_PI dt g = Return tt g'
    /\ Forall2 sameNpc (npcs g) (npcs g')
    /\ zones g' = zones g /\ screen g' = screen g /\ inInterior g' = inInterior g.
Proof.
  intros Hz. enter_branch.
  destruct (inInterior g) eqn:Hin.
  - match goal with
    | |- context [updateInterior _ _ _ _ dt ?st] =>
        destruct (updateInterior_step dt st) as (g1 & Hrun & Hfr & _)
    end.
    rewrite Hrun. eexists. split; [reflexivity|].
    cbn [npcs zones screen inInterior set_player set_messages].
    apply (f_equal (fun s => (npcs s, zones s, screen s, inInterior s))) in Hfr.
    cbn [npcs zones screen inInterior set_player set_rngIx set_interiors] in Hfr.
    injection Hfr as -> -> -> ->.
    split; [apply sameNpcs_refl|]. split; [reflexivity|]. split; [reflexivity|].
    exact Hin.
  - match goal with
    | |- context [updateWorld _ _ _ _ _ dt ?st] =>
        destruct (updateWorld_step dt st Hz) as (g1 & Hrun & Hsame & Hzs & Hs & Hi & _)
    end.
    rewrite Hrun. eexists. split; [reflexivity|].
    cbn [npcs zones screen inInterior set_player set_messages] in *.
    split; [exact Hsame|]. split; [exact Hzs|]. split; [exact Hs|].
    rewrite Hi. exact Hin.
Qed.

Lemma frames_step (n : nat) (dt : Q) (g : Game) :
  npcsZoned g ->
  exists g',
    frames inventoryData random Math_cos Math_sin Math_PI n dt g = Return tt g'
    /\ npcsZoned g'
    /\ Forall2 sameNpc (npcs g) (npcs g')
    /\ zones g' = zones g /\ screen g' = screen g /\ inInterior g' = inInterior g.
Proof.
  revert g. induction n as [|n IH]; intros g Hz.
  - exists g. split; [reflexivity|]. split; [exact Hz|].
    split; [apply sameNpcs_refl|]. repeat split.
  - cbn [frames]. unfold bind.
    destruct (update_step dt g Hz) as (g1 & Hrun & Hsame & Hzs & Hs & Hi).
    rewrite Hrun.
    destruct (IH g1) as (g' & Hrun' & Hz' & Hsame' & Hzs' & Hs' & Hi').
    { eapply npcsZoned_same; eassumption. }
    exists g'. split; [exact Hrun'|]. split; [exact Hz'|].
    split; [eapply sameNpcs_trans; eassumption|].
    split; [congruence|]. split; congruence.
Qed.

(** X11. The frame loop never stops on a world where every NPC stands in a zone
    that exists: any number of frames run to the end, inside a building or
    in the open, whatever the random draws, and leave the same NPCs in
    the same zones. *)
Theorem frames_never_throw (n : nat) (dt : Q) (g : Game) :
  npcsZoned g ->
  exists g',
    frames inventoryData random Math_cos Math_sin Math_PI n dt g = Return tt g'
    /\ npcsZoned g'
    /\ Forall2 sameNpc (npcs g) (npcs g')
    /\ zones g' = zones g /\ screen g' = screen g /\ inInterior g' = inInterior g.
Proof. exact (frames_step n dt g). Qed.

(** X12. A frame spent inside a building: [update] returns and the world
    outside stands still (NPCs, pickups, obstacles, buildings, quests,
    effects), as do the player's inventory, health and gold. The occupant
    of the room stays the same NPC; in a room at least 32 wide and high the
    player ends the frame at least 16 inside its walls, and in a room at
    least 40 by 80 the occupant stays within 20 of the side walls and 40
    of the others, measured from the room's centre. *)
Theorem update_inside_freezes_world (dt : Q) (g : Game) :
  inInterior g = true ->
  exists g',
    update inventoryData random Math_cos Math_sin Math_PI dt g = Return tt g'
    /\ worldFrozen g g'
    /\ forall ci interior,
         currentInterior g = Some ci -> interiors g !! ci = Some interior ->
         exists npc',
           interiors g' = <[ci := set_int_npc npc' interior]> (interiors g)
           /\ sameNpc (int_npc interior) npc'
           /\ (32 <= int_width interior ->
               (w (screen g) - int_width interior) / 2 + 16 <= x (player g')
               /\ x (player g')
                  <= (w (screen g) - int_width interior) / 2 + int_width interior - 16)
           /\ (32 <= int_height interior ->
               (h (screen g) - safeBottom (screen g) - int_height interior) / 2 + 16
               <= y (player g')
               /\ y (player g')
                  <= (h (screen g) - safeBottom (screen g) - int_height interior) / 2
                     + int_height interior - 16)
           /\ (40 <= int_width interior ->
               - (int_width interior / 2 - 20) <= npc_x npc'
               /\ npc_x npc' <= int_width interior / 2 - 20)
           /\ (80 <= int_height interior ->
               - (int_height interior / 2 - 40) <= npc_y npc'
               /\ npc_y npc' <= int_height interior / 2 - 40).
Proof.
  intros Hin. enter_branch. rewrite Hin.
  match goal with
  | |- context [updateInterior _ _ _ _ dt ?st] =>
      destruct (updateInterior_step dt st) as (g1 & Hrun & Hfr & Hroom)
  end.
  rewrite Hrun. eexists. split; [reflexivity|]. split.
  - unfold worldFrozen.
    cbn [npcs objects obstacles buildings zones screen questsState statusEffects
         inInterior currentInterior player inventory hp gold
         set_player set_messages set_abilityCooldown set_speed].
    apply (f_equal (fun s => (npcs s, objects s, obstacles s, buildings s, zones s,
                              screen s, questsState s, statusEffects s,
                              inventory (player s), hp (player s), gold (player s),
                              inInterior s, currentInterior s))) in Hfr.
    cbn [npcs objects obstacles buildings zones screen questsState statusEffects
         inInterior currentInterior player inventory hp gold
         set_player set_rngIx set_interiors set_xy] in Hfr.
    injection Hfr as -> -> -> -> -> -> -> -> -> -> -> -> ->.
    repeat split.
  - intros ci interior Hci Hint.
    destruct (Hroom ci interior Hci Hint) as (npc' & Hints & Hsame & Hb).
    exists npc'. split; [exact Hints|]. split; [exact Hsame|]. exact Hb.
Qed.

End Wandering.

Lemma updateWorld_npcs_in_bands_witness :
  npcsZoned demoGame
  /\ exists g',
       updateWorld [] halfRoll (fun _ => 1) (fun _ => 0) 3 (1 # 10) demoGame = Return tt g'
       /\ Forall2 sameNpc (npcs demoGame) (npcs g')
       /\ zones g' = zones demoGame /\ screen g' = screen demoGame
       /\ inInterior g' = inInterior demoGame
       /\ (roomy demoGame -> Forall (inBand g') (npcs g')).
Proof.
  assert (Hz : npcsZoned demoGame)
    by (apply Forall_cons; split; [eexists; reflexivity | apply Forall_nil; exact I]).
  split; [exact Hz|].
  exact (updateWorld_npcs_in_bands [] halfRoll (fun _ => 1) (fun _ => 0) 3 (1 # 10)
           demoGame Hz).
Defined.

Lemma frames_never_throw_witness :
  npcsZoned demoGame
  /\ exists g',
       frames [] halfRoll (fun _ => 1) (fun _ => 0) 3 100 (1 # 10) demoGame = Return tt g'
       /\ npcsZoned g'
       /\ Forall2 sameNpc (npcs demoGame) (npcs g')
       /\ zones g' = zones demoGame /\ screen g' = screen demoGame
       /\ inInterior g' = inInterior demoGame.
Proof.
  assert (Hz : npcsZoned demoGame)
    by (apply Forall_cons; split; [eexists; reflexivity | apply Forall_nil; exact I]).
  split; [exact Hz|].
  exact (frames_never_throw [] halfRoll (fun _ => 1) (fun _ => 0) 3 100 (1 # 10)
           demoGame Hz).
Defined.

Lemma update_inside_freezes_world_witness :
  inInterior insideSmithy = true
  /\ exists g',
       update [] halfRoll (fun _ => 1) (fun _ => 0) 3 (1 # 10) insideSmithy = Return tt g'
       /\ worldFrozen insideSmithy g'.
Proof.
  assert (Hin : inInterior insideSmithy = true) by (vm_compute; reflexivity).
  split; [exact Hin|].
  destruct (update_inside_freezes_world [] halfRoll (fun _ => 1) (fun _ => 0) 3 (1 # 10)
              insideSmithy Hin) as (g' & Hrun & Hfrozen & _).
  exists g'. split; [exact Hrun | exact Hfrozen].
Defined.

(** ** Start-up: NPCs *)

Section NpcFacts.

Variable random : nat -> Q.

Lemma pickSkill_known (r : Q) : In (pickSkill r) npcSkills.
Proof.
  unfold pickSkill, at_Z. destruct (_ <? _)%Z; [simpl; tauto|].
  destruct (npcSkills !! _) as [s|] eqn:E; [|simpl; tauto].
  cbn [default]. apply list_elem_of_In. eapply list_elem_of_lookup_2. exact E.
Qed.

Lemma initNpc_effect (idx : nat) (dlg : Dialogue) (g : Game) :
  zones g <> [] ->
  exists npc,
    initNpc random idx dlg g
    = Return tt (set_npcs (npcs g ++ [npc]) (set_rngIx (rngIx g + 3) g))
    /\ npcOf g idx dlg npc
    /\ (unitRolls random -> npcRolled g npc).
Proof.
  intros Hzones.
  assert (Hlen : (0 < length (zones g))%nat)
    by (destruct (zones g); [congruence | simpl; lia]).
  assert (Hcount : (if (length (zones g) =? 0)%nat then 1%nat else length (zones g))
                   = length (zones g)).
  { destruct (Nat.eqb_spec (length (zones g)) 0); [lia | reflexivity]. }
  destruct (lookup_lt_is_Some_2 (zones g) (idx mod length (zones g))) as [zone Hzone].
  { apply Nat.mod_upper_bound. lia. }
  unfold initNpc.
  cbv beta iota zeta delta [bind get ret modify deref throw Math_random].
  rewrite Hcount, Hzone. cbv beta iota.
  eexists. split.
  { replace (rngIx g + 3)%nat with (S (S (S (rngIx g)))) by lia. reflexivity. }
  split.
  - unfold npcOf. cbn [npc_id dialogueIndex zoneIndex npc_x dx dy].
    repeat split. exists zone. split; [exact Hzone | reflexivity].
  - intros Hrolls. unfold npcRolled.
    cbn [skill difficulty npc_y rngIx set_rngIx].
    destruct (Hrolls (rngIx g)) as (a0 & a1).
    destruct (Hrolls (S (S (rngIx g)))) as (c0 & c1).
    split; [apply pickSkill_known|].
    split; [split; lra|].
    intros Hh. split; nra.
Qed.

Lemma initNpcsFrom_effect (ds : list Dialogue) (idx : nat) (g : Game) :
  zones g <> [] ->
  exists g' news,
    initNpcsFrom random idx ds g = Return tt g'
    /\ set_rngIx (rngIx g) (set_npcs (npcs g) g') = g
    /\ npcs g' = (npcs g ++ news)%list
    /\ length news = length ds
    /\ (forall k dlg, ds !! k = Some dlg ->
          exists npc, news !! k = Some npc
                      /\ npcOf g (idx + k) dlg npc
                      /\ (unitRolls random -> npcRolled g npc)).
Proof.
  revert idx g. induction ds as [|dlg rest IH]; intros idx g Hzones.
  - exists g, []. split; [reflexivity|].
    split; [destruct g; reflexivity|].
    split; [now rewrite app_nil_r|]. split; [reflexivity|].
    intros k d Hk. discriminate.
  - cbn [initNpcsFrom]. unfold bind at 1.
    destruct (initNpc_effect idx dlg g Hzones) as (npc & Hrun & Hof & Hrolled).
    rewrite Hrun.
    set (g1 := set_npcs (npcs g ++ [npc]) (set_rngIx (rngIx g + 3) g)).
    destruct (IH (S idx) g1 Hzones) as (g' & news & Hrun' & Hfr & Hnpcs & Hlen & Hall).
    exists g', (npc :: news). split; [exact Hrun'|].
    split.
    { transitivity (set_rngIx (rngIx g) (set_npcs (npcs g)
                      (set_rngIx (rngIx g1) (set_npcs (npcs g1) g')))); [reflexivity|].
      rewrite Hfr. unfold g1. destruct g; reflexivity. }
    split.
    { rewrite Hnpcs. unfold g1. cbn [npcs set_npcs]. now rewrite <- app_assoc. }
    split; [simpl; now rewrite Hlen|].
    intros [|k] d Hk.
    + injection Hk as <-. exists npc. rewrite Nat.add_0_r.
      split; [reflexivity|]. split; assumption.
    + destruct (Hall k d Hk) as (npc' & Hlk & Hof' & Hrolled').
      exists npc'. replace (idx + S k)%nat with (S idx + k)%nat by lia.
      split; [exact Hlk|]. split; [exact Hof' | exact Hrolled'].
Qed.

End NpcFacts.

(** ** Start-up: buildings *)

Section BuildingFacts.

Variable random : nat -> Q.

Lemma placeBuilding_effect (attempts : nat) (zone : Zone) (zi : nat) (bw : Q)
    (used : gset (nat * Z)) (g : Game) :
  exists o used' n,
    placeBuilding random attempts zone zi bw used g = Return (o, used') (set_rngIx n g)
    /\ (unitRolls random -> 0 <= zone_width zone - bw - 60 ->
        forall cx, o = Some cx ->
                   zone_x zone + 30 <= cx <= zone_x zone + zone_width zone - bw - 30).
Proof.
  revert g. induction attempts as [|k IH]; intros g.
  - exists None, used, (rngIx g). split; [destruct g; reflexivity|].
    intros _ _ cx Hcx. discriminate.
  - cbn [placeBuilding].
    cbv beta iota zeta delta [bind ret Math_random].
    destruct (bool_decide _).
    + destruct (IH (set_rngIx (S (rngIx g)) g)) as (o & used' & n & Hrun & Hb).
      exists o, used', n. split; [exact Hrun | exact Hb].
    + eexists _, _, _. split; [reflexivity|].
      intros Hrolls Hroom cx [= <-].
      destruct (Hrolls (rngIx g)) as (a0 & a1). split; nra.
Qed.

Lemma initBuilding_effect (used : gset (nat * Z)) (npc : Npc) (g : Game) (zone : Zone) :
  zones g !! zoneIndex npc = Some zone ->
  exists b i used' n,
    initBuilding random used npc g
    = Return used' (set_interiors (interiors g ++ [i])
                      (set_buildings (buildings g ++ [b]) (set_rngIx n g)))
    /\ buildingOf random g npc b /\ interiorOf g npc i.
Proof.
  intros Hzone. unfold initBuilding.
  cbv beta iota zeta delta [bind get ret modify].
  rewrite Hzone.
  destruct (placeBuilding_effect 10 zone (zoneIndex npc)
              (Qmax 80 (zone_width zone * (1 # 4))) used g)
    as (o & used' & n & Hrun & Hplace).
  rewrite Hrun. cbv beta iota delta [Math_random].
  eexists _, _, _, _. split; [reflexivity|]. split.
  - exists zone. cbn [b_npcId b_width b_height b_x b_y doorX doorY fst snd rngIx set_rngIx
                      screen].
    split; [exact Hzone|].
    repeat match goal with |- _ = _ /\ _ => split; [reflexivity|] end.
    set (bw := Qmax 80 (zone_width zone * (1 # 4))) in *.
    set (bh := Qmax 80 (h (screen g) * (15 # 100))) in *.
    split.
    + intros Hrolls Hwide.
      pose proof (Q.max_spec 80 (zone_width zone * (1 # 4))) as Hbw. fold bw in Hbw.
      assert (Hroom : 0 <= zone_width zone - bw - 60) by lra.
      destruct o as [cx|]; cbn [from_option id].
      * destruct (Hplace Hrolls Hroom cx eq_refl). lra.
      * unfold Qdiv. change (/ 2) with (1 # 2). lra.
    + intros Hrolls Hhigh. destruct (Hrolls n) as (a0 & a1). split; nra.
  - unfold interiorOf. cbn [int_npcId int_width int_height int_npc screen set_rngIx
                            npc_x npc_y dx dy set_npc_motion].
    repeat split.
Qed.

End BuildingFacts.

Section StartupFacts.

Variable random : nat -> Q.

Lemma initBuildingsFrom_effect (ns : list Npc) (used : gset (nat * Z)) (g : Game) :
  exists g' bs rooms,
    initBuildingsFrom random used ns g = Return tt g'
    /\ set_rngIx (rngIx g) (set_buildings (buildings g) (set_interiors (interiors g) g')) = g
    /\ buildings g' = (buildings g ++ bs)%list
    /\ interiors g' = (interiors g ++ rooms)%list
    /\ Forall2 (buildingOf random g)
         (List.filter (fun npc => match zones g !! zoneIndex npc with
                                  | Some _ => true
                                  | None => false
                                  end) ns) bs
    /\ Forall2 (interiorOf g)
         (List.filter (fun npc => match zones g !! zoneIndex npc with
                                  | Some _ => true
                                  | None => false
                                  end) ns) rooms.
Proof.
  revert used g. induction ns as [|npc rest IH]; intros used g.
  - exists g, [], []. split; [reflexivity|].
    split; [destruct g; reflexivity|].
    rewrite !app_nil_r. repeat split; constructor.
  - cbn [initBuildingsFrom List.filter]. unfold bind at 1.
    destruct (zones g !! zoneIndex npc) as [zone|] eqn:Hzone.
    + destruct (initBuilding_effect random used npc g zone Hzone)
        as (b & i & used' & n & Hrun & Hb & Hi).
      rewrite Hrun.
      set (g1 := set_interiors (interiors g ++ [i])
                   (set_buildings (buildings g ++ [b]) (set_rngIx n g))).
      destruct (IH used' g1) as (g' & bs & rooms & Hrun' & Hfr & Hbs & Hrooms & HB & HI).
      exists g', (b :: bs), (i :: rooms). split; [exact Hrun'|].
      split.
      { transitivity (set_rngIx (rngIx g) (set_buildings (buildings g)
                        (set_interiors (interiors g)
                           (set_rngIx (rngIx g1) (set_buildings (buildings g1)
                              (set_interiors (interiors g1) g'))))));
          [reflexivity|].
        rewrite Hfr. unfold g1. destruct g; reflexivity. }
      split; [rewrite Hbs; unfold g1; cbn [buildings set_interiors set_buildings];
              now rewrite <- app_assoc|].
      split; [rewrite Hrooms; unfold g1; cbn [interiors set_interiors];
              now rewrite <- app_assoc|].
      split; constructor; assumption.
    + assert (Hrun : initBuilding random used npc g = Return used g).
      { unfold initBuilding. cbv beta iota delta [bind get ret]. rewrite Hzone.
        reflexivity. }
      rewrite Hrun. apply IH.
Qed.

Lemma housed_all (g : Game) : npcsZoned g -> housed g = npcs g.
Proof.
  unfold npcsZoned, housed. induction 1 as [|npc rest [z Hz] _ IH]; [reflexivity|].
  cbn [List.filter]. rewrite Hz, IH. reflexivity.
Qed.

(** X13. [initBuildings] never throws. It replaces buildings and interiors by
    one of each for every NPC whose zone exists, in the order of the NPCs:
    a building at least 80 wide and high with its door at the middle of
    its lower edge, lying inside a zone at least 140 wide; and a room whose
    occupant is that NPC at rest, a quarter of the room's height above its
    centre. It writes nothing else but the count of random draws. *)
Theorem initBuildings_per_npc (g : Game) :
  exists g',
    initBuildings random g = Return tt g'
    /\ set_rngIx (rngIx g) (set_buildings (buildings g) (set_interiors (interiors g) g')) = g
    /\ Forall2 (buildingOf random g) (housed g) (buildings g')
    /\ Forall2 (interiorOf g) (housed g) (interiors g')
    /\ Forall (fun b => 80 <= b_width b /\ 80 <= b_height b) (buildings g').
Proof.
  unfold initBuildings. cbv beta iota delta [bind get modify].
  destruct (initBuildingsFrom_effect (npcs g) ∅ (set_interiors [] (set_buildings [] g)))
    as (g' & bs & rooms & Hrun & Hfr & Hbs & Hrooms & HB & HI).
  exists g'. split; [exact Hrun|].
  split.
  { transitivity (set_rngIx (rngIx g) (set_buildings (buildings g)
                    (set_interiors (interiors g)
                       (set_rngIx (rngIx g) (set_buildings []
                          (set_interiors [] g'))))));
      [reflexivity|].
    change (set_rngIx (rngIx g) (set_buildings [] (set_interiors [] g')))
      with (set_rngIx (rngIx (set_interiors [] (set_buildings [] g)))
              (set_buildings (buildings (set_interiors [] (set_buildings [] g)))
                 (set_interiors (interiors (set_interiors [] (set_buildings [] g))) g'))).
    rewrite Hfr. destruct g; reflexivity. }
  rewrite Hbs, Hrooms. cbn [buildings interiors set_interiors set_buildings app].
  split; [exact HB|]. split; [exact HI|].
  clear - HB. induction HB as [|npc b ns bs' (z & _ & _ & Hw & Hh & _) _ IH]; constructor.
  - rewrite Hw, Hh. split; apply Q.le_max_l.
  - exact IH.
Qed.

Lemma initBuildings_step (g : Game) :
  exists g',
    initBuildings random g = Return tt g'
    /\ set_rngIx (rngIx g) (set_buildings (buildings g) (set_interiors (interiors g) g')) = g
    /\ Forall2 (buildingOf random g) (housed g) (buildings g')
    /\ Forall2 (interiorOf g) (housed g) (interiors g').
Proof.
  unfold initBuildings. cbv beta iota delta [bind get modify].
  destruct (initBuildingsFrom_effect (npcs g) ∅ (set_interiors [] (set_buildings [] g)))
    as (g' & bs & rooms & Hrun & Hfr & Hbs & Hrooms & HB & HI).
  exists g'. split; [exact Hrun|].
  split.
  { transitivity (set_rngIx (rngIx g) (set_buildings (buildings g)
                    (set_interiors (interiors g)
                       (set_rngIx (rngIx g) (set_buildings []
                          (set_interiors [] g'))))));
      [reflexivity|].
    change (set_rngIx (rngIx g) (set_buildings [] (set_interiors [] g')))
      with (set_rngIx (rngIx (set_interiors [] (set_buildings [] g)))
              (set_buildings (buildings (set_interiors [] (set_buildings [] g)))
                 (set_interiors (interiors (set_interiors [] (set_buildings [] g))) g'))).
    rewrite Hfr. destruct g; reflexivity. }
  rewrite Hbs, Hrooms. cbn [buildings interiors set_interiors set_buildings app].
  split; [exact HB | exact HI].
Qed.

Lemma initObstacle_returns (zi : nat) (zone : Zone) (g : Game) :
  exists o,
    initObstacle random zi zone g
    = Return tt (set_obstacles (obstacles g ++ [o]) (set_rngIx (rngIx g + 4) g)).
Proof.
  unfold initObstacle. run. eexists.
  replace (rngIx g + 4)%nat with (S (S (S (S (rngIx g))))) by lia. reflexivity.
Qed.

Lemma initObstaclesFrom_returns (zs : list Zone) (zi : nat) (g : Game) :
  exists g',
    initObstaclesFrom random zi zs g = Return tt g'
    /\ set_rngIx (rngIx g) (set_obstacles (obstacles g) g') = g
    /\ length (obstacles g') = (length (obstacles g) + 3 * length zs)%nat.
Proof.
  revert zi g. induction zs as [|zone rest IH]; intros zi g.
  - exists g. split; [reflexivity|]. split; [destruct g; reflexivity|]. simpl. lia.
  - cbn [initObstaclesFrom].
    destruct (initObstacle_returns zi zone g) as (o1 & E1).
    set (g1 := set_obstacles (obstacles g ++ [o1]) (set_rngIx (rngIx g + 4) g)) in *.
    destruct (initObstacle_returns zi zone g1) as (o2 & E2).
    set (g2 := set_obstacles (obstacles g1 ++ [o2]) (set_rngIx (rngIx g1 + 4) g1)) in *.
    destruct (initObstacle_returns zi zone g2) as (o3 & E3).
    set (g3 := set_obstacles (obstacles g2 ++ [o3]) (set_rngIx (rngIx g2 + 4) g2)) in *.
    destruct (IH (S zi) g3) as (g' & Hrun & Hfr & Hlen).
    exists g'. split.
    { unfold bind. rewrite E1. unfold bind. rewrite E2. rewrite E3. exact Hrun. }
    split.
    + transitivity (set_rngIx (rngIx g) (set_obstacles (obstacles g)
                      (set_rngIx (rngIx g3) (set_obstacles (obstacles g3) g'))));
        [reflexivity|].
      rewrite Hfr. unfold g3, g2, g1. destruct g; reflexivity.
    + rewrite Hlen. unfold g3, g2, g1. cbn [obstacles set_obstacles set_rngIx].
      rewrite !length_app. simpl. lia.
Qed.

Lemma initObstacles_returns (g : Game) :
  exists g',
    initObstacles random g = Return tt g'
    /\ set_rngIx (rngIx g) (set_obstacles (obstacles g) g') = g
    /\ length (obstacles g') = (3 * length (zones g))%nat.
Proof.
  unfold initObstacles. cbv beta iota delta [bind get modify].
  destruct (initObstaclesFrom_returns (zones g) 0 (set_obstacles [] g))
    as (g' & Hrun & Hfr & Hlen).
  exists g'. split; [exact Hrun|]. split; [|exact Hlen].
  transitivity (set_rngIx (rngIx g) (set_obstacles (obstacles g)
                  (set_rngIx (rngIx (set_obstacles [] g))
                     (set_obstacles (obstacles (set_obstacles [] g)) g'))));
    [reflexivity|].
  rewrite Hfr. destruct g; reflexivity.
Qed.

End StartupFacts.

Section WorldFacts.

Variable random : nat -> Q.

Lemma buildingOf_same (g g' : Game) (npc : Npc) (b : Building) :
  zones g' = zones g -> screen g' = screen g ->
  buildingOf random g npc b -> buildingOf random g' npc b.
Proof. unfold buildingOf. intros -> ->. tauto. Qed.

Lemma interiorOf_same (g g' : Game) (npc : Npc) (i : Interior) :
  screen g' = screen g -> interiorOf g npc i -> interiorOf g' npc i.
Proof. unfold interiorOf. intros ->. tauto. Qed.

Lemma initNPCs_step (dialogues : list Dialogue) (g : Game) :
  zones g <> [] ->
  exists g',
    initNPCs dialogues random g = Return tt g'
    /\ zones g' = zones g /\ screen g' = screen g /\ player g' = player g
    /\ questsState g' = questsState g
    /\ length (npcs g') = length dialogues
    /\ (forall k dlg, dialogues !! k = Some dlg ->
          exists npc, npcs g' !! k = Some npc
                      /\ npcOf g k dlg npc
                      /\ (unitRolls random -> npcRolled g npc))
    /\ npcsZoned g'
    /\ Forall2 (buildingOf random g') (npcs g') (buildings g')
    /\ Forall2 (interiorOf g') (npcs g') (interiors g')
    /\ length (obstacles g') = (3 * length (zones g))%nat.
Proof.
  intros Hzones. unfold initNPCs. cbv beta iota delta [bind modify].
  destruct (initNpcsFrom_effect random dialogues 0 (set_npcs [] g) Hzones)
    as (g1 & news & Hrun1 & Hfr1 & Hnpcs1 & Hlen1 & Hall1).
  rewrite Hrun1.
  destruct (initBuildings_step random g1) as (g2 & Hrun2 & Hfr2 & HB & HI).
  rewrite Hrun2.
  destruct (initObstacles_returns random g2) as (g3 & Hrun3 & Hfr3 & Hlen3).
  rewrite Hrun3.
  exists g3. split; [reflexivity|].
  cbn [npcs set_npcs app] in Hnpcs1.
  pose proof (f_equal zones Hfr1) as Hz1. pose proof (f_equal screen Hfr1) as Hs1.
  pose proof (f_equal player Hfr1) as Hp1. pose proof (f_equal questsState Hfr1) as Hq1.
  pose proof (f_equal zones Hfr2) as Hz2. pose proof (f_equal screen Hfr2) as Hs2.
  pose proof (f_equal player Hfr2) as Hp2. pose proof (f_equal questsState Hfr2) as Hq2.
  pose proof (f_equal npcs Hfr2) as Hn2.
  pose proof (f_equal zones Hfr3) as Hz3. pose proof (f_equal screen Hfr3) as Hs3.
  pose proof (f_equal player Hfr3) as Hp3. pose proof (f_equal questsState Hfr3) as Hq3.
  pose proof (f_equal npcs Hfr3) as Hn3.
  pose proof (f_equal buildings Hfr3) as Hb3.
  pose proof (f_equal interiors Hfr3) as Hi3.
  simpl in Hz1, Hs1, Hp1, Hq1, Hz2, Hs2, Hp2, Hq2, Hn2, Hz3, Hs3, Hp3, Hq3, Hn3, Hb3, Hi3.
  assert (Hzoned : npcsZoned g1).
  { unfold npcsZoned. rewrite Hnpcs1. apply Forall_lookup_2. intros j npc Hj.
    destruct (lookup_lt_is_Some_2 dialogues j) as [dlg Hdlg].
    { rewrite <- Hlen1. eapply lookup_lt_Some. exact Hj. }
    destruct (Hall1 j dlg Hdlg) as (npc' & Hj' & (_ & _ & _ & (z & Hz & _) & _) & _).
    rewrite Hj in Hj'. injection Hj' as <-. exists z. rewrite Hz1. exact Hz. }
  rewrite (housed_all g1 Hzoned) in HB, HI.
  split; [congruence|]. split; [congruence|]. split; [congruence|]. split; [congruence|].
  rewrite Hn3, Hn2, Hb3, Hi3, Hnpcs1.
  split; [exact Hlen1|].
  split; [exact Hall1|].
  split.
  { unfold npcsZoned. rewrite Hn3, Hn2, Hz3, Hz2. exact Hzoned. }
  rewrite Hnpcs1 in HB, HI.
  split.
  { eapply Forall2_impl; [exact HB|]. intros npc b.
    apply buildingOf_same; congruence. }
  split.
  { eapply Forall2_impl; [exact HI|]. intros npc i.
    apply interiorOf_same; congruence. }
  rewrite Hlen3. congruence.
Qed.


Lemma initNPCs_no_zone (dialogues : list Dialogue) (g : Game) :
  zones g = [] -> dialogues <> [] ->
  initNPCs dialogues random g = Throw (set_npcs [] g).
Proof.
  intros Hz Hd. destruct dialogues as [|dlg rest]; [contradiction|].
  unfold initNPCs. cbn [initNpcsFrom]. unfold initNpc.
  cbv beta iota zeta delta [bind get modify deref throw].
  change (zones (set_npcs [] g)) with (zones g). rewrite Hz. reflexivity.
Qed.

(** X15. With dialogues but no zone, [initNPCs] throws on the first dialogue,
    at the read of the zone's [x], having only emptied [G.npcs]: no NPC,
    building or obstacle is made and no random number is drawn. *)
Theorem initNPCs_without_zones_throws (dialogues : list Dialogue) (g : Game) :
  zones g = [] -> dialogues <> [] ->
  initNPCs dialogues random g = Throw (set_npcs [] g).
Proof. exact (initNPCs_no_zone dialogues g). Qed.

End WorldFacts.


Lemma initNPCs_without_zones_throws_witness :
  zones initialGame = [] /\ [keyDialogue] <> []
  /\ initNPCs [keyDialogue] halfRoll initialGame = Throw (set_npcs [] initialGame).
Proof.
  split; [reflexivity|]. split; [discriminate|].
  apply (initNPCs_without_zones_throws halfRoll [keyDialogue] initialGame);
    [reflexivity | discriminate].
Defined.

(** On the machine, at the largest draw: the difficulty is 0.8 itself and
    the height is past half the window; both are within the bounds that
    the code's expressions give. *)
Example npc_draws_on_the_machine :
  Doubles.difficultyReachesTop = true /\ Doubles.heightPassesHalf = true.
Proof. split; vm_compute; reflexivity. Qed.

(** ** Start-up: ids and the whole of it *)

(** X16. The id of an NPC. After [ensureDialoguesHaveSpeaker] it is never
    empty. Without it, a dialogue whose first node has no speaker gives an
    NPC with the empty id; and a first node spoken by the player, in any
    letter case, gives [npc_<position + 1>]. *)
Theorem npcIdFor_normalised_nonempty (dialogues : list Dialogue) :
  (forall dlg idx,
      In dlg (ensureDialoguesHaveSpeaker dialogues) -> npcIdFor dlg idx <> EmptyString)
  /\ (forall dlg first rest idx,
        nodes dlg = first :: rest -> truthy (speaker first) = None ->
        npcIdFor dlg idx = EmptyString)
  /\ (forall dlg first rest idx s,
        nodes dlg = first :: rest -> speaker first = Some s ->
        toLowerCase s = "player" ->
        npcIdFor dlg idx = "npc_" +:+ pretty (idx + 1)%nat).
Proof.
  split; [|split].
  - intros dlg idx Hin. unfold ensureDialoguesHaveSpeaker in Hin.
    apply in_map_iff in Hin. destruct Hin as (d & <- & _).
    unfold npcIdFor. cbn [nodes].
    destruct (nodes d) as [|first rest]; [discriminate|].
    cbn [map]. destruct (ensureSpeaker_spoken first) as (s & Hs & Hne).
    rewrite Hs. destruct s as [|c s]; [contradiction|].
    cbn [truthy from_option id].
    destruct (negb _); discriminate.
  - intros dlg first rest idx Hnodes Hsp. unfold npcIdFor. rewrite Hnodes, Hsp.
    reflexivity.
  - intros dlg first rest idx s Hnodes Hsp Hlow. unfold npcIdFor.
    rewrite Hnodes, Hsp.
    destruct s as [|c s]; [discriminate|].
    cbn [truthy from_option id]. rewrite Hlow. reflexivity.
Qed.

Section WholeStartup.

Variable random : nat -> Q.

Lemma initQuestsFrom_stepless (quests : list Quest) (qIndex : nat) (g : Game) :
  Forall (fun q => q_steps q = []) quests ->
  returns (initQuestsFrom qIndex quests g) = true.
Proof.
  intros H. revert qIndex g. induction H as [|q rest Hq _ IH]; intros qIndex g.
  - reflexivity.
  - cbn [initQuestsFrom]. rewrite Hq. cbn [assignSteps].
    cbv beta iota delta [bind ret modify]. apply IH.
Qed.

Lemma steps_somewhere (quests : list Quest) :
  Forall (fun q => q_steps q = []) quests
  \/ exists q, In q quests /\ q_steps q <> [].
Proof.
  induction quests as [|q rest [IH | (q0 & Hin & Hs)]].
  - left. constructor.
  - destruct (q_steps q) as [|st sts] eqn:E.
    + left. constructor; assumption.
    + right. exists q. split; [now left | congruence].
  - right. exists q0. split; [now right | exact Hs].
Qed.

Lemma initNPCs_none (g : Game) :
  exists g', initNPCs [] random g = Return tt g' /\ npcs g' = [].
Proof.
  unfold initNPCs. cbn [initNpcsFrom]. cbv beta iota delta [bind modify ret].
  destruct (initBuildings_step random (set_npcs [] g)) as (g2 & Hrun2 & Hfr2 & _).
  rewrite Hrun2.
  destruct (initObstacles_returns random g2) as (g3 & Hrun3 & Hfr3 & _).
  rewrite Hrun3. exists g3. split; [reflexivity|].
  pose proof (f_equal npcs Hfr2) as Hn2. pose proof (f_equal npcs Hfr3) as Hn3.
  simpl in Hn2, Hn3. congruence.
Qed.

Lemma initZones_count (worldZones : option (list Zone)) (g : Game) :
  length (zones (initZones worldZones g)) = length (default [] worldZones).
Proof. unfold initZones. cbn [zones set_zones]. apply length_imap. Qed.

(** X17. [initGameState] returns exactly when there is a zone for the NPCs,
    or no dialogue, and an NPC for the quest steps, or no step: with
    dialogues and no zone [initNPCs] throws, and with no dialogue and a
    quest that has a step [initQuestsState] throws. *)
Theorem initGameState_returns_iff (dialogues : list Dialogue)
    (worldZones : option (list Zone)) (quests : list Quest)
    (abilitiesData : option (list Ability)) (g : Game) :
  returns (initGameState dialogues random worldZones quests abilitiesData g) = true
  <-> (dialogues = [] \/ default [] worldZones <> [])
      /\ (dialogues <> [] \/ Forall (fun q => q_steps q = []) quests).
Proof.
  unfold initGameState. cbv beta iota delta [bind modify].
  set (g0 := initZones worldZones g).
  pose proof (initZones_count worldZones g) as Hcount. fold g0 in Hcount.
  destruct dialogues as [|dlg rest].
  - destruct (initNPCs_none g0) as (g1 & Hrun & Hn). rewrite Hrun.
    unfold initQuestsState. cbv beta iota delta [bind modify].
    destruct (steps_somewhere quests) as [Hall | Hsome].
    + pose proof (initQuestsFrom_stepless quests 0 (set_questsState [] g1) Hall) as Hret.
      destruct (initQuestsFrom 0 quests (set_questsState [] g1)); [|discriminate].
      split; [intros _; split; [now left | now right] | reflexivity].
    + pose proof (initQuestsFrom_no_npc quests 0 (set_questsState [] g1) Hn Hsome) as Hret.
      destruct (initQuestsFrom 0 quests (set_questsState [] g1)); [discriminate|].
      split; [discriminate|].
      intros (_ & [Hd | Hall]); [contradiction|].
      destruct Hsome as (q & Hin & Hs). rewrite Forall_forall in Hall.
      apply list_elem_of_In in Hin. specialize (Hall q Hin). contradiction.
  - destruct (zones g0) as [|z zs] eqn:Hz.
    + rewrite (initNPCs_no_zone random (dlg :: rest) g0 Hz) by discriminate.
      split; [discriminate|].
      intros ([Hd | Hzs] & _); [discriminate|].
      destruct (default [] worldZones); [contradiction|discriminate].
    + destruct (initNPCs_step random (dlg :: rest) g0) as (g1 & Hrun & _ & _ & _ & _ & Hlen & _).
      { rewrite Hz. discriminate. }
      rewrite Hrun.
      assert (Hn : npcs g1 <> []) by (destruct (npcs g1); [discriminate | discriminate]).
      unfold initQuestsState. cbv beta iota delta [bind modify].
      rewrite (initQuestsFrom_fresh quests 0 (set_questsState [] g1) Hn).
      split; [|reflexivity].
      intros _. split; [right | left; discriminate].
      intros Hnil. rewrite Hnil in Hcount. discriminate.
Qed.


End WholeStartup.


(** ** Doors *)

Section Doors.

Variable spawnX spawnY : Interior -> Q.

(** X19. Going in and out. From the open, entering a building and leaving it
    again brings the game back exactly as it was, the player's position
    included, whether or not the building has a room. Entering always
    records the position; with a room (the first whose NPC is the
    building's) the player is inside it, at the room's spawn point
    measured from the centre of the playfield; without one nothing else
    happens. Leaving while outside does nothing. *)
Theorem enter_then_exit_restores (b : Building) (s : Located) :
  inInterior (game s) = false -> currentInterior (game s) = None ->
  game (exitBuilding (enterBuilding spawnX spawnY b s)) = game s
  /\ previousPosition (enterBuilding spawnX spawnY b s)
     = (x (player (game s)), y (player (game s)))
  /\ exitBuilding s = s
  /\ (forall ci room,
        findIndex (fun i => String.eqb (int_npcId i) (b_npcId b)) (interiors (game s))
        = Some (ci, room) ->
        interiors (game s) !! ci = Some room
        /\ int_npcId room = b_npcId b
        /\ inInterior (game (enterBuilding spawnX spawnY b s)) = true
        /\ currentInterior (game (enterBuilding spawnX spawnY b s)) = Some ci
        /\ x (player (game (enterBuilding spawnX spawnY b s)))
           = (w (screen (game s)) - int_width room) / 2 + int_width room / 2 + spawnX room
        /\ y (player (game (enterBuilding spawnX spawnY b s)))
           = (h (screen (game s)) - safeBottom (screen (game s)) - int_height room) / 2
             + int_height room / 2 + spawnY room)
  /\ (findIndex (fun i => String.eqb (int_npcId i) (b_npcId b)) (interiors (game s)) = None ->
      game (enterBuilding spawnX spawnY b s) = game s).
Proof.
  intros Hout Hnone.
  unfold enterBuilding, exitBuilding. cbv zeta.
  destruct (findIndex _ (interiors (game s))) as [[ci room]|] eqn:Hfind.
  - cbn [game previousPosition inInterior set_player set_location negb fst snd
         currentInterior player x y set_xy].
    split.
    { destruct s as [g prev]. cbn [game] in *.
      destruct g as [? [] ? ? ? ? ? ? ? ? ? ? ? ? ? ?]. cbn in Hout, Hnone. subst.
      reflexivity. }
    split; [reflexivity|].
    split; [rewrite Hout; reflexivity|].
    split; [|discriminate].
    intros ci' room' [= <- <-].
    apply findIndex_lookup in Hfind. destruct Hfind as (Hlk & Heq).
    apply String.eqb_eq in Heq. repeat split; assumption.
  - cbn [game previousPosition]. rewrite Hout. cbn [negb game].
    split; [reflexivity|]. split; [reflexivity|]. split; [reflexivity|].
    split; [discriminate | reflexivity].
Qed.

End Doors.

Lemma enter_then_exit_restores_witness :
  inInterior builtWorld = false /\ currentInterior builtWorld = None
  /\ forall b,
       game (exitBuilding (enterBuilding (fun _ => 0) (fun i => int_height i / 2 - 60) b
                             {| game := builtWorld; previousPosition := (0, 0) |}))
       = builtWorld.
Proof.
  assert (Hout : inInterior builtWorld = false) by (vm_compute; reflexivity).
  assert (Hnone : currentInterior builtWorld = None) by (vm_compute; reflexivity).
  split; [exact Hout|]. split; [exact Hnone|].
  intros b.
  exact (proj1 (enter_then_exit_restores (fun _ => 0) (fun i => int_height i / 2 - 60) b
                  {| game := builtWorld; previousPosition := (0, 0) |} Hout Hnone)).
Defined.

(** ** Picking an NPC *)

(** X20. Whoever [pickNPCAt] returns is within 20 pixels of the point. In the
    open it is a world NPC, and no NPC before it in [G.npcs] is that
    close. Inside a building it is the occupant of the current room, its
    place measured from the centre of the playfield, and never a world
    NPC; with no NPC that close, nobody is returned. *)
Theorem pickNPCAt_within_reach (px py : Q) (g : Game) (npc : Npc) :
  pickNPCAt px py g = Some npc ->
  (inInterior g = false ->
   (npc_x npc - px) * (npc_x npc - px) + (npc_y npc - py) * (npc_y npc - py) < 20 * 20
   /\ exists i, npcs g !! i = Some npc
                /\ forall j other, (j < i)%nat -> npcs g !! j = Some other ->
                     20 * 20 <= (npc_x other - px) * (npc_x other - px)
                                + (npc_y other - py) * (npc_y other - py))
  /\ (inInterior g = true ->
      exists ci room,
        currentInterior g = Some ci /\ interiors g !! ci = Some room
        /\ npc = int_npc room
        /\ ((w (screen g) - int_width room) / 2 + int_width room / 2 + npc_x npc - px)
           * ((w (screen g) - int_width room) / 2 + int_width room / 2 + npc_x npc - px)
           + ((h (screen g) - safeBottom (screen g) - int_height room) / 2
              + int_height room / 2 + npc_y npc - py)
             * ((h (screen g) - safeBottom (screen g) - int_height room) / 2
                + int_height room / 2 + npc_y npc - py)
           < 20 * 20).
Proof.
  unfold pickNPCAt. intros Hpick. split; intros Hin; rewrite Hin in Hpick.
  - unfold find in Hpick.
    destruct (findIndex _ (npcs g)) as [[i a]|] eqn:Hfind; [|discriminate].
    injection Hpick as ->.
    assert (Hfirst : forall (l : list Npc) (p : Npc -> bool) i a,
               findIndex p l = Some (i, a) ->
               forall j other, (j < i)%nat -> l !! j = Some other -> p other = false).
    { clear. induction l as [|c rest IH]; intros p i a; simpl; [discriminate|].
      destruct (p c) eqn:E.
      - intros [= <- <-] j other Hj. lia.
      - destruct (findIndex p rest) as [[k d]|] eqn:Hf; [|discriminate].
        intros [= <- <-] [|j] other Hj Hlk.
        + injection Hlk as <-. exact E.
        + simpl in Hlk. eapply (IH p k d Hf j other); [lia | exact Hlk]. }
    pose proof (Hfirst _ _ _ _ Hfind) as Hbefore.
    apply findIndex_lookup in Hfind. destruct Hfind as (Hlk & Hnear).
    cbv zeta in Hnear. apply Qltb_lt in Hnear.
    split; [exact Hnear|]. exists i. split; [exact Hlk|].
    intros j other Hj Hother. specialize (Hbefore j other Hj Hother).
    cbv zeta in Hbefore. apply Qltb_ge in Hbefore. exact Hbefore.
  - destruct (currentInterior g) as [ci|]; [|discriminate].
    destruct (interiors g !! ci) as [room|] eqn:Hroom; [|discriminate].
    cbv zeta in Hpick.
    destruct (_ <? _) eqn:Hnear; [|discriminate].
    injection Hpick as <-. apply Qltb_lt in Hnear.
    exists ci, room. split; [reflexivity|]. split; [exact Hroom|].
    split; [reflexivity | exact Hnear].
Qed.

Lemma pickNPCAt_within_reach_witness :
  pickNPCAt 5 5 demoGame = Some smith
  /\ (npc_x smith - 5) * (npc_x smith - 5) + (npc_y smith - 5) * (npc_y smith - 5) < 20 * 20.
Proof.
  assert (Hpick : pickNPCAt 5 5 demoGame = Some smith) by (vm_compute; reflexivity).
  split; [exact Hpick|].
  exact (proj1 (proj1 (pickNPCAt_within_reach 5 5 demoGame smith Hpick) eq_refl)).
Defined.

(** ** The shop *)

(** X21. Buying. The price is 30 for a weapon or armour, 10 for a quest item
    and 20 otherwise. Without that much gold only a message is queued.
    With it, the gold goes down by the price, the item's id is appended to
    the inventory (owned already or not), and every stock entry with that
    id is removed, so that the item is no longer on offer. If the stock
    was never set up, the purchase throws after the gold is taken and the
    item added. *)
Theorem purchaseItem_outcome (item : Item) (g : Game) :
  (getItemPrice item == 10 \/ getItemPrice item == 20 \/ getItemPrice item == 30)
  /\ (gold (player g) < getItemPrice item ->
      purchaseItem item g = Return tt (addMessage "Not enough gold" defaultDuration g))
  /\ (getItemPrice item <= gold (player g) ->
      let g' := final (purchaseItem item g) in
      gold (player g') = gold (player g) - getItemPrice item
      /\ gold (player g') < gold (player g)
      /\ inventory (player g') = (inventory (player g) ++ [item_id item])%list
      /\ messages g'
         = (messages g ++ [ {| msg_text := "Bought " +:+ item_name item;
                               msg_time := defaultDuration |} ])%list
      /\ (forall stock, shopStock g = Some stock ->
            returns (purchaseItem item g) = true
            /\ exists stock',
                 shopStock g' = Some stock'
                 /\ (forall i, In i stock' <-> In i stock /\ item_id i <> item_id item))
      /\ (shopStock g = None ->
          returns (purchaseItem item g) = false /\ shopStock g' = None)).
Proof.
  assert (Hprice : getItemPrice item == 10 \/ getItemPrice item == 20
                   \/ getItemPrice item == 30).
  { unfold getItemPrice. cbv zeta.
    destruct (_ || _); [right; right; reflexivity|].
    destruct (String.eqb _ _); [left | right; left]; reflexivity. }
  split; [exact Hprice|].
  unfold purchaseItem. cbv beta iota zeta delta [bind get modify deref throw ret].
  generalize dependent (getItemPrice item). intros price Hprice.
  split.
  - intros Hpoor. apply Qleb_gt in Hpoor. rewrite Hpoor. reflexivity.
  - intros Hrich. pose proof Hrich as Hle. apply Qleb_le in Hrich. rewrite Hrich.
    cbn [shopStock set_player addMessage set_messages].
    destruct (shopStock g) as [stock|] eqn:Hstock;
      cbn [final returns player set_player set_shopStock gold set_gold inventory
           set_inventory messages set_messages addMessage shopStock].
    + split; [reflexivity|]. split; [lra|]. split; [reflexivity|].
      split; [reflexivity|]. split; [|discriminate].
      intros stock0 [= <-]. split; [reflexivity|].
      eexists. split; [reflexivity|].
      intros i. rewrite filter_In. split.
      * intros (Hin & Hne). split; [exact Hin|].
        apply negb_true_iff, String.eqb_neq in Hne. exact Hne.
      * intros (Hin & Hne). split; [exact Hin|].
        apply negb_true_iff, String.eqb_neq. exact Hne.
    + split; [reflexivity|]. split; [lra|]. split; [reflexivity|].
      split; [reflexivity|]. split; [discriminate|].
      intros _. split; [reflexivity | exact Hstock].
Qed.

(** ** Inventory clicks *)

Section Clicks.

Variable inventoryData : list Item.
Variable random : nat -> Q.
Variable Number_toString : Q -> string.

Lemma removeFirst_count (itemId id : string) (inv : list string) :
  occurrences id (removeFirst itemId inv)
  = if String.eqb id itemId then Nat.pred (occurrences id inv) else occurrences id inv.
Proof.
  destruct (String.eqb_spec id itemId) as [->|Hne].
  - destruct (in_dec String.string_dec itemId inv) as [Hin|Hout].
    + rewrite (occurrences_removeFirst_same itemId inv Hin). reflexivity.
    + assert (Hsame : removeFirst itemId inv = inv).
      { clear - Hout. induction inv as [|a rest IH]; [reflexivity|].
        simpl. destruct (String.eqb_spec a itemId) as [->|Hne].
        - exfalso. apply Hout. now left.
        - f_equal. apply IH. intros H. apply Hout. now right. }
      rewrite Hsame.
      assert (Hzero : occurrences itemId inv = 0%nat).
      { destruct (occurrences itemId inv) eqn:E; [reflexivity|].
        exfalso. apply Hout. apply occurrences_In. lia. }
      rewrite Hzero. reflexivity.
  - apply occurrences_removeFirst_other. congruence.
Qed.

(** X22. A click on an inventory entry. An id that is not in the item data
    does nothing. A weapon or a piece of armour toggles its own slot (it
    is put on unless it is the one worn, and then it is taken off) and
    leaves the other slot, the inventory, the effects and the health
    alone; so two clicks restore a slot that was empty or held that item.
    A consumable leaves the inventory with exactly one copy of the id
    fewer (none fewer if it held none) and adds at most one effect. Any
    other category only queues a message. The click never throws. *)
Theorem onInventoryItemClick_outcome (itemId : string) (g : Game) :
  let click := onInventoryItemClick inventoryData random Number_toString itemId in
  returns (click g) = true
  /\ (find (fun it => String.eqb (item_id it) itemId) inventoryData = None ->
      click g = Return tt g)
  /\ (forall item,
        find (fun it => String.eqb (item_id it) itemId) inventoryData = Some item ->
        (category item = "weapon" ->
         equipped_weapon (player (final (click g)))
         = (if bool_decide (equipped_weapon (player g) = Some itemId)
            then None else Some itemId)
         /\ equipped_armour (player (final (click g))) = equipped_armour (player g)
         /\ inventory (player (final (click g))) = inventory (player g)
         /\ statusEffects (final (click g)) = statusEffects g
         /\ hp (player (final (click g))) = hp (player g)
         /\ (equipped_weapon (player g) = None
             \/ equipped_weapon (player g) = Some itemId ->
             equipped_weapon (player (final (click (final (click g)))))
             = equipped_weapon (player g)))
        /\ (category item = "armor" ->
            equipped_armour (player (final (click g)))
            = (if bool_decide (equipped_armour (player g) = Some itemId)
               then None else Some itemId)
            /\ equipped_weapon (player (final (click g))) = equipped_weapon (player g)
            /\ inventory (player (final (click g))) = inventory (player g)
            /\ statusEffects (final (click g)) = statusEffects g
            /\ hp (player (final (click g))) = hp (player g)
            /\ (equipped_armour (player g) = None
                \/ equipped_armour (player g) = Some itemId ->
                equipped_armour (player (final (click (final (click g)))))
                = equipped_armour (player g)))
        /\ (category item = "consumable" ->
            inventory (player (final (click g)))
            = removeFirst itemId (inventory (player g))
            /\ (forall id,
                  occurrences id (inventory (player (final (click g))))
                  = if String.eqb id itemId
                    then Nat.pred (occurrences id (inventory (player g)))
                    else occurrences id (inventory (player g)))
            /\ equipped_weapon (player (final (click g))) = equipped_weapon (player g)
            /\ equipped_armour (player (final (click g))) = equipped_armour (player g)
            /\ gold (player (final (click g))) = gold (player g)
            /\ (exists added, statusEffects (final (click g))
                              = (statusEffects g ++ added)%list
                              /\ (length added <= 1)%nat))
        /\ (category item <> "weapon" -> category item <> "armor" ->
            category item <> "consumable" ->
            click g = Return tt (addMessage ("Cannot use " +:+ item_name item)
                                   defaultDuration g))).
Proof.
  cbv zeta. unfold onInventoryItemClick.
  cbv beta iota zeta delta [bind get ret modify Math_random].
  destruct (find _ inventoryData) as [item|] eqn:Hfind.
  2: { split; [reflexivity|]. split; [reflexivity|]. intros item [=]. }
  split.
  { destruct (_ || _); [destruct (bool_decide _); reflexivity|].
    destruct (String.eqb _ _); [|reflexivity].
    destruct (_ || _); reflexivity. }
  split; [discriminate|].
  intros item0 [= <-].
  split; [|split; [|split]].
  - intros Hcat. rewrite Hcat.
    change (String.eqb "weapon" "weapon" || String.eqb "weapon" "armor") with true.
    change (String.eqb "weapon" "weapon") with true. cbv beta iota.
    destruct (bool_decide (equipped_weapon (player g) = Some itemId)) eqn:Hworn;
      cbn [final player set_player equipped_weapon equipped_armour set_equipped
           inventory statusEffects hp addMessage set_messages].
    + rewrite bool_decide_eq_false_2 by discriminate.
      cbn [final player set_player equipped_weapon equipped_armour set_equipped
           inventory statusEffects hp addMessage set_messages].
      apply bool_decide_eq_true in Hworn.
      repeat match goal with |- _ /\ _ => split end; try reflexivity.
      intros _. symmetry. exact Hworn.
    + rewrite bool_decide_eq_true_2 by reflexivity.
      cbn [final player set_player equipped_weapon equipped_armour set_equipped
           inventory statusEffects hp addMessage set_messages].
      apply bool_decide_eq_false in Hworn.
      repeat match goal with |- _ /\ _ => split end; try reflexivity.
      intros [H | H]; [symmetry; exact H | contradiction].
  - intros Hcat. rewrite Hcat.
    change (String.eqb "armor" "weapon" || String.eqb "armor" "armor") with true.
    change (String.eqb "armor" "weapon") with false. cbv beta iota.
    destruct (bool_decide (equipped_armour (player g) = Some itemId)) eqn:Hworn;
      cbn [final player set_player equipped_weapon equipped_armour set_equipped
           inventory statusEffects hp addMessage set_messages].
    + rewrite bool_decide_eq_false_2 by discriminate.
      cbn [final player set_player equipped_weapon equipped_armour set_equipped
           inventory statusEffects hp addMessage set_messages].
      apply bool_decide_eq_true in Hworn.
      repeat match goal with |- _ /\ _ => split end; try reflexivity.
      intros _. symmetry. exact Hworn.
    + rewrite bool_decide_eq_true_2 by reflexivity.
      cbn [final player set_player equipped_weapon equipped_armour set_equipped
           inventory statusEffects hp addMessage set_messages].
      apply bool_decide_eq_false in Hworn.
      repeat match goal with |- _ /\ _ => split end; try reflexivity.
      intros [H | H]; [symmetry; exact H | contradiction].
  - intros Hcat. rewrite Hcat.
    change (String.eqb "consumable" "weapon" || String.eqb "consumable" "armor")
      with false.
    change (String.eqb "consumable" "consumable") with true. cbv beta iota.
    destruct (_ || _);
      cbn [final player set_player equipped_weapon equipped_armour inventory
           set_inventory statusEffects set_statusEffects hp gold healPlayer set_hp
           addMessage set_messages pushEffect set_rngIx].
    + repeat match goal with |- _ /\ _ => split end; try reflexivity.
      * intros id. apply removeFirst_count.
      * exists []. rewrite app_nil_r. split; [reflexivity | simpl; lia].
    + repeat match goal with |- _ /\ _ => split end; try reflexivity.
      * intros id. apply removeFirst_count.
      * eexists [_]. split; [reflexivity | simpl; lia].
  - intros Hw Ha Hc.
    apply String.eqb_neq in Hw, Ha, Hc. rewrite Hw, Ha, Hc. reflexivity.
Qed.

End Clicks.

(** ** Abilities *)

Section AbilityUse.

Variable random : nat -> Q.
Variable Number_toString : Q -> string.

Lemma pickBuff_known (r : Q) : pickBuff r = "speed" \/ pickBuff r = "strength".
Proof.
  unfold pickBuff, at_Z. destruct (_ <? _)%Z; [now right|].
  destruct (Z.to_nat (Qfloor (r * 2))) as [|[|n]]; cbn; [now left | now right | now right].
Qed.

(** X23. Using an ability. A slot with no ability does nothing. An ability
    whose cooldown is still positive is refused with a message and nothing
    else changes. Otherwise its cooldown is set to 30, abilities, gold and
    inventory are untouched, at most one effect is added (of type speed
    or strength, lasting 10, with a positive value), and using it again
    at once is refused. It never throws. *)
Theorem activateAbility_cooldown (idx : Z) (g : Game) :
  let use := activateAbility random Number_toString idx in
  returns (use g) = true
  /\ (at_Z (abilities (player g)) idx = None -> use g = Return tt g)
  /\ (forall ab,
        at_Z (abilities (player g)) idx = Some ab ->
        (0 < default 0 (abilityCooldown (player g) !! ab_id ab) ->
         use g = Return tt (addMessage (ab_name ab +:+ " is on cooldown")
                              defaultDuration g))
        /\ (default 0 (abilityCooldown (player g) !! ab_id ab) <= 0 ->
            abilityCooldown (player (final (use g)))
            = <[ab_id ab := 30]> (abilityCooldown (player g))
            /\ abilities (player (final (use g))) = abilities (player g)
            /\ gold (player (final (use g))) = gold (player g)
            /\ inventory (player (final (use g))) = inventory (player g)
            /\ (exists added,
                  statusEffects (final (use g)) = (statusEffects g ++ added)%list
                  /\ (length added <= 1)%nat
                  /\ Forall (fun e => eff_time e = 10 /\ 0 < eff_value e
                                      /\ (eff_type e = "speed" \/ eff_type e = "strength"))
                       added)
            /\ use (final (use g))
               = Return tt (addMessage (ab_name ab +:+ " is on cooldown")
                              defaultDuration (final (use g))))).
Proof.
  cbv zeta. unfold activateAbility.
  cbv beta iota zeta delta [bind get ret modify Math_random].
  destruct (at_Z (abilities (player g)) idx) as [ab|] eqn:Hab.
  2: { split; [reflexivity|]. split; [reflexivity|]. intros ab [=]. }
  split.
  { destruct (0 <? _); [reflexivity|].
    destruct (_ || _); [reflexivity|].
    destruct (testCI "speed" _); [reflexivity|].
    destruct (testCI "strength" _); reflexivity. }
  split; [discriminate|].
  intros ab0 [= <-]. split.
  - intros Hhot. apply Qltb_lt in Hhot. rewrite Hhot. reflexivity.
  - intros Hcold. apply Qltb_ge in Hcold. rewrite Hcold.
    destruct (testCI "heal" (ab_name ab) || testCI "potion" (ab_name ab)) eqn:T1;
      [|destruct (testCI "speed" (ab_name ab)) eqn:T2;
        [|destruct (testCI "strength" (ab_name ab)) eqn:T3]];
      cbn [final player set_player abilityCooldown set_abilityCooldown abilities gold
           inventory statusEffects set_statusEffects healPlayer set_hp addMessage
           set_messages pushEffect setCooldown set_rngIx].
    all: repeat match goal with |- _ /\ _ => split end; try reflexivity.
    all: try (rewrite Hab, lookup_insert_eq; reflexivity).
    + exists []. rewrite app_nil_r. split; [reflexivity|]. split; [simpl; lia|]. constructor.
    + eexists [_]. split; [reflexivity|]. split; [simpl; lia|].
      constructor; [|constructor]. cbn. split; [reflexivity|]. split; [reflexivity | now left].
    + eexists [_]. split; [reflexivity|]. split; [simpl; lia|].
      constructor; [|constructor]. cbn. split; [reflexivity|]. split; [reflexivity | now right].
    + eexists [_]. split; [reflexivity|]. split; [simpl; lia|].
      constructor; [|constructor]. cbn. split; [reflexivity|]. split; [reflexivity|].
      apply pickBuff_known.
Qed.

End AbilityUse.

(** ** The timers of a frame *)

Section Timers.

Variable inventoryData : list Item.
Variable random : nat -> Q.
Variable Math_cos Math_sin : Q -> Q.
Variable Math_PI : Q.

Lemma bodyKept_refl (g : Game) : bodyKept g g.
Proof. repeat split. Qed.

Lemma pushOut_position_only (p : Player) (rx ry rw rh : Q) :
  set_xy (x p) (y p) (pushOut p rx ry rw rh) = p.
Proof.
  unfold pushOut. cbv zeta.
  destruct (_ <? _); destruct (_ <? _); destruct p; reflexivity.
Qed.

Lemma collideObstacles_position_only (obs : list Obstacle) (p : Player) :
  set_xy (x p) (y p) (collideObstacles obs p) = p.
Proof.
  unfold collideObstacles. revert p. induction obs as [|o rest IH]; intros p.
  - destruct p; reflexivity.
  - cbn [foldl]. unfold collideObstacle at 2.
    destruct (overlaps p _ _ _ _); [|apply IH].
    set (q := pushOut p _ _ _ _).
    transitivity (set_xy (x p) (y p)
                    (set_xy (x q) (y q) (foldl collideObstacle q rest))); [reflexivity|].
    rewrite IH. apply pushOut_position_only.
Qed.

Lemma collideBuildings_position_only (bs : list Building) (p : Player) :
  set_xy (x p) (y p) (foldl collideBuilding p bs) = p.
Proof.
  revert p. induction bs as [|b rest IH]; intros p.
  - destruct p; reflexivity.
  - cbn [foldl]. unfold collideBuilding at 2.
    destruct (overlaps p _ _ _ _); [|apply IH].
    cbv zeta. destruct (negb _); [|apply IH].
    set (q := pushOut p _ _ _ _).
    transitivity (set_xy (x p) (y p)
                    (set_xy (x q) (y q) (foldl collideBuilding q rest))); [reflexivity|].
    rewrite IH. apply pushOut_position_only.
Qed.

Ltac kept_modify :=
  apply preserves_modify; intros s Hs; exact Hs.

Lemma wanderNpc_bodyKept (g0 : Game) (dt : Q) (i : nat) :
  preserves (bodyKept g0) (wanderNpc random Math_cos Math_sin Math_PI dt i).
Proof.
  unfold wanderNpc. pres.
  all: try kept_modify.
  all: intros s Hs; exact Hs.
Qed.

Lemma updateWorld_bodyKept (g0 : Game) (dt : Q) :
  preserves (bodyKept g0) (updateWorld inventoryData random Math_cos Math_sin Math_PI dt).
Proof.
  unfold updateWorld. pres.
  - kept_modify.
  - apply wanderNpc_bodyKept.
  - apply preserves_modify. intros s Hs. unfold bodyKept in *.
    cbn [player set_player statusEffects].
    pose proof (collideObstacles_position_only (obstacles s) (player s)) as H.
    rewrite <- H in Hs. exact Hs.
  - apply preserves_modify. intros s Hs. unfold bodyKept in *.
    cbn [player set_player statusEffects].
    pose proof (collideBuildings_position_only (buildings s) (player s)) as H.
    rewrite <- H in Hs. exact Hs.
  - apply preserves_modify. intros s Hs. unfold bodyKept in *.
    destruct (pickups_frame inventoryData (objects s) s) as (Hp & Hg).
    pose proof (pickups_effects inventoryData (objects s) s) as He.
    destruct (pickups inventoryData (objects s) s) as [objs s1].
    cbn [fst snd] in Hp, Hg, He. cbn [player set_objects statusEffects].
    rewrite <- Hp in Hs. rewrite He. exact Hs.
Qed.

Lemma updateInterior_bodyKept (dt : Q) (g : Game) :
  bodyKept g (final (updateInterior random Math_cos Math_sin Math_PI dt g)).
Proof.
  destruct (updateInterior_step random Math_cos Math_sin Math_PI dt g)
    as (g1 & Hrun & Hfr & _).
  rewrite Hrun. cbn [final].
  pose proof (f_equal (fun s => abilityCooldown (player s)) Hfr) as H1.
  pose proof (f_equal (fun s => abilities (player s)) Hfr) as H2.
  pose proof (f_equal (fun s => baseSpeed (player s)) Hfr) as H3.
  pose proof (f_equal (fun s => hp (player s)) Hfr) as H4.
  pose proof (f_equal (fun s => maxHp (player s)) Hfr) as H5.
  pose proof (f_equal (fun s => gold (player s)) Hfr) as H6.
  pose proof (f_equal statusEffects Hfr) as H7.
  cbn in H1, H2, H3, H4, H5, H6, H7.
  unfold bodyKept. repeat split; assumption.
Qed.

(** X24. The end of a frame that returns. Every ability cooldown has gone down
    by the frame time and stops at 0, so none is negative and one that
    was at most the frame time is at 0; the speed is the base speed times
    one plus the values of the active speed effects; every message left
    has time to live; health, gold and abilities are as before. *)
Theorem update_timers (dt : Q) (g g' : Game) :
  update inventoryData random Math_cos Math_sin Math_PI dt g = Return tt g' ->
  abilityCooldown (player g') = (fun c => Qmax 0 (c - dt)) <$> abilityCooldown (player g)
  /\ (forall id c, abilityCooldown (player g') !! id = Some c -> 0 <= c)
  /\ (forall id c, abilityCooldown (player g) !! id = Some c -> c <= dt ->
        abilityCooldown (player g') !! id = Some 0)
  /\ speed (player g') = baseSpeed (player g) * speedMult (statusEffects g)
  /\ speedMult (statusEffects g) == 1 + skillBonus "speed" (statusEffects g)
  /\ (forall m, In m (messages g') -> 0 < msg_time m)
  /\ hp (player g') = hp (player g) /\ gold (player g') = gold (player g)
  /\ abilities (player g') = abilities (player g).
Proof.
  unfold update. cbv beta iota zeta delta [bind get modify].
  change (inInterior (set_player _ g)) with (inInterior g).
  set (gm := set_player _ g).
  set (mid := (if inInterior g
               then updateInterior random Math_cos Math_sin Math_PI dt
               else updateWorld inventoryData random Math_cos Math_sin Math_PI dt) gm).
  assert (Hmid : bodyKept g (final mid)).
  { unfold mid. destruct (inInterior g).
    - pose proof (updateInterior_bodyKept dt gm) as H.
      unfold bodyKept in *. exact H.
    - apply (updateWorld_bodyKept g dt gm). repeat split. }
  clearbody mid. destruct mid as [u g1|g1]; [|discriminate].
  cbn [final] in Hmid. destruct Hmid as (Hcd & Hab & Hbase & Hhp & Hmax & Hgold & Heff).
  intros [= <-].
  cbn [player set_player abilityCooldown set_abilityCooldown speed set_speed baseSpeed
       statusEffects set_messages messages hp gold abilities].
  rewrite Hcd, Hbase, Heff, Hhp, Hgold, Hab.
  split; [reflexivity|].
  split.
  { intros id c. rewrite lookup_fmap. destruct (abilityCooldown (player g) !! id) as [c0|];
      [|discriminate].
    intros [= <-]. apply Q.le_max_l. }
  split.
  { intros id c Hc Hle. rewrite lookup_fmap, Hc. cbn [fmap option_fmap option_map].
    f_equal. unfold Qmax, GenericMinMax.gmax.
    destruct (Qcompare_spec 0 (c - dt)) as [H|H|H]; try reflexivity. lra. }
  split; [reflexivity|].
  split.
  { unfold speedMult. rewrite <- (bonus_loop_sum "speed" (statusEffects g) 1). reflexivity. }
  split.
  { intros m Hm. unfold tickMessages in Hm. apply filter_In in Hm.
    destruct Hm as (_ & Hpos). apply Qltb_lt in Hpos. exact Hpos. }
  repeat split.
Qed.

End Timers.

Lemma update_timers_witness :
  update [] halfRoll (fun _ => 1) (fun _ => 0) 3 (1 # 10) demoGame
  = Return tt (final (update [] halfRoll (fun _ => 1) (fun _ => 0) 3 (1 # 10) demoGame))
  /\ speed (player (final (update [] halfRoll (fun _ => 1) (fun _ => 0) 3 (1 # 10)
                             demoGame)))
     = baseSpeed (player demoGame) * speedMult (statusEffects demoGame).
Proof.
  assert (Hrun : update [] halfRoll (fun _ => 1) (fun _ => 0) 3 (1 # 10) demoGame
                 = Return tt (final (update [] halfRoll (fun _ => 1) (fun _ => 0) 3
                                       (1 # 10) demoGame)))
    by (vm_compute; reflexivity).
  split; [exact Hrun|].
  exact (proj1 (proj2 (proj2 (proj2
           (update_timers [] halfRoll (fun _ => 1) (fun _ => 0) 3 (1 # 10) demoGame _
              Hrun))))).
Defined.

(** ** The [illusion] module *)

(** X25. Whatever the two counters are, infinities and [NaN] included,
    [tier()] is one of 0, 0.25, 0.5, 0.75 and 1, and [value()] is [NaN],
    0, 1 or a number that the tests of the clamp found above 0 and not
    above 1. On the machine: the fresh counters give value 0 and tier 0; a
    [pos] of 2e17 swallows the 10 and [neg = 0], so the value is 1 and the
    top tier is reached; [pos = 0] with [neg = -10] gives [NaN] and tier
    0, and so does an infinite [pos]. *)
Theorem illusion_value_tier_levels :
  (forall s : Illusion.State,
     In (Illusion.tier s) Illusion.levels
     /\ (Illusion.value s = PrimFloat.nan
         \/ Illusion.value s = PrimFloat.zero
         \/ Illusion.value s = PrimFloat.one
         \/ (PrimFloat.ltb PrimFloat.zero (Illusion.value s) = true
             /\ PrimFloat.ltb PrimFloat.one (Illusion.value s) = false)))
  /\ Illusion.value Illusion.zeroes = PrimFloat.zero
  /\ Illusion.tier Illusion.zeroes = PrimFloat.zero
  /\ Illusion.value {| Illusion.pos := Illusion.heavy; Illusion.neg := PrimFloat.zero |}
     = PrimFloat.one
  /\ Illusion.tier {| Illusion.pos := Illusion.heavy; Illusion.neg := PrimFloat.zero |}
     = PrimFloat.one
  /\ Illusion.value Illusion.cancelled = PrimFloat.nan
  /\ Illusion.tier Illusion.cancelled = PrimFloat.zero
  /\ Illusion.value {| Illusion.pos := PrimFloat.infinity; Illusion.neg := PrimFloat.zero |}
     = PrimFloat.nan
  /\ Illusion.tier {| Illusion.pos := PrimFloat.infinity; Illusion.neg := PrimFloat.zero |}
     = PrimFloat.zero.
Proof.
  split; [|repeat split; vm_compute; reflexivity].
  intros s. split.
  - unfold Illusion.tier, Illusion.levels. cbv zeta.
    destruct (PrimFloat.leb _ _); [simpl; tauto|].
    destruct (PrimFloat.leb _ _); [simpl; tauto|].
    destruct (PrimFloat.leb _ _); [simpl; tauto|].
    destruct (PrimFloat.leb _ _); simpl; tauto.
  - unfold Illusion.value. cbv zeta.
    set (q := PrimFloat.div _ _). clearbody q.
    cbv [Illusion.Math_max Illusion.Math_min PrimFloat.is_nan orb negb].
    change (PrimFloat.eqb PrimFloat.zero PrimFloat.zero) with true.
    change (PrimFloat.eqb PrimFloat.one PrimFloat.one) with true.
    change (PrimFloat.classify PrimFloat.zero) with FloatClass.PZero.
    change (PrimFloat.classify PrimFloat.one) with FloatClass.PNormal.
    cbv beta iota.
    repeat match goal with
           | |- context [if ?c then _ else _] => destruct c eqn:?
           end.
    all: try (left; reflexivity).
    all: try (right; left; reflexivity).
    all: try (right; right; left; reflexivity).
    all: try (right; right; right; split; assumption).
Qed.

(** X26. [record] adds the weight to [pos] for the tag [demiurge_affinity],
    to [neg] for [resistance], and leaves the counters alone for any other
    tag; in every case it stores the state. A later load of the module
    reads back what the stored item encodes: the same state when both
    counters are finite and neither is the negative zero, the fresh
    counters when one of them is an infinity or [NaN]. On the machine,
    two records of 1e308 leave an infinite [pos], a value that is [NaN]
    and nothing to read back. *)
Theorem illusion_record_persists :
  (forall (tag : string) (weight : PrimFloat.float) (e : Illusion.Env),
     let s := Illusion.state e in
     let e' := Illusion.record tag weight e in
     let s' := Illusion.state e' in
     (tag = "demiurge_affinity" ->
        s' = {| Illusion.pos := PrimFloat.add (Illusion.pos s) weight;
                Illusion.neg := Illusion.neg s |})
     /\ (tag = "resistance" ->
         s' = {| Illusion.pos := Illusion.pos s;
                 Illusion.neg := PrimFloat.add (Illusion.neg s) weight |})
     /\ (tag <> "demiurge_affinity" -> tag <> "resistance" -> s' = s)
     /\ Illusion.stored e' = Illusion.encode s'
     /\ (forall back, Illusion.encode s' = Some back ->
           Illusion.state (Illusion.loaded (Illusion.stored e')) = back)
     /\ (Illusion.encode s' = None ->
         Illusion.state (Illusion.loaded (Illusion.stored e')) = Illusion.zeroes))
  /\ (forall s : Illusion.State,
       PrimFloat.is_finite (Illusion.pos s) = true ->
       PrimFloat.is_finite (Illusion.neg s) = true ->
       PrimFloat.classify (Illusion.pos s) <> FloatClass.NZero ->
       PrimFloat.classify (Illusion.neg s) <> FloatClass.NZero ->
       Illusion.encode s = Some s)
  /\ (forall item, Illusion.state (Illusion.loaded item) = default Illusion.zeroes item)
  /\ (let e := recordAll [("demiurge_affinity", Illusion.huge);
                          ("demiurge_affinity", Illusion.huge)] (Illusion.loaded None) in
      Illusion.pos (Illusion.state e) = PrimFloat.infinity
      /\ Illusion.value (Illusion.state e) = PrimFloat.nan
      /\ Illusion.stored e = None
      /\ Illusion.state (Illusion.loaded (Illusion.stored e)) = Illusion.zeroes).
Proof.
  split; [|split; [|split]].
  - intros tag weight e. cbv zeta. unfold Illusion.record. cbv zeta.
    cbn [Illusion.state Illusion.stored].
    split.
    { intros ->. reflexivity. }
    split.
    { intros ->. destruct (Illusion.state e). reflexivity. }
    split.
    { intros H1 H2.
      destruct (String.eqb_spec tag "demiurge_affinity") as [E|_]; [contradiction|].
      destruct (String.eqb_spec tag "resistance") as [E|_]; [contradiction|].
      reflexivity. }
    split; [reflexivity|].
    split.
    + intros back Hback. unfold Illusion.loaded, Illusion.init, Illusion.fresh.
      cbn [Illusion.stored Illusion.state]. rewrite Hback. reflexivity.
    + intros Hnone. unfold Illusion.loaded, Illusion.init, Illusion.fresh.
      cbn [Illusion.stored Illusion.state]. rewrite Hnone. reflexivity.
  - intros [p n] Hp Hn Hzp Hzn. unfold Illusion.encode, Illusion.jsonNumber.
    cbn [Illusion.pos Illusion.neg] in *. rewrite Hp, Hn.
    destruct (PrimFloat.classify p); try contradiction;
      destruct (PrimFloat.classify n); try contradiction; reflexivity.
  - intros [s|]; reflexivity.
  - cbv zeta. repeat split; vm_compute; reflexivity.
Qed.

(** ** Who can be delivered to *)

Lemma deliverInfoFrom_first (inv : list string) (npcId : string) (qss : list QuestState)
    (i : nat) (g : Game) :
  Forall assignedThroughout qss ->
  deliverInfoFrom inv npcId qss i g
  = Return (match findIndex (deliverable inv npcId) qss with
            | Some (k, qs) => Some ((i + k)%nat, currentStep qs)
            | None => None
            end) g.
Proof.
  intros Hall. revert i. induction Hall as [|qs rest Hqs _ IH]; intros i.
  - reflexivity.
  - cbn [deliverInfoFrom findIndex]. unfold deliverable at 1.
    destruct (bool_decide (status qs = InProgress)); cbn [andb].
    2: { rewrite IH. destruct (findIndex _ rest) as [[k q]|]; [|reflexivity].
         now replace (S i + k)%nat with (i + S k)%nat by lia. }
    destruct (bool_decide (stepAssignments qs !! currentStep qs = Some npcId)) eqn:Eas;
      cbn [andb].
    2: { rewrite IH. destruct (findIndex _ rest) as [[k q]|]; [|reflexivity].
         now replace (S i + k)%nat with (i + S k)%nat by lia. }
    apply bool_decide_eq_true in Eas.
    destruct (lookup_lt_is_Some_2 (steps qs) (currentStep qs)) as [step Hstep].
    { unfold assignedThroughout in Hqs. rewrite <- Hqs.
      eapply lookup_lt_Some. exact Eas. }
    rewrite Hstep. cbv beta iota delta [bind deref ret].
    destruct (forallb _ _).
    + now rewrite Nat.add_0_r.
    + rewrite IH. destruct (findIndex _ rest) as [[k q]|]; [|reflexivity].
      now replace (S i + k)%nat with (i + S k)%nat by lia.
Qed.

(** X27. On quest states whose steps all have an assignee (as
    [initQuestsState] builds them and the quest functions keep them),
    [getDeliverInfoForNPC] never throws and changes nothing. It returns
    the first quest of [G.questsState] that is in progress, whose current
    step is assigned to the NPC and whose required items are all in the
    inventory, together with that step; and nothing when there is none.
    A quest not started or completed is never returned. *)
Theorem getDeliverInfoForNPC_first_deliverable (npcId : string) (g : Game) :
  Forall assignedThroughout (questsState g) ->
  getDeliverInfoForNPC npcId g
  = Return (match findIndex (deliverable (inventory (player g)) npcId) (questsState g) with
            | Some (k, qs) => Some (k, currentStep qs)
            | None => None
            end) g
  /\ (forall k stepIdx,
        getDeliverInfoForNPC npcId g = Return (Some (k, stepIdx)) g ->
        exists qs, questsState g !! k = Some qs /\ status qs = InProgress
                   /\ currentStep qs = stepIdx
                   /\ (stepIdx < length (steps qs))%nat).
Proof.
  intros Hall.
  assert (Hrun : getDeliverInfoForNPC npcId g
                 = Return (match findIndex (deliverable (inventory (player g)) npcId)
                                   (questsState g) with
                           | Some (k, qs) => Some (k, currentStep qs)
                           | None => None
                           end) g).
  { unfold getDeliverInfoForNPC. cbv beta iota delta [bind get].
    rewrite (deliverInfoFrom_first _ _ _ 0 g Hall). reflexivity. }
  split; [exact Hrun|].
  intros k stepIdx Hk. rewrite Hrun in Hk.
  destruct (findIndex _ (questsState g)) as [[k' qs]|] eqn:Hfind; [|discriminate].
  injection Hk as <- <-.
  apply findIndex_lookup in Hfind. destruct Hfind as (Hlk & Hdel).
  exists qs. split; [exact Hlk|].
  unfold deliverable in Hdel.
  apply andb_prop in Hdel. destruct Hdel as (Hdel & Hstep).
  apply andb_prop in Hdel. destruct Hdel as (Hst & _).
  apply bool_decide_eq_true in Hst.
  split; [exact Hst|]. split; [reflexivity|].
  destruct (steps qs !! currentStep qs) eqn:E; [|discriminate].
  eapply lookup_lt_Some. exact E.
Qed.

Lemma getDeliverInfoForNPC_first_deliverable_witness :
  Forall assignedThroughout (questsState gemInHand)
  /\ getDeliverInfoForNPC "npc_smith" gemInHand = Return (Some (0%nat, 0%nat)) gemInHand.
Proof.
  assert (Hq : questsState gemInHand
               = [set_status_step InProgress 0
                    {| qs_id := "q1"; title := "The Gem"; is_main := true;
                       steps := q_steps gemQuest; status := NotStarted;
                       currentStep := 0;
                       stepAssignments := ["npc_smith"; "npc_smith"] |}])
    by (vm_compute; reflexivity).
  assert (Hall : Forall assignedThroughout (questsState gemInHand)).
  { rewrite Hq. constructor; [reflexivity | constructor]. }
  split; [exact Hall|].
  rewrite (proj1 (getDeliverInfoForNPC_first_deliverable "npc_smith" gemInHand Hall)).
  assert (Hf : findIndex (deliverable (inventory (player gemInHand)) "npc_smith")
                 (questsState gemInHand)
               = Some (0%nat, set_status_step InProgress 0
                                {| qs_id := "q1"; title := "The Gem"; is_main := true;
                                   steps := q_steps gemQuest; status := NotStarted;
                                   currentStep := 0;
                                   stepAssignments := ["npc_smith"; "npc_smith"] |}))
    by (vm_compute; reflexivity).
  rewrite Hf. reflexivity.
Defined.

(** ** Spawning where there are zones *)

Lemma floor_index (r : Q) (n : nat) :
  0 <= r -> r < 1 -> (0 < n)%nat ->
  (0 <= Qfloor (r * inject_Z (Z.of_nat n)))%Z
  /\ (Z.to_nat (Qfloor (r * inject_Z (Z.of_nat n))) < n)%nat.
Proof.
  intros H0 H1 Hn.
  assert (Hpos : 0 < inject_Z (Z.of_nat n)) by (apply inject_nat_pos; exact Hn).
  assert (Hlo : (0 <= Qfloor (r * inject_Z (Z.of_nat n)))%Z).
  { change 0%Z with (Qfloor 0). apply Qfloor_resp_le. nra. }
  split; [exact Hlo|].
  assert (Hhi : (Qfloor (r * inject_Z (Z.of_nat n)) < Z.of_nat n)%Z).
  { rewrite Zlt_Qlt.
    apply Qle_lt_trans with (r * inject_Z (Z.of_nat n)); [apply Qfloor_le | nra]. }
  lia.
Qed.

Section SpawnFacts.

Variable dialoguesData : list Dialogue.
Variable random : nat -> Q.
Hypothesis rollsInUnit : unitRolls random.

Lemma spawnOne_in_zone (id : string) (g : Game) :
  zones g <> [] ->
  exists o,
    spawnOne random id g
    = Return tt (set_objects (objects g ++ [o]) (set_rngIx (rngIx g + 3) g))
    /\ itemId o = id /\ spawnedIn g o.
Proof.
  intros Hzones.
  assert (Hlen : (0 < length (zones g))%nat)
    by (destruct (zones g); [congruence | simpl; lia]).
  assert (Hcount : (if (length (zones g) =? 0)%nat then 1%nat else length (zones g))
                   = length (zones g)).
  { destruct (Nat.eqb_spec (length (zones g)) 0); [lia | reflexivity]. }
  destruct (rollsInUnit (rngIx g)) as (a0 & a1).
  destruct (rollsInUnit (S (rngIx g))) as (b0 & b1).
  destruct (rollsInUnit (S (S (rngIx g)))) as (c0 & c1).
  destruct (floor_index (random (rngIx g)) (length (zones g)) a0 a1 Hlen) as (Hlo & Hhi).
  destruct (lookup_lt_is_Some_2 (zones g) _ Hhi) as [zone Hzone].
  unfold spawnOne.
  cbv beta iota zeta delta [bind get ret modify deref throw Math_random].
  rewrite Hcount. unfold at_Z.
  cbn [zones set_rngIx].
  destruct (Z.ltb_spec (Qfloor (random (rngIx g) * inject_Z (Z.of_nat (length (zones g)))))
              0) as [Hneg|_]; [lia|].
  rewrite Hzone. cbv beta iota.
  eexists. split.
  { replace (rngIx g + 3)%nat with (S (S (S (rngIx g)))) by lia. reflexivity. }
  split; [reflexivity|].
  unfold spawnedIn. cbn [obj_x obj_y rngIx set_rngIx screen].
  split.
  - exists zone. split.
    + apply list_elem_of_In. eapply list_elem_of_lookup_2. exact Hzone.
    + intros Hw. split; nra.
  - intros Hh. split; nra.
Qed.

Lemma spawnBatch_in_zones (ids : list string) (g : Game) :
  zones g <> [] ->
  exists g' news,
    forEach (spawnOne random) ids g = Return tt g'
    /\ objects g' = (objects g ++ news)%list
    /\ map itemId news = ids
    /\ Forall (spawnedIn g) news
    /\ set_rngIx (rngIx g) (set_objects (objects g) g') = g.
Proof.
  revert g. induction ids as [|id rest IH]; intros g Hzones.
  - exists g, []. split; [reflexivity|]. rewrite app_nil_r.
    split; [reflexivity|]. split; [reflexivity|]. split; [constructor|].
    destruct g; reflexivity.
  - cbn [forEach]. unfold bind at 1.
    destruct (spawnOne_in_zone id g Hzones) as (o & Hrun & Hid & Hin).
    rewrite Hrun.
    set (g1 := set_objects (objects g ++ [o]) (set_rngIx (rngIx g + 3) g)).
    destruct (IH g1 Hzones) as (g' & news & Hrun' & Hobjs & Hids & Hall & Hfr).
    exists g', (o :: news). split; [exact Hrun'|].
    split; [rewrite Hobjs; unfold g1; cbn [objects set_objects]; now rewrite <- app_assoc|].
    split; [cbn [map]; now rewrite Hid, Hids|].
    split; [constructor; [exact Hin | exact Hall]|].
    transitivity (set_rngIx (rngIx g) (set_objects (objects g)
                    (set_rngIx (rngIx g1) (set_objects (objects g1) g')))); [reflexivity|].
    rewrite Hfr. unfold g1. destruct g; reflexivity.
Qed.

(** X28. With at least one zone and random draws in the unit interval,
    [spawnItemsForStep] returns. It appends one pickup for each required
    id of the step that no dialogue node grants, that the player does not
    hold and that does not lie on the map already, in the order of the
    requirement, and twice for an id listed twice, since the test looks
    at the map as it was before the call. Each pickup lies across the
    width of one of the zones, between y = 80 and 40 above the bottom
    band. Nothing else is written but the count of random draws. *)
Theorem spawnItemsForStep_in_zones (qs : QuestState) (stepIndex : nat) (g : Game) :
  zones g <> [] ->
  exists g' news,
    spawnItemsForStep dialoguesData random qs stepIndex g = Return tt g'
    /\ objects g' = (objects g ++ news)%list
    /\ map itemId news
       = match steps qs !! stepIndex with
         | Some step => List.filter (needsSpawn dialoguesData g)
                          (default [] (requires_item_ids step))
         | None => []
         end
    /\ Forall (spawnedIn g) news
    /\ set_rngIx (rngIx g) (set_objects (objects g) g') = g.
Proof.
  intros Hzones. unfold spawnItemsForStep.
  destruct (steps qs !! stepIndex) as [step|].
  - cbv beta iota delta [bind get]. apply spawnBatch_in_zones. exact Hzones.
  - exists g, []. split; [reflexivity|]. rewrite app_nil_r.
    split; [reflexivity|]. split; [reflexivity|]. split; [constructor|].
    destruct g; reflexivity.
Qed.

End SpawnFacts.

Lemma spawnItemsForStep_in_zones_witness :
  unitRolls halfRoll /\ zones demoGame <> []
  /\ exists g' news,
       spawnItemsForStep [] halfRoll
         {| qs_id := "q1"; title := "The Gem"; is_main := true;
            steps := q_steps gemQuest; status := InProgress; currentStep := 0;
            stepAssignments := ["npc_smith"; "npc_smith"] |} 0 demoGame
       = Return tt g'
       /\ objects g' = (objects demoGame ++ news)%list
       /\ Forall (spawnedIn demoGame) news.
Proof.
  assert (Hz : zones demoGame <> []) by discriminate.
  split; [exact halfRoll_unit|]. split; [exact Hz|].
  destruct (spawnItemsForStep_in_zones [] halfRoll halfRoll_unit
              {| qs_id := "q1"; title := "The Gem"; is_main := true;
                 steps := q_steps gemQuest; status := InProgress; currentStep := 0;
                 stepAssignments := ["npc_smith"; "npc_smith"] |} 0 demoGame Hz)
    as (g' & news & Hrun & Hobjs & _ & Hall & _).
  exists g', news. split; [exact Hrun|]. split; [exact Hobjs | exact Hall].
Defined.

(** ** Granting a list of items *)

Section Grants.

Variable inventoryData : list Item.

Lemma grantItems_owned (ids : list string) (g : Game) :
  (forall id, In id ids -> In id (inventory (player g))) ->
  grantItems inventoryData ids g = g.
Proof.
  induction ids as [|id rest IH]; intros Hall; [reflexivity|].
  rewrite grantItems_cons, grantItem_owned by (apply Hall; now left).
  apply IH. intros id' Hin. apply Hall. now right.
Qed.

Lemma grantItems_added (ids : list string) (g : Game) :
  exists added,
    inventory (player (grantItems inventoryData ids g))
    = (inventory (player g) ++ added)%list
    /\ NoDup added
    /\ (forall id, In id added <-> In id ids /\ ~ In id (inventory (player g)))
    /\ gold (player (grantItems inventoryData ids g))
       == gold (player g) + 5 * inject_Z (Z.of_nat (length added))
    /\ length (messages (grantItems inventoryData ids g))
       = (length (messages g) + length added)%nat.
Proof.
  revert g. induction ids as [|id rest IH]; intros g.
  - exists []. rewrite app_nil_r. split; [reflexivity|]. split; [constructor|].
    split; [intros id; simpl; tauto|].
    split; [cbn [grantItems foldl length]; change (inject_Z (Z.of_nat 0)) with 0; lra|].
    simpl; lia.
  - rewrite grantItems_cons.
    destruct (includes (inventory (player g)) id) eqn:Hinc.
    + assert (Hown : In id (inventory (player g))) by (apply includes_In; exact Hinc).
      rewrite (grantItem_owned inventoryData g id Hown).
      destruct (IH g) as (added & Hinv & Hnd & Hiff & Hgold & Hmsg).
      exists added. split; [exact Hinv|]. split; [exact Hnd|].
      split; [|split; assumption].
      intros x. rewrite Hiff. simpl. split.
      * intros (Hx & Hnot). split; [now right | exact Hnot].
      * intros ([<- | Hx] & Hnot); [contradiction | split; assumption].
    + assert (Hnew : ~ In id (inventory (player g))).
      { intros H. apply includes_In in H. congruence. }
      set (g1 := grantItem inventoryData id g).
      assert (Hinv1 : inventory (player g1) = (inventory (player g) ++ [id])%list).
      { unfold g1, grantItem. rewrite Hinc. reflexivity. }
      assert (Hgold1 : gold (player g1) = gold (player g) + 5).
      { unfold g1, grantItem. rewrite Hinc. reflexivity. }
      assert (Hmsg1 : length (messages g1) = S (length (messages g))).
      { unfold g1, grantItem. rewrite Hinc. cbn [negb]. cbv zeta.
        cbn [messages set_player addMessage set_messages]. rewrite length_app. simpl. lia. }
      destruct (IH g1) as (added & Hinv & Hnd & Hiff & Hgold & Hmsg).
      exists (id :: added).
      split; [rewrite Hinv, Hinv1, <- app_assoc; reflexivity|].
      split.
      { constructor; [|exact Hnd]. intros Hin. apply list_elem_of_In, Hiff in Hin.
        destruct Hin as (_ & Hnot). apply Hnot. rewrite Hinv1, in_app_iff. right. now left. }
      split.
      { intros x. simpl. rewrite Hiff, Hinv1, in_app_iff. simpl. split.
        - intros [<- | (Hx & Hnot)]; [split; [now left | exact Hnew]|].
          split; [now right | tauto].
        - intros ([<- | Hx] & Hnot); [now left|].
          destruct (String.string_dec id x) as [->|Hne]; [now left|].
          right. split; [exact Hx|]. intros [H | [H | []]]; [contradiction | congruence]. }
      split.
      { rewrite Hgold, Hgold1. cbn [length]. rewrite inject_nat_S. lra. }
      rewrite Hmsg, Hmsg1. simpl. lia.
Qed.

(** X29. Granting a list of ids adds to the end of the inventory, in order and
    once each, exactly the ids of the list that were not held, even when
    the list repeats an id; an inventory free of duplicates stays so.
    The gold rises by 5 and one message is queued for each id added, and
    granting the same list again changes nothing. *)
Theorem grantItems_set_semantics (ids : list string) (g : Game) :
  exists added,
    inventory (player (grantItems inventoryData ids g))
    = (inventory (player g) ++ added)%list
    /\ NoDup added
    /\ (forall id, In id added <-> In id ids /\ ~ In id (inventory (player g)))
    /\ gold (player (grantItems inventoryData ids g))
       == gold (player g) + 5 * inject_Z (Z.of_nat (length added))
    /\ length (messages (grantItems inventoryData ids g))
       = (length (messages g) + length added)%nat
    /\ (NoDup (inventory (player g)) ->
        NoDup (inventory (player (grantItems inventoryData ids g))))
    /\ grantItems inventoryData ids (grantItems inventoryData ids g)
       = grantItems inventoryData ids g.
Proof.
  destruct (grantItems_added ids g) as (added & Hinv & Hnd & Hiff & Hgold & Hmsg).
  exists added. split; [exact Hinv|]. split; [exact Hnd|]. split; [exact Hiff|].
  split; [exact Hgold|]. split; [exact Hmsg|]. split.
  - intros Hnd0. rewrite Hinv. apply NoDup_app. split; [exact Hnd0|]. split; [|exact Hnd].
    intros x Hx Hadded. apply list_elem_of_In in Hx, Hadded.
    apply Hiff in Hadded. tauto.
  - apply grantItems_owned. intros id Hid. rewrite Hinv, in_app_iff.
    destruct (in_dec String.string_dec id (inventory (player g))) as [H|H]; [now left|].
    right. apply Hiff. split; assumption.
Qed.

(** ** Starting a conversation *)

Variable dialoguesData : list Dialogue.

(** X30. [startTalk] on an NPC whose dialogue does not exist does nothing. On a
    dialogue without nodes it throws at the read of the node's grants,
    leaving a session whose current node is undefined. Otherwise it
    returns with the session on the first node and that node's items
    granted; and starting the same conversation again at once changes
    nothing, since everything granted is then held. *)
Theorem startTalk_outcome (npc : Npc) (g : Game) :
  (dialoguesData !! dialogueIndex npc = None ->
   startTalk dialoguesData inventoryData npc g = Return tt g)
  /\ (forall dlg,
        dialoguesData !! dialogueIndex npc = Some dlg -> nodes dlg = [] ->
        startTalk dialoguesData inventoryData npc g
        = Throw (set_talk (Some {| talk_npcId := npc_id npc;
                                   talk_dialogueIndex := dialogueIndex npc;
                                   currentNode := None |}) g))
  /\ (forall dlg first rest,
        dialoguesData !! dialogueIndex npc = Some dlg -> nodes dlg = first :: rest ->
        let session := Some {| talk_npcId := npc_id npc;
                               talk_dialogueIndex := dialogueIndex npc;
                               currentNode := Some first |} in
        startTalk dialoguesData inventoryData npc g
        = Return tt (grantIfAny inventoryData (grants_item_ids first) (set_talk session g))
        /\ talk (final (startTalk dialoguesData inventoryData npc g)) = session
        /\ (forall id, In id (default [] (grants_item_ids first)) ->
              In id (inventory (player (final (startTalk dialoguesData inventoryData
                                                 npc g)))))
        /\ startTalk dialoguesData inventoryData npc
             (final (startTalk dialoguesData inventoryData npc g))
           = Return tt (final (startTalk dialoguesData inventoryData npc g))).
Proof.
  unfold startTalk. split; [|split].
  - intros ->. reflexivity.
  - intros dlg -> Hnodes. rewrite Hnodes. reflexivity.
  - intros dlg first rest -> Hnodes. rewrite Hnodes. cbv zeta.
    cbv beta iota delta [bind modify deref ret]. cbn [lookup list_lookup].
    destruct (grants_item_ids first) as [ids|]; cbn [grantIfAny final from_option id].
    + set (session := Some _).
      destruct (grantItems_frame inventoryData ids (set_talk session g))
        as (Htalk & _).
      destruct (grantItems_added ids (set_talk session g))
        as (added & Hinv & _ & Hiff & _).
      split; [reflexivity|]. split; [exact Htalk|].
      split.
      { intros id Hid. rewrite Hinv, in_app_iff.
        destruct (in_dec String.string_dec id (inventory (player (set_talk session g))))
          as [H|H]; [now left|].
        right. apply Hiff. split; assumption. }
      set (g1 := grantItems inventoryData ids (set_talk session g)) in *.
      assert (Hsame : set_talk session g1 = g1).
      { destruct g1. cbn in Htalk. subst. reflexivity. }
      rewrite Hsame. f_equal. apply grantItems_owned.
      intros id Hid. rewrite Hinv, in_app_iff.
      destruct (in_dec String.string_dec id (inventory (player (set_talk session g))))
        as [H|H]; [now left|].
      right. apply Hiff. split; assumption.
    + split; [reflexivity|]. split; [reflexivity|]. split; [intros id []|].
      reflexivity.
Qed.

End Grants.
